(** * image_gen: batch image generator and credential inspector

    Shallow embedding of
      - [src/generate.js]        (the batch generator with the structural
                                  search [findImagePart]),
      - [src/unnamed/part_000]   (the revision of the generator that reads the
                                  run identifier [SERIAL]),
      - [src/check-creds.js]     (the credential inspector),
    and the properties of their specification.

    Conventions.  JavaScript strings are [string]s of 8-bit characters read as
    Latin-1 code points.  Numbers that are only printed ([i + 1],
    [Date.now()]) are non-negative integers.  Exceptions are [Error] objects
    (what the SDK, sharp, [fs] and the engine raise).  Everything outside the
    repository (the generation API, sharp, the file system, the clock, the
    environment) is a field of a [World] record, so that every statement
    holds for all behaviours of the collaborators.  The promise chain that
    post-processes an image is started by the loop and not awaited: the model
    keeps what the main line does and what each detached chain does apart. *)

From Stdlib Require Import List String Ascii Bool Arith NArith ZArith Lia DecimalString.
From Stdlib Require DecimalPos DecimalN.
Import ListNotations.

Open Scope string_scope.

(* ================================================================== *)
(** * JavaScript string primitives used by the sources *)
(* ================================================================== *)

Module JsString.

(** [s.startsWith(pre)] *)
Definition startsWith (s pre : string) : bool := String.prefix pre s.

(** [s.endsWith(suf)]: some suffix of [s] is [suf]. *)
Fixpoint endsWith (s suf : string) : bool :=
  (s =? suf) ||
  match s with
  | EmptyString => false
  | String _ rest => endsWith rest suf
  end.

(** [s.includes(sub)]: [sub] starts at some position of [s]. *)
Fixpoint includes (s sub : string) : bool :=
  String.prefix sub s ||
  match s with
  | EmptyString => false
  | String _ rest => includes rest sub
  end.

(** One character of [toLowerCase()] on Latin-1: A-Z and the accented
    capitals U+00C0..U+00DE (without the multiplication sign U+00D7) move up
    by 32; every other character is its own lower case. *)
Definition lowerChar (c : ascii) : ascii :=
  let n := nat_of_ascii c in
  if ((65 <=? n)%nat && (n <=? 90)%nat) ||
     ((192 <=? n)%nat && (n <=? 222)%nat && negb (n =? 215)%nat)
  then ascii_of_nat (n + 32)
  else c.

(** [s.toLowerCase()] *)
Fixpoint toLowerCase (s : string) : string :=
  match s with
  | EmptyString => EmptyString
  | String c rest => String (lowerChar c) (toLowerCase rest)
  end.

(** [`${n}`] for a non-negative integer below 1e21: its decimal digits. *)
Definition decimal (n : N) : string := NilZero.string_of_uint (N.to_uint n).

(** [s.replace(/pat/g, rep)] for a literal, non-empty pattern: scanning from
    the left, every non-overlapping occurrence is replaced.  [skip] counts the
    characters of the occurrence just replaced that are still to be dropped. *)
Fixpoint replaceAllFrom (pat rep : string) (skip : nat) (s : string) : string :=
  match s with
  | EmptyString => EmptyString
  | String c rest =>
      match skip with
      | S k => replaceAllFrom pat rep k rest
      | O =>
          if String.prefix pat s
          then rep ++ replaceAllFrom pat rep (String.length pat - 1) rest
          else String c (replaceAllFrom pat rep 0 rest)
      end
  end.

Definition replaceAll (pat rep s : string) : string := replaceAllFrom pat rep 0 s.

(** The character class [[^.]]+ anchored at the end of the input: the rest of
    the string is not empty and holds no dot. *)
Fixpoint noDot (s : string) : bool :=
  match s with
  | EmptyString => true
  | String c rest => negb (Ascii.eqb c ".") && noDot rest
  end.

Definition isExtensionTail (s : string) : bool :=
  negb (s =? "") && noDot s.

(** [s.replace(/\.[^.]+$/, '')]: the leftmost position where a dot is followed,
    up to the end of the input, by one or more characters other than a dot;
    the match is removed.  Without a match the string is returned as it is. *)
Fixpoint stripExtension (s : string) : string :=
  match s with
  | EmptyString => EmptyString
  | String c rest =>
      if Ascii.eqb c "." && isExtensionTail rest
      then EmptyString
      else String c (stripExtension rest)
  end.

(** A string is truthy when it is not empty. *)
Definition truthy (s : string) : bool := negb (s =? "").

End JsString.

Import JsString.

(* ================================================================== *)
(** * Filename resolution *)
(* ================================================================== *)

(** Lines 136-140 of [generate.js] (101-105 of [part_000]):
<<
    if (!fileName.toLowerCase().endsWith('.jpg')) {
       fileName = fileName.replace(/\.[^.]+$/, '') + '.jpg';
    }
>> *)
Definition ensureJpgExtension (fileName : string) : string :=
  if negb (endsWith (toLowerCase fileName) ".jpg")
  then stripExtension fileName ++ ".jpg"
  else fileName.

(** Lines 133-135 (98-100): the timestamp placeholder. *)
Definition substituteTimestamp (requestedFilename : string) (now : N) : string :=
  if includes requestedFilename "{timestamp}"
  then replaceAll "{timestamp}" (decimal now) requestedFilename
  else requestedFilename.

(** [requestedFilename] is [null] for a string entry and [entry.filename]
    otherwise; [None] stands for [null]/[undefined]. *)
Definition truthyFilename (requestedFilename : option string) : option string :=
  match requestedFilename with
  | Some f => if truthy f then Some f else None
  | None => None
  end.

(** "Ends in the required extension exactly once", as the specification
    words the resolver's guarantee: the name ends in ".jpg" and the extension
    is not there a second time before it. *)
Definition endsInJpgOnce (fileName : string) : bool :=
  endsWith fileName ".jpg" && negb (endsWith fileName ".jpg.jpg").

Module GenerateSerial.

(** [src/unnamed/part_000], line 93. *)
Definition serialSegment (SERIAL : string) : string :=
  if truthy SERIAL then SERIAL ++ "_" else "".

(** [src/unnamed/part_000], lines 106-109. *)
Definition prependSerial (SERIAL fileName : string) : string :=
  if truthy SERIAL && negb (startsWith fileName (SERIAL ++ "_"))
  then SERIAL ++ "_" ++ fileName
  else fileName.

(** [src/unnamed/part_000], lines 93-112. *)
Definition resolveFileName
    (SERIAL : string) (requestedFilename : option string) (i : nat) (now : N)
  : string :=
  match truthyFilename requestedFilename with
  | Some requested =>
      let fileName := substituteTimestamp requested now in
      let fileName := ensureJpgExtension fileName in
      prependSerial SERIAL fileName
  | None =>
      "image_" ++ decimal (N.of_nat (i + 1)) ++ "_" ++ serialSegment SERIAL
        ++ decimal now ++ ".jpg"
  end.

End GenerateSerial.

(* ================================================================== *)
(** * JavaScript values read by the sources *)
(* ================================================================== *)

Module Js.

(** Objects and arrays live in a heap and are passed by reference, so a
    structure may share nodes or be cyclic.  An object keeps its own
    properties in enumeration order ([Object.keys]). *)
Definition loc := nat.

Inductive value :=
| VUndefined
| VNull
| VBool (b : bool)
| VNumber (n : Z)
| VString (s : string)
| VRef (l : loc).

Inductive cell :=
| CArray (items : list value)
| CObject (props : list (string * value)).

Definition heap := list cell.

Definition deref (h : heap) (l : loc) : cell := nth l h (CObject []).

(** [!v] is [negb (truthy v)]. *)
Definition truthy (v : value) : bool :=
  match v with
  | VUndefined | VNull => false
  | VBool b => b
  | VNumber n => negb (n =? 0)%Z
  | VString s => JsString.truthy s
  | VRef _ => true
  end.

Definition nullish (v : value) : bool :=
  match v with
  | VUndefined | VNull => true
  | _ => false
  end.

(** [props[key]] on the own properties of an object. *)
Fixpoint lookup (props : list (string * value)) (key : string) : value :=
  match props with
  | [] => VUndefined
  | (k, v) :: rest => if (k =? key)%string then v else lookup rest key
  end.

(** [Object.keys(node)] *)
Definition keys (props : list (string * value)) : list string := map fst props.

(** [v?.key] for the property names the sources read ([candidates],
    [content], [parts], [inlineData], [mimeType], [data], [project_id],
    [client_email], [type]), none of which arrays, primitives or
    [Object.prototype] define: an own property of an object, and [undefined]
    on everything else. *)
Definition prop (h : heap) (v : value) (key : string) : value :=
  match v with
  | VRef l =>
      match deref h l with
      | CObject props => lookup props key
      | CArray _ => VUndefined
      end
  | _ => VUndefined
  end.

(** [v?.[0]] *)
Definition elementZero (h : heap) (v : value) : value :=
  match v with
  | VRef l =>
      match deref h l with
      | CArray items => nth 0 items VUndefined
      | CObject props => lookup props "0"
      end
  | VString (String c _) => VString (String c EmptyString)
  | _ => VUndefined
  end.

(** [Array.isArray(v)], with the elements. *)
Definition asArray (h : heap) (v : value) : option (list value) :=
  match v with
  | VRef l =>
      match deref h l with
      | CArray items => Some items
      | CObject _ => None
      end
  | _ => None
  end.

(** What is thrown or rejected with.  [TypeError] is raised by the engine
    (a property of [null]/[undefined], a call of something that is not a
    function, a circular structure given to [JSON.stringify]);
    [ExternalError] is an [Error] object of a collaborator, with its
    message; [NullishReason] is [null] or [undefined] used as a thrown value
    or as a rejection reason ([Promise.reject()]).  Any other value that is
    no [Error] behaves, as far as control goes, like an [Error] object. *)
Inductive error :=
| TypeError
| ExternalError (message : string)
| NullishReason.

Inductive result (A : Type) :=
| Ok (a : A)
| Throw (e : error).

Arguments Ok {A} a.
Arguments Throw {A} e.

Definition bind {A B : Type} (m : result A) (k : A -> result B) : result B :=
  match m with
  | Ok a => k a
  | Throw e => Throw e
  end.

(** [v.key]: a [TypeError] on [null] and [undefined]. *)
Definition getProp (h : heap) (v : value) (key : string) : result value :=
  if nullish v then Throw TypeError else Ok (prop h v key).

(** [e.message], as every [catch] handler of the sources reads it before it
    prints: a [TypeError] on a [null]/[undefined] reason. *)
Definition readMessage (e : error) : result unit :=
  match e with
  | NullishReason => Throw TypeError
  | _ => Ok tt
  end.

(** The thrown value is not [null] or [undefined]. *)
Definition isErrorObject (e : error) : bool :=
  match e with
  | NullishReason => false
  | _ => true
  end.

(** A call that returns, or raises something that is not [null] or
    [undefined]. *)
Definition raisesErrorsOnly {A : Type} (r : result A) : bool :=
  match r with
  | Throw e => isErrorObject e
  | Ok _ => true
  end.

End Js.

Import Js.

Notation "x <- m ;; k" := (bind m (fun x => k))
  (at level 61, m at next level, right associativity).

(* ================================================================== *)
(** * Image payload extraction ([src/generate.js], lines 73-106) *)
(* ================================================================== *)

(** Line 76: [(part) => part.inlineData?.mimeType?.startsWith('image/')].
    The call raises on a [null]/[undefined] part and on a media type that is
    neither nullish nor a string (it has no [startsWith]). *)
Definition partIsImage (h : heap) (part : value) : result bool :=
  inlineData <- getProp h part "inlineData" ;;
  let mimeType := prop h inlineData "mimeType" in
  match mimeType with
  | VUndefined | VNull => Ok false
  | VString s => Ok (JsString.startsWith s "image/")
  | _ => Throw TypeError
  end.

(** [items.find(pred)] *)
Fixpoint arrayFind (pred : value -> result bool) (items : list value)
  : result value :=
  match items with
  | [] => Ok VUndefined
  | item :: rest =>
      found <- pred item ;;
      if found : bool then Ok item else arrayFind pred rest
  end.

(** [response.candidates?.[0]?.content?.parts]: the chain stops with
    [undefined] at the first nullish link; only [response] itself is read
    with a plain dot. *)
Definition expectedParts (h : heap) (response : value) : result value :=
  candidates <- getProp h response "candidates" ;;
  Ok (prop h (prop h (elementZero h candidates) "content") "parts").

(** Lines 75-77: the expected location. *)
Definition directImagePart (h : heap) (response : value) : result value :=
  parts <- expectedParts h response ;;
  if nullish parts then Ok VUndefined
  else match asArray h parts with
       | Some items => arrayFind (partIsImage h) items
       | None => Throw TypeError
       end.

(** Line 90: [node.inlineData && typeof node.inlineData.mimeType === 'string'
    && node.inlineData.mimeType.startsWith('image/')]. *)
Definition hasImageData (h : heap) (node : value) : bool :=
  let inlineData := prop h node "inlineData" in
  truthy inlineData &&
  match prop h inlineData "mimeType" with
  | VString s => JsString.startsWith s "image/"
  | _ => false
  end.

(** The first truthy result of [rec] over a list, as the two [for] loops
    compute it ([if (res) return res]); [None] when [rec] ran out of fuel. *)
Fixpoint firstTruthy {A : Type} (rec : A -> option value) (xs : list A)
  : option value :=
  match xs with
  | [] => Some VNull
  | x :: rest =>
      match rec x with
      | None => None
      | Some res => if truthy res then Some res else firstTruthy rec rest
      end
  end.

(** Lines 82-103, [findImagePart(node, depth)].  The source recurses on a
    growing [depth]; [fuel] bounds the nesting of calls and [None] means that
    it ran out. *)
Fixpoint findImagePartFuel (fuel : nat) (h : heap) (node : value) (depth : nat)
  : option value :=
  match fuel with
  | O => None
  | S fuel' =>
      if negb (truthy node) || (8 <? depth)%nat then Some VNull
      else
        match node with
        | VRef l =>
            match deref h l with
            | CArray items =>
                firstTruthy
                  (fun item => findImagePartFuel fuel' h item (depth + 1))
                  items
            | CObject props =>
                if hasImageData h node then Some node
                else
                  firstTruthy
                    (fun key =>
                       findImagePartFuel fuel' h (lookup props key) (depth + 1))
                    (keys props)
            end
        | _ => Some VNull
        end
  end.

(** [findImagePart(response)], line 105: the search from depth 0.  Ten nested
    calls are always enough ([findImagePartFuel_enough] below), so the default
    is never taken. *)
Definition findImagePart (h : heap) (node : value) : value :=
  match findImagePartFuel 10 h node 0 with
  | Some res => res
  | None => VNull
  end.

(** Lines 75-106: the expected location first, the structural search only
    when it gave nothing. *)
Definition locateImagePart (h : heap) (response : value) : result value :=
  imagePart <- directImagePart h response ;;
  if negb (truthy imagePart) then Ok (findImagePart h response)
  else Ok imagePart.

(** ** The traversal as the specification words it *)

(** The nodes below a node, in visiting order: array elements in index order,
    property values in key enumeration order. *)
Definition children (h : heap) (node : value) : list value :=
  match node with
  | VRef l =>
      match deref h l with
      | CArray items => items
      | CObject props => map (lookup props) (keys props)
      end
  | _ => []
  end.

(** Depth-first pre-order over [levels] levels: a node comes before the nodes
    below it, and a subtree before the next sibling.  Falsy nodes ([null],
    [undefined], [0], the empty string, [false]) are skipped. *)
Fixpoint preorder (h : heap) (levels : nat) (node : value) : list value :=
  match levels with
  | O => []
  | S levels' =>
      if truthy node
      then node :: flat_map (preorder h levels') (children h node)
      else []
  end.

(** The first node of a visiting order that carries an image payload
    ([hasImageData]: its [inlineData.mimeType] is a string that starts with
    "image/"), [null] when there is none. *)
Definition firstImageNode (h : heap) (nodes : list value) : value :=
  match find (hasImageData h) nodes with
  | Some node => node
  | None => VNull
  end.

(** [child h node c]: [c] is an element of the array [node] or the value of
    one of the keys of the object [node]. *)
Definition child (h : heap) (node c : value) : Prop := In c (children h node).

(** [nested h d root node]: [node] lies [d] levels below [root], every node
    above it on the way being a wrapper that carries no image payload. *)
Inductive nested (h : heap) : nat -> value -> value -> Prop :=
| nested_here : forall node, nested h 0 node node
| nested_below : forall d root c node,
    hasImageData h root = false ->
    child h root c ->
    nested h d c node ->
    nested h (S d) root node.

(** [within h d root node]: [node] lies [d] levels below [root]. *)
Inductive within (h : heap) : nat -> value -> value -> Prop :=
| within_here : forall node, within h 0 node node
| within_below : forall d root c node,
    child h root c ->
    within h d c node ->
    within h (S d) root node.

(* ================================================================== *)
(** * Effects: console output, file writes, exceptions *)
(* ================================================================== *)

Module Effect.

Section WithEvent.

Context {E : Type}.

(** A computation emits events in order and then returns or throws. *)
Definition M (A : Type) : Type := (list E * result A)%type.

Definition ret {A : Type} (a : A) : M A := ([], Ok a).

Definition emit (e : E) : M unit := ([e], Ok tt).

Definition lift {A : Type} (r : result A) : M A := ([], r).

Definition bindM {A B : Type} (m : M A) (k : A -> M B) : M B :=
  match m with
  | (evs, Ok a) => let (evs', r) := k a in ((evs ++ evs')%list, r)
  | (evs, Throw e) => (evs, Throw e)
  end.

(** [try { body } catch (e) { handler(e) }] *)
Definition tryCatch {A : Type} (body : M A) (handler : error -> M A) : M A :=
  match body with
  | (evs, Ok a) => (evs, Ok a)
  | (evs, Throw e) => let (evs', r) := handler e in ((evs ++ evs')%list, r)
  end.

Definition events {A : Type} (m : M A) : list E := fst m.

Definition outcome {A : Type} (m : M A) : result A := snd m.

End WithEvent.

Arguments M : clear implicits.

End Effect.

Import Effect.

Notation "x <~ m ;; k" := (bindM m (fun x => k))
  (at level 61, m at next level, right associativity).
Notation "m ;;; k" := (bindM m (fun _ => k))
  (at level 61, right associativity).

Definition buffer := list Byte.byte.

(** The console method of a call: [log], [info], [debug], [warn], [error]. *)
Inductive level := LLog | LInfo | LDebug | LWarn | LError.

Definition dquote : string := String (ascii_of_nat 34) EmptyString.

Definition latin1 (n : nat) : string := String (ascii_of_nat n) EmptyString.

(* ================================================================== *)
(** * The batch generator ([src/generate.js]) *)
(* ================================================================== *)

Module Generate.

(** Lines 22-31. *)
Definition MODEL_NAME : string := "gemini-2.5-flash-image".
Definition ENFORCED_STYLE : string := "Retro Comic Book Illustration".
Definition TARGET_WIDTH : N := 495.
Definition TARGET_HEIGHT : N := 750.
Definition LIGHT_BG : string := "#F7F7F7".
Definition ENFORCED_CONSTRAINTS : string :=
  "Sin bordes ni marcos. Fondo de color s" ++ latin1 243 ++
  "lido claro (por ejemplo #F7F7F7). Sin texturas, degradados ni elementos adicionales. Sin texto ni marcas de agua. Tama"
  ++ latin1 241 ++ "o requerido: " ++ decimal TARGET_WIDTH ++ "px de ancho por "
  ++ decimal TARGET_HEIGHT ++ "px de alto.".

(** An element of [IMAGE_PROMPTS]: a plain string or an object with a
    [prompt] and a [filename] (line 52: "Support both string and object
    entries"); [None] stands for a [filename] that is [null] or absent. *)
Inductive entry :=
| EntryString (text : string)
| EntryObject (prompt : string) (filename : option string).

(** Lines 16-19. *)
Definition IMAGE_PROMPTS : list entry :=
  [EntryObject "" (Some ""); EntryObject "" (Some "")].

(** Line 53. *)
Definition basePromptOf (e : entry) : string :=
  match e with
  | EntryString text => text
  | EntryObject prompt _ => prompt
  end.

(** Line 54. *)
Definition requestedFilenameOf (e : entry) : option string :=
  match e with
  | EntryString _ => None
  | EntryObject _ filename => filename
  end.

(** [entry.prompt], as line 57 prints it ([undefined] on a string). *)
Definition promptPropertyOf (e : entry) : option string :=
  match e with
  | EntryString _ => None
  | EntryObject prompt _ => Some prompt
  end.

(** Line 56. *)
Definition styledPrompt (basePrompt : string) : string :=
  basePrompt ++ " -- Estilo: " ++ dquote ++ ENFORCED_STYLE ++ dquote.

(** Line 62. *)
Definition fullPromptOf (prompt : string) : string :=
  prompt ++ ". " ++ ENFORCED_CONSTRAINTS.

(** Lines 130-144. *)
Definition resolveFileName
    (requestedFilename : option string) (i : nat) (now : N) : string :=
  match truthyFilename requestedFilename with
  | Some requested =>
      let fileName := substituteTimestamp requested now in
      ensureJpgExtension fileName
  | None =>
      "image_" ++ decimal (N.of_nat (i + 1)) ++ "_" ++ decimal now ++ ".jpg"
  end.

(** The collaborators outside the repository.  The first argument of a call
    is the index of the entry it is made for: the same call may answer
    differently from one entry to the next.  [sharp_pipeline] is the
    synchronous part of lines 119-126 ([sharp(imgBuffer).resize(..)
    .flatten(..).jpeg(..)], with the width, the height, the background and
    the quality), which may throw; [sharp_toBuffer] is the settlement of the
    promise of [toBuffer()]. *)
Record World := {
  generateContent : nat -> string -> string -> result (heap * value);
  Buffer_from : nat -> heap -> value -> result buffer;
  import_sharp : nat -> result unit;
  sharp_pipeline : nat -> buffer -> N -> N -> string -> N -> result unit;
  sharp_toBuffer : nat -> buffer -> N -> N -> string -> N -> result buffer;
  Date_now : nat -> N;
  path_join : string -> string -> string;
  process_cwd : string;
  fs_writeFileSync : nat -> string -> buffer -> result unit;
  fs_existsSync : string -> bool;
  fs_mkdirSync : string -> result unit;
  new_GoogleGenAI : result unit
}.

(** Line 21. *)
Definition OUTPUT_DIR (w : World) : string :=
  path_join w (process_cwd w) "images".

(** ** The diagnostic summary (lines 160-172) *)

(** [v.length] *)
Definition lengthOf (h : heap) (v : value) : value :=
  match v with
  | VString s => VNumber (Z.of_nat (String.length s))
  | VRef l =>
      match deref h l with
      | CArray items => VNumber (Z.of_nat (List.length items))
      | CObject props => lookup props "length"
      end
  | _ => VUndefined
  end.

Record partSummary := {
  textPreview : option string;
  mimeType : value;
  dataLength : value
}.

Record candidateSummary := {
  candidateIndex : nat;
  partsCount : value;
  parts : list partSummary
}.

(** Lines 166-170; [p.text] raises on a [null]/[undefined] part. *)
Definition summarisePart (h : heap) (p : value) : result partSummary :=
  text <- getProp h p "text" ;;
  let inlineData := prop h p "inlineData" in
  let data := prop h inlineData "data" in
  Ok {| textPreview :=
          match text with
          | VString s => Some (substring 0 120 s)
          | _ => None
          end;
        mimeType := prop h inlineData "mimeType";
        dataLength :=
          if truthy data
          then (if truthy (lengthOf h data) then lengthOf h data else VNull)
          else VNull |}.

(** [items.map(f)] for an [f] that may throw. *)
Fixpoint arrayMap {A : Type} (f : nat -> value -> result A) (idx : nat)
    (items : list value) : result (list A) :=
  match items with
  | [] => Ok []
  | item :: rest =>
      a <- f idx item ;;
      more <- arrayMap f (S idx) rest ;;
      Ok (a :: more)
  end.

(** [x?.map(f) ?? []]: nothing on a nullish [x], a [TypeError] on anything
    else that is not an array. *)
Definition optionalMap {A : Type} (h : heap) (x : value)
    (f : nat -> value -> result A) : result (list A) :=
  if nullish x then Ok []
  else match asArray h x with
       | Some items => arrayMap f 0 items
       | None => Throw TypeError
       end.

(** Lines 161-172. *)
Definition summariseCandidate (h : heap) (idx : nat) (c : value)
  : result candidateSummary :=
  let parts := prop h (prop h c "content") "parts" in
  ps <- optionalMap h parts (fun _ p => summarisePart h p) ;;
  Ok {| candidateIndex := idx;
        partsCount := if nullish (lengthOf h parts) then VNumber 0
                      else lengthOf h parts;
        parts := ps |}.

Definition candidateSummaries (h : heap) (response : value)
  : result (list candidateSummary) :=
  optionalMap h (prop h response "candidates") (summariseCandidate h).

(** Line 160. *)
Definition candidateCount (h : heap) (response : value) : value :=
  let candidates := prop h response "candidates" in
  if truthy candidates then lengthOf h candidates else VNumber 0.

(** ** [JSON.stringify] of the summary (line 175) *)

(** [JSON.stringify] keeps the objects it is inside of on a stack and raises
    a [TypeError] when it meets one of them again.  [circularFuel] walks the
    structure below [v] as it does, array elements and property values in
    order, with the locations on the way down in [stack]. *)
Fixpoint circularFuel (h : heap) (fuel : nat) (stack : list loc) (v : value)
  : bool :=
  match v with
  | VRef l =>
      if existsb (Nat.eqb l) stack then true
      else
        match fuel with
        | O => true
        | S fuel' => existsb (circularFuel h fuel' (l :: stack)) (children h v)
        end
  | _ => false
  end.

(** One more level than the heap has cells is always enough
    ([circularFuel_enough] below): the locations on the stack are distinct
    cells of the heap. *)
Definition circular (h : heap) (v : value) : bool :=
  circularFuel h (S (List.length h)) [] v.

(** The values of the response that the summary holds as they are. *)
Definition summaryValues (summaries : list candidateSummary) : list value :=
  flat_map (fun cs =>
              partsCount cs
              :: flat_map (fun ps => [mimeType ps; dataLength ps]) (parts cs))
           summaries.

(** [JSON.stringify({ topKeys, candidateSummaries }, null, 2)]: the text is
    only printed; the call raises when a value of the summary is circular. *)
Definition JSON_stringify (h : heap) (summaries : list candidateSummary)
  : result unit :=
  if existsb (circular h) (summaryValues summaries) then Throw TypeError
  else Ok tt.

(** ** Console output and file writes *)

(** One constructor per console call of the file, with the values it
    prints. *)
Inductive message :=
| MsgGenerating (count : nat)                                   (* line 45 *)
| MsgProcessing (number total : nat) (prompt : option string)   (* line 57 *)
| MsgSaved (filePath : string)                                  (* line 150 *)
| MsgConvertError (e : error)                                   (* line 153 *)
| MsgSharpLoadError (e : error)                                 (* line 156 *)
| MsgNoImage (prompt : string) (candidates : value)             (* line 174 *)
| MsgResponseSummary (topKeys : list string)
    (summaries : list candidateSummary)                         (* line 175 *)
| MsgHint                                                       (* line 178 *)
| MsgGenerateError (prompt : string) (e : error)                (* line 182 *)
| MsgFinished.                                                  (* line 185 *)

Inductive event :=
| Console (lvl : level) (msg : message)
| FileWritten (filePath : string) (data : buffer).

(** [Object.keys(response || {}).slice(0, 20)] on the object the API
    returns. *)
Definition topKeys (h : heap) (response : value) : list string :=
  match response with
  | VRef l =>
      match deref h l with
      | CObject props => firstn 20 (keys props)
      | CArray items =>
          firstn 20 (map (fun k => decimal (N.of_nat k)) (seq 0 (List.length items)))
      end
  | VString text =>
      firstn 20 (map (fun k => decimal (N.of_nat k)) (seq 0 (String.length text)))
  | _ => []
  end.

(** ** One entry (lines 51-183) *)

(** Line 57, the line that opens the turn of an entry. *)
Definition openingLine (total i : nat) (e : entry) : event :=
  Console LLog (MsgProcessing (i + 1) total (promptPropertyOf e)).

(** The promise chain of lines 116-157, started for an entry and not
    awaited: it runs after the loop has moved on. *)
Record task := {
  taskIndex : nat;
  taskFilename : option string;
  taskBuffer : buffer
}.

(** Lines 60-179, the body of [try]. *)
Definition tryBody (w : World) (i : nat) (prompt : string)
    (requestedFilename : option string) : M event (option task) :=
  let fullPrompt := fullPromptOf prompt in
  answer <~ lift (generateContent w i MODEL_NAME fullPrompt) ;;
  let h := fst answer in
  let response := snd answer in
  imagePart <~ lift (locateImagePart h response) ;;
  if truthy imagePart && truthy (prop h imagePart "inlineData") then
    let base64Data := prop h (prop h imagePart "inlineData") "data" in
    imgBuffer <~ lift (Buffer_from w i h base64Data) ;;
    ret (Some {| taskIndex := i;
                 taskFilename := requestedFilename;
                 taskBuffer := imgBuffer |})
  else
    let count := candidateCount h response in
    summaries <~ lift (candidateSummaries h response) ;;
    emit (Console LWarn (MsgNoImage prompt count)) ;;;
    lift (JSON_stringify h summaries) ;;;
    emit (Console LDebug (MsgResponseSummary (topKeys h response) summaries)) ;;;
    emit (Console LInfo MsgHint) ;;;
    ret None.

(** Lines 51-183, one turn of the loop. *)
Definition processEntry (w : World) (total i : nat) (e : entry)
  : M event (option task) :=
  let basePrompt := basePromptOf e in
  let requestedFilename := requestedFilenameOf e in
  let prompt := styledPrompt basePrompt in
  emit (openingLine total i e) ;;;
  tryCatch (tryBody w i prompt requestedFilename)
    (fun error =>
       lift (readMessage error) ;;;
       emit (Console LError (MsgGenerateError prompt error)) ;;;
       ret None).

(** Lines 128-151, the callback of the inner [then]. *)
Definition saveJpeg (w : World) (t : task) (jpegBuffer : buffer)
  : M event unit :=
  let i := taskIndex t in
  let fileName := resolveFileName (taskFilename t) i (Date_now w i) in
  let filePath := path_join w (OUTPUT_DIR w) fileName in
  lift (fs_writeFileSync w i filePath jpegBuffer) ;;;
  emit (FileWritten filePath jpegBuffer) ;;;
  emit (Console LLog (MsgSaved filePath)).

(** Lines 119-154: [sharp(..)...toBuffer().then(..).catch(..)].  The chain
    is not returned to the outer [then]: what it rejects with reaches the
    [catch] of line 152 only. *)
Definition convertAndSave (w : World) (t : task) : M event unit :=
  let i := taskIndex t in
  tryCatch
    (jpegBuffer <~ lift (sharp_toBuffer w i (taskBuffer t)
                           TARGET_WIDTH TARGET_HEIGHT LIGHT_BG 90) ;;
     saveJpeg w t jpegBuffer)
    (fun err =>
       lift (readMessage err) ;;;
       emit (Console LError (MsgConvertError err))).

(** Lines 116-126 and 155-157: [import('sharp').then(..).catch(..)] up to
    the start of the inner chain.  A rejected import and a throw while the
    pipeline is built reach the [catch] of line 155; the result tells
    whether the inner chain was started. *)
Definition loadAndBuild (w : World) (t : task) : M event bool :=
  let i := taskIndex t in
  tryCatch
    (lift (import_sharp w i) ;;;
     lift (sharp_pipeline w i (taskBuffer t)
             TARGET_WIDTH TARGET_HEIGHT LIGHT_BG 90) ;;;
     ret true)
    (fun err =>
       lift (readMessage err) ;;;
       emit (Console LError (MsgSharpLoadError err)) ;;;
       ret false).

(** Lines 116-157, what the detached chain of an entry does when it runs.
    The inner chain is started inside the callback of the outer [then] and
    not returned: the outer [catch] does not see what it does.  A [Throw] is
    an exception of a [catch] callback, which nothing handles: an unhandled
    rejection. *)
Definition runTask (w : World) (t : task) : M event unit :=
  built <~ loadAndBuild w t ;;
  if built : bool then convertAndSave w t else ret tt.

(** ** The loop and the whole function *)

Definition consTask (t : option task) (ts : list task) : list task :=
  match t with
  | Some x => x :: ts
  | None => ts
  end.

(** Lines 50-184: [for (let i = ...; i < IMAGE_PROMPTS.length; i++)], from
    index [i] over the entries that are left. *)
Fixpoint loopFrom (w : World) (total i : nat) (entries : list entry)
  : M event (list task) :=
  match entries with
  | [] => ret []
  | e :: rest =>
      t <~ processEntry w total i e ;;
      ts <~ loopFrom w total (S i) rest ;;
      ret (consTask t ts)
  end.

(** Lines 50-185: the loop and the completion message. *)
Definition loopAndFinish (w : World) (prompts : list entry)
  : M event (list task) :=
  ts <~ loopFrom w (List.length prompts) 0 prompts ;;
  emit (Console LLog MsgFinished) ;;;
  ret ts.

(** Lines 38-43: the client and the output directory. *)
Definition setUp (w : World) : M event unit :=
  lift (new_GoogleGenAI w) ;;;
  (if negb (fs_existsSync w (OUTPUT_DIR w))
   then lift (fs_mkdirSync w (OUTPUT_DIR w))
   else ret tt).

(** Lines 36-186. *)
Definition generateAndSaveImages (w : World) (prompts : list entry)
  : M event (list task) :=
  setUp w ;;;
  emit (Console LLog (MsgGenerating (List.length prompts))) ;;;
  loopAndFinish w prompts.

(** The detached chains the loop has started, from index [i] on, when it
    ends or an exception leaves it. *)
Fixpoint startedFrom (w : World) (total i : nat) (entries : list entry)
  : list task :=
  match entries with
  | [] => []
  | e :: rest =>
      match outcome (processEntry w total i e) with
      | Ok t => consTask t (startedFrom w total (S i) rest)
      | Throw _ => []
      end
  end.

(** The detached chains a call of [generateAndSaveImages] has started when
    it returns or rejects. *)
Definition startedChains (w : World) (prompts : list entry) : list task :=
  match outcome (setUp w) with
  | Ok _ => startedFrom w (List.length prompts) 0 prompts
  | Throw _ => []
  end.

(** Everything an entry causes: what its turn of the loop prints, then what
    its detached chain does. *)
Definition entryEvents (w : World) (total i : nat) (e : entry) : list event :=
  let run := processEntry w total i e in
  (events run ++
   match outcome run with
   | Ok (Some t) => events (runTask w t)
   | _ => []
   end)%list.


(** The extraction of an entry failed: the API answered and neither the
    expected location nor the structural search gave an image part. *)
Definition extractionFailed (w : World) (i : nat) (e : entry) : bool :=
  match generateContent w i MODEL_NAME (fullPromptOf (styledPrompt (basePromptOf e))) with
  | Ok (h, response) =>
      match locateImagePart h response with
      | Ok imagePart => negb (truthy imagePart)
      | Throw _ => false
      end
  | Throw _ => false
  end.

Definition isFileWritten (ev : event) : bool :=
  match ev with
  | FileWritten _ _ => true
  | Console _ _ => false
  end.

(** A failure diagnostic: a [console.warn] or a [console.error]. *)
Definition isDiagnostic (ev : event) : bool :=
  match ev with
  | Console LWarn _ | Console LError _ => true
  | _ => false
  end.

Definition isWarning (ev : event) : bool :=
  match ev with
  | Console LWarn _ => true
  | _ => false
  end.

(** The line that opens the turn of an entry (line 57). *)
Definition isProcessing (ev : event) : bool :=
  match ev with
  | Console LLog (MsgProcessing _ _ _) => true
  | _ => false
  end.

Definition filesWritten (evs : list event) : nat :=
  List.length (filter isFileWritten evs).

Definition diagnostics (evs : list event) : nat :=
  List.length (filter isDiagnostic evs).

Definition warnings (evs : list event) : nat :=
  List.length (filter isWarning evs).

(** None of the collaborators called for the entry at index [i] raises
    [null] or [undefined]. *)
Definition politeAt (w : World) (i : nat) : Prop :=
  (forall model prompt,
      raisesErrorsOnly (generateContent w i model prompt) = true) /\
  (forall h v, raisesErrorsOnly (Buffer_from w i h v) = true) /\
  raisesErrorsOnly (import_sharp w i) = true /\
  (forall b width height background quality,
      raisesErrorsOnly (sharp_pipeline w i b width height background quality)
      = true) /\
  (forall b width height background quality,
      raisesErrorsOnly (sharp_toBuffer w i b width height background quality)
      = true) /\
  (forall filePath b, raisesErrorsOnly (fs_writeFileSync w i filePath b) = true).

Definition polite (w : World) : Prop := forall i, politeAt w i.

(** The summary of the answer to an entry, where one is built, can be
    serialised: [JSON.stringify] does not raise on it. *)
Definition summarySerialises (w : World) (i : nat) (e : entry) : bool :=
  match generateContent w i MODEL_NAME (fullPromptOf (styledPrompt (basePromptOf e))) with
  | Ok (h, response) =>
      match candidateSummaries h response with
      | Ok summaries => negb (existsb (circular h) (summaryValues summaries))
      | Throw _ => true
      end
  | Throw _ => true
  end.

(** The payload of the entry is extracted and decoded into [imgBuffer]: the
    API answers, an image part is located in the answer and [Buffer.from]
    returns. *)
Definition decoded (w : World) (i : nat) (e : entry) (imgBuffer : buffer)
  : Prop :=
  exists h response imagePart,
    generateContent w i MODEL_NAME (fullPromptOf (styledPrompt (basePromptOf e)))
    = Ok (h, response) /\
    locateImagePart h response = Ok imagePart /\
    truthy imagePart = true /\
    Buffer_from w i h (prop h (prop h imagePart "inlineData") "data")
    = Ok imgBuffer.

(** The detached chain of [imgBuffer] goes through: sharp is loaded, the
    pipeline is built, the conversion gives [jpegBuffer] and the write to
    [filePath] returns. *)
Definition converted (w : World) (i : nat) (imgBuffer : buffer)
    (filePath : string) (jpegBuffer : buffer) : Prop :=
  import_sharp w i = Ok tt /\
  sharp_pipeline w i imgBuffer TARGET_WIDTH TARGET_HEIGHT LIGHT_BG 90 = Ok tt /\
  sharp_toBuffer w i imgBuffer TARGET_WIDTH TARGET_HEIGHT LIGHT_BG 90
  = Ok jpegBuffer /\
  fs_writeFileSync w i filePath jpegBuffer = Ok tt.


(** The entries with their indices, as the loop meets them. *)
Definition indexed (prompts : list entry) : list (nat * entry) :=
  combine (seq 0 (List.length prompts)) prompts.

(** What the turns of the loop print, entry after entry. *)
Definition turnEvents (w : World) (total : nat) (ies : list (nat * entry))
  : list event :=
  flat_map (fun ie => events (processEntry w total (fst ie) (snd ie))) ies.

(** The detached chains the turns of the loop start, entry after entry. *)
Definition startedTasks (w : World) (total : nat) (ies : list (nat * entry))
  : list task :=
  flat_map (fun ie =>
              match outcome (processEntry w total (fst ie) (snd ie)) with
              | Ok (Some t) => [t]
              | _ => []
              end) ies.

End Generate.

(* ================================================================== *)
(** * The credential inspector ([src/check-creds.js]) *)
(* ================================================================== *)

Module CheckCreds.

(** [process.env]: a variable is a string or is not set. *)
Record Env := {
  GOOGLE_APPLICATION_CREDENTIALS : option string;
  GEMINI_API_KEY : option string;
  SERIAL : option string
}.

Record World := {
  env : Env;
  fs_readFileSync : string -> string -> result string;
  JSON_parse : string -> result (heap * value)
}.

(** An argument of a console call: a string, a value of the parsed file, or
    the [message] of a caught exception. *)
Inductive arg :=
| AStr (s : string)
| AValue (h : heap) (v : value)
| AMessage (e : error).

(** What the script does to the outside, in order: a console line, or the
    call that reads the file, or the call that parses its text. *)
Inductive event :=
| Console (lvl : level) (args : list arg)
| ReadFile (path : string)
| ParseJson (raw : string).

(** [x || fallback] on an environment variable. *)
Definition orElse (x : option string) (fallback : string) : string :=
  match truthyFilename x with
  | Some s => s
  | None => fallback
  end.

(** [v || '(not found)'] on a property of the parsed file. *)
Definition orNotFound (h : heap) (v : value) : arg :=
  if truthy v then AValue h v else AStr "(not found)".

(** Lines 3-7. *)
Definition environmentSummary (e : Env) : list event :=
  [ Console LLog [AStr "--- Environment variables ---"];
    Console LLog [AStr "GOOGLE_APPLICATION_CREDENTIALS =";
                  AStr (orElse (GOOGLE_APPLICATION_CREDENTIALS e) "(not set)")];
    Console LLog [AStr "GEMINI_API_KEY present =";
                  AStr (match truthyFilename (GEMINI_API_KEY e) with
                        | Some _ => "YES"
                        | None => "NO"
                        end)];
    Console LLog [AStr "SERIAL =";
                  AStr (orElse (SERIAL e) "(not set)")];
    Console LLog [AStr ""] ].

(** Lines 12-17, the body of [try]. *)
Definition readAndSummarise (w : World) (gac : string) : M event unit :=
  emit (ReadFile gac) ;;;
  raw <~ lift (fs_readFileSync w gac "utf8") ;;
  emit (ParseJson raw) ;;;
  parsed <~ lift (JSON_parse w raw) ;;
  let h := fst parsed in
  let j := snd parsed in
  emit (Console LLog [AStr "--- Service account JSON summary ---"]) ;;;
  project_id <~ lift (getProp h j "project_id") ;;
  emit (Console LLog [AStr "project_id:"; orNotFound h project_id]) ;;;
  client_email <~ lift (getProp h j "client_email") ;;
  emit (Console LLog [AStr "client_email:"; orNotFound h client_email]) ;;;
  type <~ lift (getProp h j "type") ;;
  emit (Console LLog [AStr "type:"; orNotFound h type]).

(** Lines 18-20, the handler. *)
Definition reportFailure (err : error) : M event unit :=
  lift (readMessage err) ;;;
  emit (Console LError
          [AStr "Could not read/parse GOOGLE_APPLICATION_CREDENTIALS file:";
           AMessage err]).

(** Lines 9-23. *)
Definition inspectFile (w : World) : M event unit :=
  match truthyFilename (GOOGLE_APPLICATION_CREDENTIALS (env w)) with
  | Some gac => tryCatch (readAndSummarise w gac) reportFailure
  | None =>
      emit (Console LLog
              [AStr "No GOOGLE_APPLICATION_CREDENTIALS file set; Node will use other ADC sources if available (gcloud, metadata, etc.)"])
  end.

(** Lines 25-29. *)
Definition usageHint : list event :=
  [ Console LLog [AStr ""];
    Console LLog [AStr "You can set GOOGLE_APPLICATION_CREDENTIALS in PowerShell like:"];
    Console LLog [AStr ("$env:GOOGLE_APPLICATION_CREDENTIALS = " ++ dquote
                        ++ "C:\path\to\service-account.json" ++ dquote)];
    Console LLog [AStr "Or set it in cmd.exe:"];
    Console LLog [AStr "set GOOGLE_APPLICATION_CREDENTIALS=C:\path\to\service-account.json"] ].

Fixpoint emitAll (evs : list event) : M event unit :=
  match evs with
  | [] => ret tt
  | ev :: rest => emit ev ;;; emitAll rest
  end.

(** The whole script. *)
Definition main (w : World) : M event unit :=
  emitAll (environmentSummary (env w)) ;;;
  inspectFile w ;;;
  emitAll usageHint.

(** [fs.readFileSync] and [JSON.parse] are built-ins and raise [Error]
    objects, never [null] or [undefined]. *)
Definition builtinsRaiseErrors (w : World) : Prop :=
  (forall path encoding,
      raisesErrorsOnly (fs_readFileSync w path encoding) = true) /\
  (forall raw, raisesErrorsOnly (JSON_parse w raw) = true).

(** A line on [console.error]. *)
Definition isErrorLine (ev : event) : bool :=
  match ev with
  | Console LError _ => true
  | _ => false
  end.

(** A call that reads or parses the credentials file. *)
Definition isFileAccess (ev : event) : bool :=
  match ev with
  | ReadFile _ | ParseJson _ => true
  | Console _ _ => false
  end.

End CheckCreds.

(* ================================================================== *)
(** * The generator with a run identifier ([src/unnamed/part_000]) *)
(* ================================================================== *)

Module GenerateSerialLoop.

(** Lines 34 and 51. *)
Definition MODEL_NAME : string := "gemini-2.5-flash-image".
Definition ENFORCED_STYLE : string := "Retro Comic Book Illustration".

(** Lines 21-32. *)
Definition IMAGE_PROMPTS : list Generate.entry :=
  [Generate.EntryObject "Una regla para medir" (Some "regla.jpg")].

(** Line 59. *)
Definition styledPrompt (basePrompt : string) : string :=
  basePrompt ++ " -- Estilo: " ++ dquote ++ ENFORCED_STYLE ++ dquote.

(** Line 75: [(part) => part.inlineData?.mimeType.startsWith('image/')].
    Only [inlineData] is guarded: a media type that is absent raises like
    one that is no string. *)
Definition partIsImage (h : heap) (part : value) : result bool :=
  inlineData <- getProp h part "inlineData" ;;
  if nullish inlineData then Ok false
  else match prop h inlineData "mimeType" with
       | VString s => Ok (JsString.startsWith s "image/")
       | _ => Throw TypeError
       end.

(** Lines 74-76: [response.candidates[0]?.content.parts.find(..)].  Only the
    first candidate is guarded: without it the chain gives [undefined];
    [candidates], [content] and [parts] are read with a plain dot. *)
Definition directImagePart (h : heap) (response : value) : result value :=
  candidates <- getProp h response "candidates" ;;
  if nullish candidates then Throw TypeError
  else
    let first := elementZero h candidates in
    if nullish first then Ok VUndefined
    else
      parts <- getProp h (prop h first "content") "parts" ;;
      if nullish parts then Throw TypeError
      else match asArray h parts with
           | Some items => arrayFind (partIsImage h) items
           | None => Throw TypeError
           end.

(** The collaborators outside the repository, as for [src/generate.js];
    sharp is used without resizing ([sharp(imgBuffer).jpeg({quality})]), and
    the environment is read for [SERIAL] and [GEMINI_API_KEY]. *)
Record World := {
  env_SERIAL : option string;
  env_GEMINI_API_KEY : option string;
  generateContent : nat -> string -> string -> result (heap * value);
  Buffer_from : nat -> heap -> value -> result buffer;
  import_sharp : nat -> result unit;
  sharp_jpeg : nat -> buffer -> N -> result unit;
  sharp_toBuffer : nat -> buffer -> N -> result buffer;
  Date_now : nat -> N;
  path_join : string -> string -> string;
  process_cwd : string;
  fs_writeFileSync : nat -> string -> buffer -> result unit;
  fs_existsSync : string -> bool;
  fs_mkdirSync : string -> result unit;
  new_GoogleGenAI : result unit
}.

(** Line 9: [process.env.SERIAL || '']. *)
Definition SERIAL (w : World) : string :=
  match truthyFilename (env_SERIAL w) with
  | Some s => s
  | None => ""
  end.

(** Line 33. *)
Definition OUTPUT_DIR (w : World) : string :=
  path_join w (process_cwd w) "images".

Inductive message :=
| MsgKeyFound                                                   (* line 14 *)
| MsgGenerating (count : nat)                                   (* line 48 *)
| MsgProcessing (number total : nat) (prompt : string)          (* line 60 *)
| MsgSaved (filePath : string)                                  (* line 117 *)
| MsgConvertError (e : error)                                   (* line 120 *)
| MsgSharpLoadError (e : error)                                 (* line 123 *)
| MsgNoImage (prompt : string)                                  (* line 126 *)
| MsgGenerateError (prompt : string) (e : error)                (* line 130 *)
| MsgFinished.                                                  (* line 133 *)

(** A console line, a file write, or the assignment of line 16 to
    [process.env.GOOGLE_API_KEY]. *)
Inductive event :=
| Console (lvl : level) (msg : message)
| FileWritten (filePath : string) (data : buffer)
| SetGoogleApiKey (key : string).

(** Lines 11-17, run when the module is loaded. *)
Definition moduleInit (w : World) : M event unit :=
  match truthyFilename (env_GEMINI_API_KEY w) with
  | Some key =>
      emit (Console LLog MsgKeyFound) ;;;
      emit (SetGoogleApiKey key)
  | None => ret tt
  end.

Record task := {
  taskIndex : nat;
  taskFilename : option string;
  taskBuffer : buffer
}.

(** Line 60. *)
Definition openingLine (total i : nat) (e : Generate.entry) : event :=
  Console LLog
    (MsgProcessing (i + 1) total (styledPrompt (Generate.basePromptOf e))).

(** Lines 63-127, the body of [try]. *)
Definition tryBody (w : World) (i : nat) (prompt : string)
    (requestedFilename : option string) : M event (option task) :=
  answer <~ lift (generateContent w i MODEL_NAME prompt) ;;
  let h := fst answer in
  let response := snd answer in
  imagePart <~ lift (directImagePart h response) ;;
  if truthy imagePart && truthy (prop h imagePart "inlineData") then
    let base64Data := prop h (prop h imagePart "inlineData") "data" in
    imgBuffer <~ lift (Buffer_from w i h base64Data) ;;
    ret (Some {| taskIndex := i;
                 taskFilename := requestedFilename;
                 taskBuffer := imgBuffer |})
  else
    emit (Console LWarn (MsgNoImage prompt)) ;;;
    ret None.

(** Lines 54-131, one turn of the loop. *)
Definition processEntry (w : World) (total i : nat) (e : Generate.entry)
  : M event (option task) :=
  let basePrompt := Generate.basePromptOf e in
  let requestedFilename := Generate.requestedFilenameOf e in
  let prompt := styledPrompt basePrompt in
  emit (openingLine total i e) ;;;
  tryCatch (tryBody w i prompt requestedFilename)
    (fun error =>
       lift (readMessage error) ;;;
       emit (Console LError (MsgGenerateError prompt error)) ;;;
       ret None).

(** Lines 91-118, the callback of the inner [then]. *)
Definition saveJpeg (w : World) (t : task) (jpegBuffer : buffer)
  : M event unit :=
  let i := taskIndex t in
  let fileName :=
    GenerateSerial.resolveFileName (SERIAL w) (taskFilename t) i (Date_now w i) in
  let filePath := path_join w (OUTPUT_DIR w) fileName in
  lift (fs_writeFileSync w i filePath jpegBuffer) ;;;
  emit (FileWritten filePath jpegBuffer) ;;;
  emit (Console LLog (MsgSaved filePath)).

(** Lines 88-121. *)
Definition convertAndSave (w : World) (t : task) : M event unit :=
  let i := taskIndex t in
  tryCatch
    (jpegBuffer <~ lift (sharp_toBuffer w i (taskBuffer t) 90) ;;
     saveJpeg w t jpegBuffer)
    (fun err =>
       lift (readMessage err) ;;;
       emit (Console LError (MsgConvertError err))).

(** Lines 85-90 and 122-124, up to the start of the inner chain. *)
Definition loadAndBuild (w : World) (t : task) : M event bool :=
  let i := taskIndex t in
  tryCatch
    (lift (import_sharp w i) ;;;
     lift (sharp_jpeg w i (taskBuffer t) 90) ;;;
     ret true)
    (fun err =>
       lift (readMessage err) ;;;
       emit (Console LError (MsgSharpLoadError err)) ;;;
       ret false).

(** Lines 85-124, the detached chain of an entry; a [Throw] is an unhandled
    rejection. *)
Definition runTask (w : World) (t : task) : M event unit :=
  built <~ loadAndBuild w t ;;
  if built : bool then convertAndSave w t else ret tt.

Definition consTask (t : option task) (ts : list task) : list task :=
  match t with
  | Some x => x :: ts
  | None => ts
  end.

(** Lines 53-132. *)
Fixpoint loopFrom (w : World) (total i : nat) (entries : list Generate.entry)
  : M event (list task) :=
  match entries with
  | [] => ret []
  | e :: rest =>
      t <~ processEntry w total i e ;;
      ts <~ loopFrom w total (S i) rest ;;
      ret (consTask t ts)
  end.

(** Lines 41-46: the client and the output directory. *)
Definition setUp (w : World) : M event unit :=
  lift (new_GoogleGenAI w) ;;;
  (if negb (fs_existsSync w (OUTPUT_DIR w))
   then lift (fs_mkdirSync w (OUTPUT_DIR w))
   else ret tt).

(** Lines 39-134. *)
Definition generateAndSaveImages (w : World) (prompts : list Generate.entry)
  : M event (list task) :=
  setUp w ;;;
  emit (Console LLog (MsgGenerating (List.length prompts))) ;;;
  ts <~ loopFrom w (List.length prompts) 0 prompts ;;
  emit (Console LLog MsgFinished) ;;;
  ret ts.

(** The detached chains the loop has started, from index [i] on, when it
    ends or an exception leaves it. *)
Fixpoint startedFrom (w : World) (total i : nat) (entries : list Generate.entry)
  : list task :=
  match entries with
  | [] => []
  | e :: rest =>
      match outcome (processEntry w total i e) with
      | Ok t => consTask t (startedFrom w total (S i) rest)
      | Throw _ => []
      end
  end.

(** The detached chains a run has started when the call of line 136 returns
    or rejects. *)
Definition startedChains (w : World) (prompts : list Generate.entry)
  : list task :=
  match outcome (setUp w) with
  | Ok _ => startedFrom w (List.length prompts) 0 prompts
  | Throw _ => []
  end.

(** The file as a whole: the top-level statements, then the call of line
    136. *)
Definition main (w : World) (prompts : list Generate.entry)
  : M event (list task) :=
  moduleInit w ;;;
  generateAndSaveImages w prompts.

(** The detached chains run, one after the other in any order; what they do
    does not depend on it. *)
Definition runTasks (w : World) (ts : list task) : list event :=
  flat_map (fun t => events (runTask w t)) ts.

(** Everything a run can do: the main line, then the detached chains it has
    started.  When the call of line 136 rejects, or a chain ends by an
    unhandled rejection, Node ends the process at a moment that depends on
    the timing of the chains; what is kept here is what the main line did and
    what the chains do when they are given the time: what a real run does is
    part of it. *)
Definition allEvents (w : World) (prompts : list Generate.entry) : list event :=
  (events (main w prompts) ++ runTasks w (startedChains w prompts))%list.

Definition isFileWritten (ev : event) : bool :=
  match ev with
  | FileWritten _ _ => true
  | _ => false
  end.

Definition isDiagnostic (ev : event) : bool :=
  match ev with
  | Console LWarn _ | Console LError _ => true
  | _ => false
  end.

Definition filesWritten (evs : list event) : nat :=
  List.length (filter isFileWritten evs).

Definition diagnostics (evs : list event) : nat :=
  List.length (filter isDiagnostic evs).

(** None of the collaborators called for the entry at index [i] raises
    [null] or [undefined]. *)
Definition politeAt (w : World) (i : nat) : Prop :=
  (forall model prompt,
      raisesErrorsOnly (generateContent w i model prompt) = true) /\
  (forall h v, raisesErrorsOnly (Buffer_from w i h v) = true) /\
  raisesErrorsOnly (import_sharp w i) = true /\
  (forall b quality, raisesErrorsOnly (sharp_jpeg w i b quality) = true) /\
  (forall b quality, raisesErrorsOnly (sharp_toBuffer w i b quality) = true) /\
  (forall filePath b, raisesErrorsOnly (fs_writeFileSync w i filePath b) = true).

Definition polite (w : World) : Prop := forall i, politeAt w i.

(** What the turns of the loop print, entry after entry. *)
Definition turnEvents (w : World) (total : nat)
    (ies : list (nat * Generate.entry)) : list event :=
  flat_map (fun ie => events (processEntry w total (fst ie) (snd ie))) ies.

(** The detached chains the turns of the loop start, entry after entry. *)
Definition startedTasks (w : World) (total : nat)
    (ies : list (nat * Generate.entry)) : list task :=
  flat_map (fun ie =>
              match outcome (processEntry w total (fst ie) (snd ie)) with
              | Ok (Some t) => [t]
              | _ => []
              end) ies.

(** Files written plus failure diagnostics logged. *)
Definition settled (evs : list event) : nat :=
  filesWritten evs + diagnostics evs.

(** The name of a written file, without the directory: the second argument
    of [path.join] at line 114. *)
Definition resolvedName (w : World) (t : task) : string :=
  GenerateSerial.resolveFileName (SERIAL w) (taskFilename t) (taskIndex t)
    (Date_now w (taskIndex t)).

End GenerateSerialLoop.

(* ================================================================== *)
(** * The whole run of [src/generate.js] *)
(* ================================================================== *)

Module GenerateRun.

Import Generate.

(** The detached chains run. *)
Definition runTasks (w : World) (ts : list task) : list event :=
  flat_map (fun t => events (runTask w t)) ts.

(** Everything a call of [generateAndSaveImages] can do: the main line,
    then the detached chains it has started.  When the call rejects, or a
    chain ends by an unhandled rejection, Node ends the process at a moment
    that depends on the timing of the chains; what is kept here is what the
    main line did and what the chains do when they are given the time: what
    a real run does is part of it. *)
Definition allEvents (w : World) (prompts : list entry) : list event :=
  (events (generateAndSaveImages w prompts)
   ++ runTasks w (startedChains w prompts))%list.

(** Files written plus failure diagnostics logged. *)
Definition settled (evs : list event) : nat :=
  filesWritten evs + diagnostics evs.

End GenerateRun.

(* ================================================================== *)
(** * Vocabulary for the properties of names *)
(* ================================================================== *)

(** The placeholder of lines 133-134 (98-99). *)
Definition placeholder : string := "{timestamp}".

(** [c] occurs in [s]. *)
Fixpoint hasChar (c : ascii) (s : string) : bool :=
  match s with
  | EmptyString => false
  | String x rest => Ascii.eqb x c || hasChar c rest
  end.

Definition isDigit (c : ascii) : bool :=
  let n := nat_of_ascii c in (48 <=? n)%nat && (n <=? 57)%nat.

Fixpoint allDigits (s : string) : bool :=
  match s with
  | EmptyString => true
  | String c rest => isDigit c && allDigits rest
  end.

Fixpoint noDigits (s : string) : bool :=
  match s with
  | EmptyString => true
  | String c rest => negb (isDigit c) && noDigits rest
  end.

(** The line of [check-creds.js], line 19, for the exception [err]. *)
Definition reportLine (err : error) : CheckCreds.event :=
  CheckCreds.Console LError
    [CheckCreds.AStr "Could not read/parse GOOGLE_APPLICATION_CREDENTIALS file:";
     CheckCreds.AMessage err].

(** The line of [check-creds.js], line 14. *)
Definition headerLine : CheckCreds.event :=
  CheckCreds.Console LLog [CheckCreds.AStr "--- Service account JSON summary ---"].

(** The line of [check-creds.js], line 22. *)
Definition noFileLine : CheckCreds.event :=
  CheckCreds.Console LLog
    [CheckCreds.AStr
       "No GOOGLE_APPLICATION_CREDENTIALS file set; Node will use other ADC sources if available (gcloud, metadata, etc.)"].

(** [v] is an object that is no array. *)
Definition isPlainObject (h : heap) (v : value) : bool :=
  match v with
  | VRef l => match deref h l with CObject _ => true | CArray _ => false end
  | _ => false
  end.

(** A call of [fs.readFileSync]. *)
Definition isRead (ev : CheckCreds.event) : bool :=
  match ev with
  | CheckCreds.ReadFile _ => true
  | _ => false
  end.

(** A call of [JSON.parse]. *)
Definition isParse (ev : CheckCreds.event) : bool :=
  match ev with
  | CheckCreds.ParseJson _ => true
  | _ => false
  end.

Definition count {A : Type} (p : A -> bool) (l : list A) : nat :=
  List.length (filter p l).

(** No text preview of a candidate summary is longer than 120
    characters. *)
Definition previewsBounded (cs : Generate.candidateSummary) : Prop :=
  Forall (fun ps => forall t, Generate.textPreview ps = Some t ->
                              String.length t <= 120)
         (Generate.parts cs).

(* ================================================================== *)
(** * Sample responses *)
(* ================================================================== *)

Module Samples.

(** An image part and its [inlineData], stored at [l] and [l + 1]. *)
Definition imagePartCells (l : loc) : list cell :=
  [ CObject [("inlineData", VRef (l + 1))];
    CObject [("mimeType", VString "image/png"); ("data", VString "aGk=")] ].

(** [wrappers l n]: [n] objects stored from [l] on, each holding the next
    one under the key [next]. *)
Fixpoint wrappers (l : loc) (n : nat) : list cell :=
  match n with
  | O => []
  | S n' => CObject [("next", VRef (l + 1))] :: wrappers (l + 1) n'
  end.

(** A response (at location 0) whose only image part lies [n] levels down,
    below [n] wrapper objects; the part is at location [n]. *)
Definition nestedResponse (n : nat) : heap :=
  (wrappers 0 n ++ imagePartCells n)%list.

(** An object that holds itself: [o = {}; o.self = o]. *)
Definition cyclicResponse : heap := [CObject [("self", VRef 0)]].

(** The expected shape:
    [{candidates: [{content: {parts: [{text: "hi"}, <image>, <image>]}}]}],
    the image parts at locations 5 and 7. *)
Definition expectedResponse : heap :=
  ([ CObject [("candidates", VRef 1)];
     CArray [VRef 2];
     CObject [("content", VRef 3)];
     CObject [("parts", VRef 4)];
     CArray [VRef 9; VRef 5; VRef 7] ]
   ++ imagePartCells 5 ++ imagePartCells 7
   ++ [CObject [("text", VString "hi")]])%list.

(** A drifted shape: [{candidates: [], output: {images: [<image>]}}], the
    image part at location 4. *)
Definition driftedResponse : heap :=
  ([ CObject [("candidates", VRef 1); ("output", VRef 2)];
     CArray [];
     CObject [("images", VRef 3)];
     CArray [VRef 4] ]
   ++ imagePartCells 4)%list.

(** No image anywhere: [{candidates: [{content: {parts: [{text: "hi"}]}}]}]. *)
Definition textOnlyResponse : heap :=
  [ CObject [("candidates", VRef 1)];
    CArray [VRef 2];
    CObject [("content", VRef 3)];
    CObject [("parts", VRef 4)];
    CArray [VRef 5];
    CObject [("text", VString "hi")] ].

(** [parts] is an object, not an array: [find] is not a function. *)
Definition malformedResponse : heap :=
  [ CObject [("candidates", VRef 1)];
    CArray [VRef 2];
    CObject [("content", VRef 3)];
    CObject [("parts", VRef 4)];
    CObject [] ].

(** A world where every collaborator that is not an argument succeeds:
    the API gives [answer], loading sharp gives [sharp], the conversion gives
    [jpeg] and the file write gives [written]. *)
Definition world (answer : result (heap * value)) (sharp : result unit)
    (jpeg : result buffer) (written : result unit) : Generate.World :=
  {| Generate.generateContent := fun _ _ _ => answer;
     Generate.Buffer_from := fun _ _ _ => Ok [Byte.x68; Byte.x69];
     Generate.import_sharp := fun _ => sharp;
     Generate.sharp_pipeline := fun _ _ _ _ _ _ => Ok tt;
     Generate.sharp_toBuffer := fun _ _ _ _ _ _ => jpeg;
     Generate.Date_now := fun _ => 1700000000000%N;
     Generate.path_join := fun dir name => dir ++ "/" ++ name;
     Generate.process_cwd := "/work";
     Generate.fs_writeFileSync := fun _ _ _ => written;
     Generate.fs_existsSync := fun _ => true;
     Generate.fs_mkdirSync := fun _ => Ok tt;
     Generate.new_GoogleGenAI := Ok tt |}.

Definition jpegBytes : buffer := [Byte.xff; Byte.xd8; Byte.xff; Byte.xd9].

Definition rulerEntry : Generate.entry :=
  Generate.EntryObject "a ruler" (Some "ruler.png").

(** Everything works. *)
Definition happyWorld : Generate.World :=
  world (Ok (expectedResponse, VRef 0)) (Ok tt) (Ok jpegBytes) (Ok tt).

(** The image is extracted, but sharp cannot convert it. *)
Definition corruptImageWorld : Generate.World :=
  world (Ok (expectedResponse, VRef 0)) (Ok tt)
        (Throw (ExternalError "Input buffer contains unsupported image format"))
        (Ok tt).

(** The API answers without an image. *)
Definition textOnlyWorld : Generate.World :=
  world (Ok (textOnlyResponse, VRef 0)) (Ok tt) (Ok jpegBytes) (Ok tt).

(** The API call fails. *)
Definition offlineWorld : Generate.World :=
  world (Throw (ExternalError "fetch failed")) (Ok tt) (Ok jpegBytes) (Ok tt).

(** No [candidates] at all: [{output: {images: [<image>]}}], the image part
    at location 3. *)
Definition noCandidatesResponse : heap :=
  ([ CObject [("output", VRef 1)];
     CObject [("images", VRef 2)];
     CArray [VRef 3] ]
   ++ imagePartCells 3)%list.

(** Two candidates, the second with [parts] that is no array:
    [{candidates: [{content: {parts: [{text: "hi"}]}}, {content: {parts: "?"}}]}]. *)
Definition secondCandidateMalformed : heap :=
  [ CObject [("candidates", VRef 1)];
    CArray [VRef 2; VRef 6];
    CObject [("content", VRef 3)];
    CObject [("parts", VRef 4)];
    CArray [VRef 5];
    CObject [("text", VString "hi")];
    CObject [("content", VRef 7)];
    CObject [("parts", VString "?")] ].

(** One candidate whose only part is no image and holds a payload that
    refers to itself:
    [{candidates: [{content: {parts: [{inlineData: {mimeType: "text/plain",
    data: d}}]}}]}] with [d = {}; d.length = d]. *)
Definition circularResponse : heap :=
  [ CObject [("candidates", VRef 1)];
    CArray [VRef 2];
    CObject [("content", VRef 3)];
    CObject [("parts", VRef 4)];
    CArray [VRef 5];
    CObject [("inlineData", VRef 6)];
    CObject [("mimeType", VString "text/plain"); ("data", VRef 7)];
    CObject [("length", VRef 7)] ].

(** The API answers with [circularResponse]. *)
Definition circularWorld : Generate.World :=
  world (Ok (circularResponse, VRef 0)) (Ok tt) (Ok jpegBytes) (Ok tt).

(** The call of the API for the first entry rejects with [undefined]
    ([Promise.reject()]); for every other entry everything works. *)
Definition rejectionWorld : Generate.World :=
  {| Generate.generateContent :=
       fun i _ _ =>
         match i with
         | O => Throw NullishReason
         | S _ => Ok (expectedResponse, VRef 0)
         end;
     Generate.Buffer_from := fun _ _ _ => Ok [Byte.x68; Byte.x69];
     Generate.import_sharp := fun _ => Ok tt;
     Generate.sharp_pipeline := fun _ _ _ _ _ _ => Ok tt;
     Generate.sharp_toBuffer := fun _ _ _ _ _ _ => Ok jpegBytes;
     Generate.Date_now := fun _ => 1700000000000%N;
     Generate.path_join := fun dir name => dir ++ "/" ++ name;
     Generate.process_cwd := "/work";
     Generate.fs_writeFileSync := fun _ _ _ => Ok tt;
     Generate.fs_existsSync := fun _ => true;
     Generate.fs_mkdirSync := fun _ => Ok tt;
     Generate.new_GoogleGenAI := Ok tt |}.

(** A batch of two entries. *)
Definition twoEntries : list Generate.entry :=
  [rulerEntry; Generate.EntryString "a pencil"].

(** The image is extracted, and the conversion rejects with [null]. *)
Definition nullConversionWorld : Generate.World :=
  world (Ok (expectedResponse, VRef 0)) (Ok tt) (Throw NullishReason) (Ok tt).

(** The output directory is missing and cannot be made. *)
Definition readOnlyWorld : Generate.World :=
  {| Generate.generateContent := fun _ _ _ => Ok (expectedResponse, VRef 0);
     Generate.Buffer_from := fun _ _ _ => Ok [];
     Generate.import_sharp := fun _ => Ok tt;
     Generate.sharp_pipeline := fun _ _ _ _ _ _ => Ok tt;
     Generate.sharp_toBuffer := fun _ _ _ _ _ _ => Ok jpegBytes;
     Generate.Date_now := fun _ => 0%N;
     Generate.path_join := fun dir name => dir ++ "/" ++ name;
     Generate.process_cwd := "/readonly";
     Generate.fs_writeFileSync := fun _ _ _ => Ok tt;
     Generate.fs_existsSync := fun _ => false;
     Generate.fs_mkdirSync := fun _ =>
       Throw (ExternalError "EACCES: permission denied, mkdir");
     Generate.new_GoogleGenAI := Ok tt |}.

(** A world for the revision with a run identifier: [SERIAL] is "run1", the
    API key is set, the API gives [answer] and the file write gives
    [written]. *)
Definition serialWorld (answer : result (heap * value))
    (written : result unit) : GenerateSerialLoop.World :=
  {| GenerateSerialLoop.env_SERIAL := Some "run1";
     GenerateSerialLoop.env_GEMINI_API_KEY := Some "secret-key";
     GenerateSerialLoop.generateContent := fun _ _ _ => answer;
     GenerateSerialLoop.Buffer_from := fun _ _ _ => Ok [Byte.x68; Byte.x69];
     GenerateSerialLoop.import_sharp := fun _ => Ok tt;
     GenerateSerialLoop.sharp_jpeg := fun _ _ _ => Ok tt;
     GenerateSerialLoop.sharp_toBuffer := fun _ _ _ => Ok jpegBytes;
     GenerateSerialLoop.Date_now := fun _ => 1700000000000%N;
     GenerateSerialLoop.path_join := fun dir name => dir ++ "/" ++ name;
     GenerateSerialLoop.process_cwd := "/work";
     GenerateSerialLoop.fs_writeFileSync := fun _ _ _ => written;
     GenerateSerialLoop.fs_existsSync := fun _ => true;
     GenerateSerialLoop.fs_mkdirSync := fun _ => Ok tt;
     GenerateSerialLoop.new_GoogleGenAI := Ok tt |}.

(** The credentials file holds a service account without [client_email]. *)
Definition serviceAccountWorld : CheckCreds.World :=
  {| CheckCreds.env :=
       {| CheckCreds.GOOGLE_APPLICATION_CREDENTIALS := Some "sa.json";
          CheckCreds.GEMINI_API_KEY := None;
          CheckCreds.SERIAL := None |};
     CheckCreds.fs_readFileSync := fun _ _ => Ok "{...}";
     CheckCreds.JSON_parse := fun _ =>
       Ok ([CObject [("type", VString "service_account");
                     ("project_id", VString "demo");
                     ("client_email", VString "")]],
           VRef 0) |}.

(** The credentials file holds the JSON text [null]. *)
Definition nullFileWorld : CheckCreds.World :=
  {| CheckCreds.env :=
       {| CheckCreds.GOOGLE_APPLICATION_CREDENTIALS := Some "null.json";
          CheckCreds.GEMINI_API_KEY := None;
          CheckCreds.SERIAL := None |};
     CheckCreds.fs_readFileSync := fun _ _ => Ok "null";
     CheckCreds.JSON_parse := fun _ => Ok ([], VNull) |}.

(** No credentials variable; the other collaborators of the inspector are
    as in [w]. *)
Definition withoutCredentials (w : CheckCreds.World) : CheckCreds.World :=
  {| CheckCreds.env :=
       {| CheckCreds.GOOGLE_APPLICATION_CREDENTIALS := Some "";
          CheckCreds.GEMINI_API_KEY := CheckCreds.GEMINI_API_KEY (CheckCreds.env w);
          CheckCreds.SERIAL := CheckCreds.SERIAL (CheckCreds.env w) |};
     CheckCreds.fs_readFileSync := CheckCreds.fs_readFileSync w;
     CheckCreds.JSON_parse := CheckCreds.JSON_parse w |}.

(** The credentials variable names a file that cannot be read. *)
Definition missingFileWorld : CheckCreds.World :=
  {| CheckCreds.env :=
       {| CheckCreds.GOOGLE_APPLICATION_CREDENTIALS := Some "/no/such.json";
          CheckCreds.GEMINI_API_KEY := Some "secret-key";
          CheckCreds.SERIAL := None |};
     CheckCreds.fs_readFileSync := fun _ _ =>
       Throw (ExternalError "ENOENT: no such file or directory");
     CheckCreds.JSON_parse := fun _ => Ok ([], VNull) |}.

(** The credentials file is read, and its text is not JSON. *)
Definition malformedFileWorld : CheckCreds.World :=
  {| CheckCreds.env :=
       {| CheckCreds.GOOGLE_APPLICATION_CREDENTIALS := Some "creds.json";
          CheckCreds.GEMINI_API_KEY := None;
          CheckCreds.SERIAL := Some "run1" |};
     CheckCreds.fs_readFileSync := fun _ _ => Ok "{oops";
     CheckCreds.JSON_parse := fun _ =>
       Throw (ExternalError "Unexpected token o in JSON at position 1") |}.

End Samples.

(* ================================================================== *)
(** * Properties of the string primitives *)
(* ================================================================== *)

Section StringFacts.

Lemma endsWith_refl (s : string) : endsWith s s = true.
Proof.
  destruct s as [|c s]; simpl.
  - reflexivity.
  - rewrite Ascii.eqb_refl, String.eqb_refl. reflexivity.
Qed.

Lemma endsWith_app (p s suf : string) :
  endsWith s suf = true -> endsWith (p ++ s) suf = true.
Proof.
  intros Hs. induction p as [|c p IH]; simpl.
  - exact Hs.
  - rewrite IH. apply orb_true_r.
Qed.

Lemma endsWith_suffix (p suf : string) : endsWith (p ++ suf) suf = true.
Proof. apply endsWith_app, endsWith_refl. Qed.

Lemma endsWith_cons (c : ascii) (s suf : string) :
  endsWith (String c s) suf = (String c s =? suf) || endsWith s suf.
Proof. reflexivity. Qed.

Lemma endsWith_split (s suf : string) :
  endsWith s suf = true -> exists p, s = p ++ suf.
Proof.
  induction s as [|c s IH]; intros H.
  - destruct suf; [exists ""; reflexivity | discriminate].
  - rewrite endsWith_cons in H. apply orb_true_iff in H. destruct H as [H|H].
    + apply String.eqb_eq in H. exists "". simpl. exact H.
    + destruct (IH H) as [p Hp]. exists (String c p). simpl. now rewrite <- Hp.
Qed.

Lemma toLowerCase_app (a b : string) :
  toLowerCase (a ++ b) = toLowerCase a ++ toLowerCase b.
Proof.
  induction a as [|c a IH]; simpl.
  - reflexivity.
  - now rewrite IH.
Qed.

Lemma prefix_app (p s : string) : String.prefix p (p ++ s) = true.
Proof.
  induction p as [|c p IH]; simpl.
  - destruct s; reflexivity.
  - destruct (ascii_dec c c) as [_|N]; [exact IH | now elim N].
Qed.

Lemma app_assoc_string (a b c : string) : (a ++ b) ++ c = a ++ (b ++ c).
Proof.
  induction a as [|x a IH]; simpl.
  - reflexivity.
  - now rewrite IH.
Qed.

Lemma noDot_app (a b : string) : noDot (a ++ b) = noDot a && noDot b.
Proof.
  induction a as [|c a IH]; simpl.
  - reflexivity.
  - rewrite IH. now rewrite andb_assoc.
Qed.

(** A string with a dot in it is no extension tail, so the match of the
    regular expression starts at the last dot. *)
Lemma isExtensionTail_dot (stem ext : string) :
  isExtensionTail (stem ++ "." ++ ext) = false.
Proof.
  unfold isExtensionTail. rewrite noDot_app. simpl.
  rewrite andb_false_r. apply andb_false_r.
Qed.

(** The regular expression removes the last extension... *)
Lemma stripExtension_split (stem ext : string) :
  isExtensionTail ext = true -> stripExtension (stem ++ "." ++ ext) = stem.
Proof.
  intros Hext. change ("." ++ ext) with (String "." ext).
  induction stem as [|c stem IH]; simpl.
  - now rewrite Hext.
  - rewrite IH.
    change (String "." ext) with ("." ++ ext).
    rewrite isExtensionTail_dot. now rewrite andb_false_r.
Qed.

(** ...and leaves a name without an extension as it is. *)
Lemma stripExtension_none (s : string) :
  (forall stem ext, s = stem ++ "." ++ ext -> isExtensionTail ext = false) ->
  stripExtension s = s.
Proof.
  induction s as [|c s IH]; simpl; intros H.
  - reflexivity.
  - destruct (Ascii.eqb c "." && isExtensionTail s) eqn:E.
    + apply andb_true_iff in E. destruct E as [Ec Et].
      apply Ascii.eqb_eq in Ec. subst c.
      rewrite (H "" s eq_refl) in Et. discriminate.
    + rewrite IH; [reflexivity|].
      intros stem ext ->. apply (H (String c stem) ext). reflexivity.
Qed.

Lemma ensureJpgExtension_ends (fileName : string) :
  endsWith (toLowerCase (ensureJpgExtension fileName)) ".jpg" = true.
Proof.
  unfold ensureJpgExtension.
  destruct (endsWith (toLowerCase fileName) ".jpg") eqn:E; simpl.
  - exact E.
  - rewrite toLowerCase_app. apply endsWith_suffix.
Qed.

End StringFacts.

(* ================================================================== *)
(** * Filename resolution: the claims *)
(* ================================================================== *)

Lemma prependSerial_ends (SERIAL fileName : string) :
  endsWith (toLowerCase fileName) ".jpg" = true ->
  endsWith (toLowerCase (GenerateSerial.prependSerial SERIAL fileName)) ".jpg" = true.
Proof.
  intros H. unfold GenerateSerial.prependSerial.
  destruct (_ && _); [|exact H].
  rewrite !toLowerCase_app. now apply endsWith_app, endsWith_app.
Qed.

(** C5, as the specification words it, fails: the template "b.jpg.png" loses
    its last extension only and resolves to "b.jpg.jpg", which ends in the
    extension twice; the template "photo.JPG" is kept as it is and does not
    end in ".jpg". *)
Lemma resolveFileName_not_once :
  Generate.resolveFileName (Some "b.jpg.png") 0 0 = "b.jpg.jpg" /\
  endsInJpgOnce (Generate.resolveFileName (Some "b.jpg.png") 0 0) = false /\
  GenerateSerial.resolveFileName "run1" (Some "b.jpg.png") 0 0 = "run1_b.jpg.jpg" /\
  endsInJpgOnce (GenerateSerial.resolveFileName "run1" (Some "b.jpg.png") 0 0) = false /\
  Generate.resolveFileName (Some "photo.JPG") 0 0 = "photo.JPG" /\
  endsInJpgOnce (Generate.resolveFileName (Some "photo.JPG") 0 0) = false.
Proof. vm_compute. repeat split. Qed.

(** C5 (amended): for every requested filename template (a non-empty
    string), the resolved name ends in ".jpg" when letter case is ignored.
    A substituted name that already ends in ".jpg" in any letter case is kept
    as it is; any other name loses its last extension (a final dot followed
    by one or more characters other than a dot, if there is one) and gets
    ".jpg" appended, so that it ends in ".jpg" literally.  Both revisions of
    the generator do so, the run identifier being put in front afterwards. *)
Theorem resolveFileName_ends_in_jpg :
  forall (SERIAL requested : string) (i : nat) (now : N),
    JsString.truthy requested = true ->
    let name := substituteTimestamp requested now in
    let fixed := ensureJpgExtension name in
    Generate.resolveFileName (Some requested) i now = fixed /\
    GenerateSerial.resolveFileName SERIAL (Some requested) i now
      = GenerateSerial.prependSerial SERIAL fixed /\
    endsWith (toLowerCase fixed) ".jpg" = true /\
    endsWith (toLowerCase
                (GenerateSerial.resolveFileName SERIAL (Some requested) i now))
             ".jpg" = true /\
    (endsWith (toLowerCase name) ".jpg" = true -> fixed = name) /\
    (endsWith (toLowerCase name) ".jpg" = false ->
       fixed = stripExtension name ++ ".jpg" /\
       endsWith fixed ".jpg" = true /\
       (forall stem ext,
           name = stem ++ "." ++ ext -> isExtensionTail ext = true ->
           fixed = stem ++ ".jpg") /\
       ((forall stem ext,
            name = stem ++ "." ++ ext -> isExtensionTail ext = false) ->
        fixed = name ++ ".jpg")).
Proof.
  intros SERIAL requested i now Hreq name fixed.
  assert (Hgen : Generate.resolveFileName (Some requested) i now = fixed).
  { unfold Generate.resolveFileName, truthyFilename. now rewrite Hreq. }
  assert (Hser : GenerateSerial.resolveFileName SERIAL (Some requested) i now
                 = GenerateSerial.prependSerial SERIAL fixed).
  { unfold GenerateSerial.resolveFileName, truthyFilename. now rewrite Hreq. }
  assert (Hends : endsWith (toLowerCase fixed) ".jpg" = true)
    by apply ensureJpgExtension_ends.
  repeat split; try assumption.
  - rewrite Hser. now apply prependSerial_ends.
  - intros H. subst fixed. unfold ensureJpgExtension. now rewrite H.
  - subst fixed. unfold ensureJpgExtension. now rewrite H.
  - subst fixed. unfold ensureJpgExtension. rewrite H. simpl.
    apply endsWith_suffix.
  - intros stem ext Hname Hext. subst fixed. unfold ensureJpgExtension.
    rewrite H. simpl. rewrite Hname. now rewrite stripExtension_split.
  - intros Hnone. subst fixed. unfold ensureJpgExtension.
    rewrite H. simpl. now rewrite stripExtension_none.
Qed.

Lemma resolveFileName_ends_in_jpg_witness :
  JsString.truthy "ruler.png" = true /\
  Generate.resolveFileName (Some "ruler.png") 0 1700000000000 = "ruler.jpg" /\
  endsWith (toLowerCase
              (GenerateSerial.resolveFileName "run1" (Some "ruler.png") 0 1700000000000))
           ".jpg" = true.
Proof.
  pose proof (resolveFileName_ends_in_jpg "run1" "ruler.png" 0 1700000000000%N
                eq_refl) as H.
  cbv zeta in H. destruct H as (Hgen & _ & _ & Hends & _).
  split; [reflexivity|]. split; [rewrite Hgen; reflexivity | exact Hends].
Defined.

(** C6: the extension-fixing rule is idempotent: applied to its own result
    it changes nothing.  (The rule is the same text in both revisions of the
    generator.) *)
Theorem ensureJpgExtension_idempotent :
  forall fileName : string,
    ensureJpgExtension (ensureJpgExtension fileName) = ensureJpgExtension fileName.
Proof.
  intros fileName.
  pose proof (ensureJpgExtension_ends fileName) as H.
  unfold ensureJpgExtension at 1. now rewrite H.
Qed.

(** C7: with a run identifier configured, the name made from a template
    is the extension-fixed name with "<SERIAL>_" put in front, unless it
    starts with that prefix already; either way the resolved name starts
    with the prefix.  The template "ruler.png" under the run identifier
    "run1" resolves to "run1_ruler.jpg", whatever the index and the clock.
    The revision without a run identifier ([src/generate.js]) resolves every
    name as this one does under an empty run identifier. *)
Theorem resolveFileName_serial_prefix :
  (forall (SERIAL requested : string) (i : nat) (now : N),
      JsString.truthy SERIAL = true ->
      JsString.truthy requested = true ->
      let fixed := ensureJpgExtension (substituteTimestamp requested now) in
      GenerateSerial.resolveFileName SERIAL (Some requested) i now
        = (if startsWith fixed (SERIAL ++ "_") then fixed
           else SERIAL ++ "_" ++ fixed) /\
      startsWith (GenerateSerial.resolveFileName SERIAL (Some requested) i now)
                 (SERIAL ++ "_") = true) /\
  (forall (i : nat) (now : N),
      GenerateSerial.resolveFileName "run1" (Some "ruler.png") i now
        = "run1_ruler.jpg") /\
  (forall (requested : option string) (i : nat) (now : N),
      Generate.resolveFileName requested i now
        = GenerateSerial.resolveFileName "" requested i now).
Proof.
  split; [|split].
  - intros SERIAL requested i now HS Hreq fixed.
    unfold GenerateSerial.resolveFileName, truthyFilename. rewrite Hreq.
    fold fixed. cbv zeta. unfold GenerateSerial.prependSerial. rewrite HS. simpl.
    destruct (startsWith fixed (SERIAL ++ "_")) eqn:E; simpl.
    + split; [reflexivity | exact E].
    + split; [reflexivity|].
      unfold startsWith.
      change (String.prefix (SERIAL ++ "_") (SERIAL ++ "_" ++ fixed) = true).
      rewrite <- app_assoc_string. apply prefix_app.
  - intros i now. reflexivity.
  - intros requested i now.
    unfold Generate.resolveFileName, GenerateSerial.resolveFileName.
    destruct (truthyFilename requested); reflexivity.
Qed.

Lemma resolveFileName_serial_prefix_witness :
  JsString.truthy "run1" = true /\
  JsString.truthy "run1_a.png" = true /\
  GenerateSerial.resolveFileName "run1" (Some "run1_a.png") 3 7 = "run1_a.jpg".
Proof.
  destruct (proj1 resolveFileName_serial_prefix "run1" "run1_a.png" 3 7%N
              eq_refl eq_refl) as [H _].
  split; [reflexivity|]. split; [reflexivity|].
  rewrite H. reflexivity.
Defined.

(** C8: without a filename template ([null], absent, or the empty string)
    the name is "image_", the 1-based index, "_", the run identifier segment
    ("<SERIAL>_", or nothing without a run identifier), the timestamp and
    ".jpg".  The revision without a run identifier gives the same name as an
    empty run identifier.  The entry at index 0 with an empty run identifier
    at the timestamp 1700000000000 resolves to
    "image_1_1700000000000.jpg". *)
Theorem resolveFileName_default :
  (forall (SERIAL : string) (requested : option string) (i : nat) (now : N),
      truthyFilename requested = None ->
      GenerateSerial.resolveFileName SERIAL requested i now
        = "image_" ++ decimal (N.of_nat i + 1) ++ "_"
            ++ GenerateSerial.serialSegment SERIAL ++ decimal now ++ ".jpg" /\
      (JsString.truthy SERIAL = true ->
       GenerateSerial.serialSegment SERIAL = SERIAL ++ "_") /\
      Generate.resolveFileName requested i now
        = GenerateSerial.resolveFileName "" requested i now) /\
  GenerateSerial.resolveFileName "" None 0 1700000000000
    = "image_1_1700000000000.jpg" /\
  Generate.resolveFileName None 0 1700000000000
    = "image_1_1700000000000.jpg" /\
  GenerateSerial.resolveFileName "run1" (Some "") 4 1700000000000
    = "image_5_run1_1700000000000.jpg".
Proof.
  split.
  - intros SERIAL requested i now Hnone.
    unfold GenerateSerial.resolveFileName, Generate.resolveFileName.
    rewrite Hnone.
    replace (N.of_nat (i + 1)) with (N.of_nat i + 1)%N by lia.
    split; [reflexivity|]. split.
    + intros HS. unfold GenerateSerial.serialSegment. now rewrite HS.
    + reflexivity.
  - vm_compute. repeat split.
Qed.

Lemma resolveFileName_default_witness :
  truthyFilename (Some "") = None /\
  GenerateSerial.resolveFileName "" (Some "") 0 1700000000000
    = "image_1_1700000000000.jpg".
Proof.
  destruct (proj1 resolveFileName_default "" (Some "") 0 1700000000000%N eq_refl)
    as [H _].
  split; [reflexivity|]. rewrite H. vm_compute. reflexivity.
Defined.

(* ================================================================== *)
(** * The structural search *)
(* ================================================================== *)

Section Search.

Variable h : heap.

(** Only an object can carry an image payload. *)
Lemma hasImageData_object (node : value) :
  hasImageData h node = true ->
  exists l props, node = VRef l /\ deref h l = CObject props.
Proof.
  unfold hasImageData, prop. intros H.
  destruct node as [| |b|n|s|l]; try discriminate.
  destruct (deref h l) as [items|props] eqn:E; try discriminate.
  now exists l, props.
Qed.

Lemma hasImageData_truthy (node : value) :
  hasImageData h node = true -> truthy node = true.
Proof.
  intros H. destruct (hasImageData_object _ H) as (l & props & -> & _).
  reflexivity.
Qed.

Lemma find_app {A : Type} (p : A -> bool) (xs ys : list A) :
  find p (xs ++ ys)%list =
  match find p xs with
  | Some x => Some x
  | None => find p ys
  end.
Proof.
  induction xs as [|x xs IH]; simpl.
  - reflexivity.
  - destruct (p x); [reflexivity | exact IH].
Qed.

Lemma firstImageNode_app (xs ys : list value) :
  firstImageNode h (xs ++ ys)%list =
  if truthy (firstImageNode h xs) then firstImageNode h xs
  else firstImageNode h ys.
Proof.
  unfold firstImageNode. rewrite find_app.
  destruct (find (hasImageData h) xs) as [x|] eqn:E.
  - apply find_some in E. destruct E as [_ E].
    now rewrite (hasImageData_truthy _ E).
  - reflexivity.
Qed.

(** The loops of the search, over calls that all return. *)
Lemma firstTruthy_flat_map {A : Type} (g : A -> list value) (xs : list A) :
  firstTruthy (fun x => Some (firstImageNode h (g x))) xs
  = Some (firstImageNode h (flat_map g xs)).
Proof.
  induction xs as [|x xs IH]; simpl.
  - reflexivity.
  - rewrite firstImageNode_app.
    destruct (truthy (firstImageNode h (g x))); [reflexivity | exact IH].
Qed.

Lemma firstTruthy_ext {A : Type} (f g : A -> option value) (xs : list A) :
  (forall x, f x = g x) -> firstTruthy f xs = firstTruthy g xs.
Proof.
  intros Hfg. induction xs as [|x xs IH]; simpl.
  - reflexivity.
  - rewrite Hfg, IH. reflexivity.
Qed.

Lemma firstTruthy_map {A B : Type} (f : B -> option value) (g : A -> B)
    (xs : list A) :
  firstTruthy (fun x => f (g x)) xs = firstTruthy f (map g xs).
Proof.
  induction xs as [|x xs IH]; simpl.
  - reflexivity.
  - rewrite IH. reflexivity.
Qed.

(** With enough fuel for the levels that are left, the search returns, and
    returns the first node of the pre-order that carries an image payload. *)
Lemma findImagePartFuel_enough (fuel : nat) :
  forall (node : value) (depth : nat),
    10 - depth <= fuel -> 1 <= fuel ->
    findImagePartFuel fuel h node depth
    = Some (firstImageNode h (preorder h (9 - depth) node)).
Proof.
  induction fuel as [|fuel IH]; intros node depth Hfuel Hpos; [lia|].
  remember (9 - depth) as levels eqn:Hlevels.
  cbn [findImagePartFuel].
  destruct (8 <? depth)%nat eqn:Hdepth.
  - rewrite orb_true_r. apply Nat.ltb_lt in Hdepth.
    replace levels with 0 by lia. reflexivity.
  - apply Nat.ltb_ge in Hdepth. rewrite orb_false_r.
    remember (9 - (depth + 1)) as below eqn:Hbelow.
    replace levels with (S below) by lia.
    assert (Hrec : forall c, findImagePartFuel fuel h c (depth + 1)
                   = Some (firstImageNode h (preorder h below c))).
    { intros c. subst below. apply IH; lia. }
    cbn [preorder].
    destruct (truthy node) eqn:Htruthy; cbn [negb]; [|reflexivity].
    destruct node as [| |b|n|s|l]; try discriminate; try reflexivity.
    unfold firstImageNode at 1. cbn [find].
    unfold children.
    destruct (deref h l) as [items|props] eqn:Hcell.
    + assert (Hno : hasImageData h (VRef l) = false).
      { unfold hasImageData, prop. now rewrite Hcell. }
      rewrite Hno.
      rewrite (firstTruthy_ext _ _ _ Hrec).
      apply firstTruthy_flat_map.
    + destruct (hasImageData h (VRef l)); [reflexivity|].
      rewrite (firstTruthy_ext _ _ _ (fun key => Hrec (lookup props key))).
      rewrite (firstTruthy_map
                 (fun c => Some (firstImageNode h (preorder h below c)))
                 (lookup props) (keys props)).
      apply firstTruthy_flat_map.
Qed.

Lemma findImagePart_preorder (node : value) :
  findImagePart h node = firstImageNode h (preorder h 9 node).
Proof.
  unfold findImagePart.
  rewrite (findImagePartFuel_enough 10 node 0) by lia. reflexivity.
Qed.

(** ** Nodes of the pre-order and levels below the root *)

Lemma child_truthy (node c : value) : child h node c -> truthy node = true.
Proof.
  unfold child, children. destruct node; simpl; try contradiction. reflexivity.
Qed.

Lemma within_preorder (d : nat) (root node : value) :
  within h d root node ->
  forall levels, d < levels -> truthy node = true ->
  In node (preorder h levels root).
Proof.
  induction 1 as [node|d root c node Hchild Hw IH]; intros levels Hlt Htr.
  - destruct levels as [|levels]; [lia|]. simpl. rewrite Htr. now left.
  - destruct levels as [|levels]; [lia|]. simpl.
    rewrite (child_truthy _ _ Hchild). right.
    apply in_flat_map. exists c. split; [exact Hchild|].
    apply IH; [lia | exact Htr].
Qed.

Lemma preorder_within (levels : nat) :
  forall root node,
    In node (preorder h levels root) ->
    exists d, d < levels /\ within h d root node.
Proof.
  induction levels as [|levels IH]; intros root node Hin; simpl in Hin.
  - contradiction.
  - destruct (truthy root); [|contradiction].
    destruct Hin as [<-|Hin].
    + exists 0. split; [lia | constructor].
    + apply in_flat_map in Hin. destruct Hin as (c & Hc & Hin).
      destruct (IH _ _ Hin) as (d & Hd & Hw).
      exists (S d). split; [lia|]. econstructor; eauto.
Qed.

Lemma nested_within (d : nat) (root node : value) :
  nested h d root node -> within h d root node.
Proof.
  induction 1; econstructor; eauto.
Qed.

(** A payload at most eight levels down is found (some payload is, and this
    one when it is the only one within reach)... *)
Lemma findImagePart_finds_within (d : nat) (root node : value) :
  d <= 8 ->
  within h d root node ->
  hasImageData h node = true ->
  hasImageData h (findImagePart h root) = true /\
  ((forall d' other, d' <= 8 -> within h d' root other ->
                     hasImageData h other = true -> other = node) ->
   findImagePart h root = node).
Proof.
  intros Hd Hw Hnode. rewrite findImagePart_preorder. unfold firstImageNode.
  assert (Hin : In node (preorder h 9 root)).
  { apply (within_preorder _ _ _ Hw); [lia|]. now apply hasImageData_truthy. }
  destruct (find (hasImageData h) (preorder h 9 root)) as [x|] eqn:E.
  - apply find_some in E. destruct E as [Hx Hdata].
    split; [exact Hdata|]. intros Huniq.
    destruct (preorder_within _ _ _ Hx) as (d' & Hd' & Hw').
    apply (Huniq d'); [lia | exact Hw' | exact Hdata].
  - pose proof (find_none _ _ E _ Hin) as Hcontra. congruence.
Qed.

(** ...and the search gives [null] when no payload lies within eight
    levels. *)
Lemma findImagePart_misses_beyond (root : value) :
  (forall d other, d <= 8 -> within h d root other ->
                   hasImageData h other = false) ->
  findImagePart h root = VNull.
Proof.
  intros Hnone. rewrite findImagePart_preorder. unfold firstImageNode.
  destruct (find (hasImageData h) (preorder h 9 root)) as [x|] eqn:E;
    [|reflexivity].
  apply find_some in E. destruct E as [Hx Hdata].
  destruct (preorder_within _ _ _ Hx) as (d & Hd & Hw).
  rewrite (Hnone d x) in Hdata; [discriminate | lia | exact Hw].
Qed.

End Search.

(* ================================================================== *)
(** * The structural search: the claims *)
(* ================================================================== *)

(** C10: the structural search returns on every heap, node and depth,
    cyclic structures included: [10 - depth] nested calls (ten from the root,
    the depth counter going from 0 to 9) are always enough, and more fuel
    does not change the result.  A call on a falsy node or with a depth
    above 8 returns [null] at once, without a recursive call. *)
Theorem findImagePart_terminates :
  forall (h : heap) (node : value) (depth : nat),
    exists res : value,
      (forall fuel, 10 - depth <= fuel -> 1 <= fuel ->
                    findImagePartFuel fuel h node depth = Some res) /\
      (depth = 0 -> findImagePart h node = res) /\
      (truthy node = false \/ 8 < depth ->
       res = VNull /\
       forall fuel, findImagePartFuel (S fuel) h node depth = Some VNull).
Proof.
  intros h node depth.
  exists (firstImageNode h (preorder h (9 - depth) node)).
  split; [|split].
  - intros fuel Hfuel Hpos. now apply findImagePartFuel_enough.
  - intros ->. apply findImagePart_preorder.
  - intros Hstop.
    assert (Himm : forall fuel,
               findImagePartFuel (S fuel) h node depth = Some VNull).
    { intros fuel. cbn [findImagePartFuel].
      destruct Hstop as [Hfalsy|Hdeep].
      - now rewrite Hfalsy.
      - apply Nat.ltb_lt in Hdeep. rewrite Hdeep. now rewrite orb_true_r. }
    split; [|exact Himm].
    pose proof (findImagePartFuel_enough h (S (10 - depth)) node depth) as H.
    rewrite Himm in H. symmetry. injection H; [auto | lia | lia].
Qed.

(** On the object that holds itself the search descends through the cycle
    until the depth bound stops it: ten nested calls return [null], nine are
    one too few. *)
Lemma findImagePart_terminates_witness :
  10 - 0 <= 10 /\
  findImagePartFuel 10 Samples.cyclicResponse (VRef 0) 0 = Some VNull /\
  findImagePartFuel 9 Samples.cyclicResponse (VRef 0) 0 = None /\
  findImagePart Samples.cyclicResponse (VRef 0) = VNull.
Proof.
  destruct (findImagePart_terminates Samples.cyclicResponse (VRef 0) 0)
    as (res & Hres & Hroot & _).
  split; [lia|].
  assert (E : res = VNull).
  { specialize (Hres 10 ltac:(lia) ltac:(lia)).
    vm_compute in Hres. now injection Hres. }
  split; [rewrite (Hres 10) by lia; now rewrite E|].
  split; [vm_compute; reflexivity|].
  rewrite (Hroot eq_refl). exact E.
Defined.

(** C3: a node carrying an image payload that lies five levels below the
    response (the response being level 0), under wrappers that carry none,
    is within reach of the structural search: the search returns a payload
    node, and returns that very node when no other payload lies within the
    first eight levels.  When a payload lies nine levels down and none lies
    within the first eight levels, the search returns [null]. *)
Theorem findImagePart_depth_contract :
  forall (h : heap) (response node : value),
    hasImageData h node = true ->
    (nested h 5 response node ->
     hasImageData h (findImagePart h response) = true /\
     ((forall d other, d <= 8 -> within h d response other ->
                       hasImageData h other = true -> other = node) ->
      findImagePart h response = node)) /\
    (nested h 9 response node ->
     (forall d other, d <= 8 -> within h d response other ->
                      hasImageData h other = false) ->
     findImagePart h response = VNull).
Proof.
  intros h response node Hnode. split.
  - intros Hnested.
    apply (findImagePart_finds_within h 5 response node);
      [lia | now apply nested_within | exact Hnode].
  - intros _ Hnone. now apply findImagePart_misses_beyond.
Qed.

(** Every node within eight levels of a root is in the pre-order of nine
    levels, which decides statements about all of them on a given heap. *)
Lemma within_bounded (h : heap) (root : value) (P : value -> Prop) :
  (forall other, In other (preorder h 9 root) -> P other) ->
  (forall other, truthy other = false -> P other) ->
  forall d other, d <= 8 -> within h d root other -> P other.
Proof.
  intros Hlist Hfalsy d other Hd Hw.
  destruct (truthy other) eqn:E.
  - apply Hlist. apply (within_preorder h d root other Hw); [lia | exact E].
  - now apply Hfalsy.
Qed.

Lemma hasImageData_falsy (h : heap) (node : value) :
  truthy node = false -> hasImageData h node = false.
Proof.
  intros H. destruct (hasImageData h node) eqn:E; [|reflexivity].
  apply hasImageData_truthy in E. congruence.
Qed.

Ltac step_down :=
  eapply nested_below;
  [ reflexivity | unfold child; cbn; left; reflexivity | ].

Lemma findImagePart_depth_contract_witness :
  nested (Samples.nestedResponse 5) 5 (VRef 0) (VRef 5) /\
  findImagePart (Samples.nestedResponse 5) (VRef 0) = VRef 5 /\
  nested (Samples.nestedResponse 9) 9 (VRef 0) (VRef 9) /\
  findImagePart (Samples.nestedResponse 9) (VRef 0) = VNull.
Proof.
  assert (N5 : nested (Samples.nestedResponse 5) 5 (VRef 0) (VRef 5)).
  { do 5 step_down. apply nested_here. }
  assert (N9 : nested (Samples.nestedResponse 9) 9 (VRef 0) (VRef 9)).
  { do 9 step_down. apply nested_here. }
  destruct (findImagePart_depth_contract (Samples.nestedResponse 5)
              (VRef 0) (VRef 5) eq_refl) as [H5 _].
  destruct (findImagePart_depth_contract (Samples.nestedResponse 9)
              (VRef 0) (VRef 9) eq_refl) as [_ H9].
  split; [exact N5|]. split; [|split; [exact N9|]].
  - apply (proj2 (H5 N5)).
    apply (within_bounded _ _
             (fun other => hasImageData (Samples.nestedResponse 5) other = true
                           -> other = VRef 5)).
    + intros other Hin. vm_compute in Hin.
      repeat (destruct Hin as [<-|Hin]; [vm_compute; congruence|]).
      contradiction.
    + intros other Hf Hd. rewrite (hasImageData_falsy _ _ Hf) in Hd.
      discriminate.
  - apply (H9 N9).
    apply (within_bounded _ _
             (fun other => hasImageData (Samples.nestedResponse 9) other = false)).
    + intros other Hin. vm_compute in Hin.
      repeat (destruct Hin as [<-|Hin]; [vm_compute; reflexivity|]).
      contradiction.
    + intros other Hf. now apply hasImageData_falsy.
Defined.

(* ================================================================== *)
(** * The image payload extractor: the claim *)
(* ================================================================== *)

Section Extractor.

Variable h : heap.

(** Where the callback of line 76 returns, it tells what the test of line 90
    tells. *)
Lemma partIsImage_hasImageData (part : value) (b : bool) :
  partIsImage h part = Ok b -> hasImageData h part = b.
Proof.
  unfold partIsImage, getProp, hasImageData.
  destruct (nullish part); cbn [bind]; [discriminate|].
  set (inlineData := prop h part "inlineData").
  destruct (prop h inlineData "mimeType") as [| |b'|n|s|l] eqn:Emime;
    intros H; try discriminate; injection H as <-.
  - apply andb_false_r.
  - apply andb_false_r.
  - destruct inlineData; try discriminate. reflexivity.
Qed.

(** The engine raises nothing but a [TypeError] in the callback. *)
Lemma partIsImage_raises (part : value) (e : error) :
  partIsImage h part = Throw e -> e = TypeError.
Proof.
  unfold partIsImage, getProp.
  destruct (nullish part); cbn [bind]; [congruence|].
  destruct (prop h (prop h part "inlineData") "mimeType"); congruence.
Qed.

Lemma hasImageData_mimeType (node : value) :
  hasImageData h node = true ->
  exists s,
    prop h (prop h node "inlineData") "mimeType" = VString s /\
    startsWith s "image/" = true.
Proof.
  unfold hasImageData. intros H. apply andb_true_iff in H.
  destruct H as [_ H].
  destruct (prop h (prop h node "inlineData") "mimeType");
    try discriminate.
  eexists. split; [reflexivity | exact H].
Qed.

Lemma arrayFind_first (items : list value) (part : value) :
  arrayFind (partIsImage h) items = Ok part ->
  if truthy part then
    exists before after,
      items = (before ++ part :: after)%list /\
      hasImageData h part = true /\
      Forall (fun p => hasImageData h p = false) before
  else
    part = VUndefined /\ Forall (fun p => hasImageData h p = false) items.
Proof.
  induction items as [|item rest IH]; simpl.
  - intros H. injection H as <-. simpl. split; constructor.
  - destruct (partIsImage h item) as [found|e] eqn:E; simpl; [|discriminate].
    apply partIsImage_hasImageData in E.
    destruct found.
    + intros H. injection H as <-.
      rewrite (hasImageData_truthy _ _ E).
      exists [], rest. repeat split; [exact E | constructor].
    + intros H. specialize (IH H).
      destruct (truthy part).
      * destruct IH as (before & after & -> & Hpart & Hbefore).
        exists (item :: before), after. repeat split; [exact Hpart|].
        now constructor.
      * destruct IH as [-> Hall]. split; [reflexivity | now constructor].
Qed.

(** [find] raises where its callback raises first: on the first part that
    is [null] or [undefined], or whose media type is no string, none of the
    parts before it being an image. *)
Lemma arrayFind_raises (items : list value) (e : error) :
  arrayFind (partIsImage h) items = Throw e ->
  e = TypeError /\
  exists before part after,
    items = (before ++ part :: after)%list /\
    Forall (fun p => partIsImage h p = Ok false) before /\
    partIsImage h part = Throw TypeError.
Proof.
  induction items as [|item rest IH]; cbn [arrayFind]; [discriminate|].
  destruct (partIsImage h item) as [[|]|e'] eqn:E; cbn [bind].
  - discriminate.
  - intros H. destruct (IH H) as (-> & before & part & after & -> & Hb & Hp).
    split; [reflexivity|].
    exists (item :: before), part, after.
    repeat split; [now constructor | exact Hp].
  - intros [= <-]. pose proof (partIsImage_raises item e' E) as ->.
    split; [reflexivity|].
    exists [], item, rest. repeat split; [constructor | exact E].
Qed.

Lemma directImagePart_raises (response : value) (e : error) :
  directImagePart h response = Throw e -> e = TypeError.
Proof.
  unfold directImagePart, expectedParts, getProp.
  destruct (nullish response); cbn [bind]; [congruence|].
  destruct (nullish _); [discriminate|].
  destruct (asArray h _) as [items|]; [|congruence].
  intros H. now apply arrayFind_raises in H.
Qed.

Lemma locateImagePart_raises (response : value) (e : error) :
  locateImagePart h response = Throw e -> e = TypeError.
Proof.
  unfold locateImagePart.
  destruct (directImagePart h response) as [part|e'] eqn:E; cbn [bind].
  - destruct (negb (truthy part)); discriminate.
  - intros [= <-]. exact (directImagePart_raises response e' E).
Qed.

End Extractor.

(** C2: the extractor tries the expected location first.  The expected
    location is written out: [candidates] is the property of that name of
    the response, the first candidate is its element of index 0, [parts] is
    the property [parts] of the property [content] of the first candidate,
    every link after the response read with [?.].
    - When the lookup there gives a part, [parts] is an array, the part is
      its first element whose [inlineData.mimeType] is a string that starts
      with "image/", and it is returned without any search.
    - The lookup gives nothing when [parts] is [null] or [undefined], or is
      an array none of whose elements is such a part.  Only then is the
      structural search run, and its result is the first node carrying an
      image payload in the depth-first pre-order of the response over nine
      levels (depths 0 to 8), array elements in index order and object keys
      in enumeration order, or [null] without such a node; the payload of a
      node that is returned has a media type that starts with "image/".
    - The lookup raises, and the exception, a [TypeError], is passed on
      without any search, when the response is [null] or [undefined], when
      [parts] is neither nullish nor an array, or when the callback raises on
      a part before any image part is met. *)
Theorem locateImagePart_order :
  forall (h : heap) (response : value),
    let candidates := prop h response "candidates" in
    let first := elementZero h candidates in
    let content := prop h first "content" in
    let parts := prop h content "parts" in
    (forall cs, asArray h candidates = Some cs -> first = nth 0 cs VUndefined) /\
    match directImagePart h response with
    | Ok part =>
        nullish response = false /\
        if truthy part then
          locateImagePart h response = Ok part /\
          exists items before after,
            asArray h parts = Some items /\
            items = (before ++ part :: after)%list /\
            hasImageData h part = true /\
            (exists s,
                prop h (prop h part "inlineData") "mimeType" = VString s /\
                startsWith s "image/" = true) /\
            Forall (fun p => hasImageData h p = false) before
        else
          (nullish parts = true \/
           exists items,
             asArray h parts = Some items /\
             Forall (fun p => hasImageData h p = false) items) /\
          locateImagePart h response = Ok (findImagePart h response) /\
          findImagePart h response = firstImageNode h (preorder h 9 response) /\
          (forall fuel, 10 <= fuel ->
             findImagePartFuel fuel h response 0
             = Some (findImagePart h response)) /\
          (truthy (findImagePart h response) = true ->
           exists s,
             prop h (prop h (findImagePart h response) "inlineData") "mimeType"
             = VString s /\
             startsWith s "image/" = true)
    | Throw e =>
        locateImagePart h response = Throw e /\
        e = TypeError /\
        (nullish response = true \/
         (nullish parts = false /\ asArray h parts = None) \/
         exists items before part after,
           asArray h parts = Some items /\
           items = (before ++ part :: after)%list /\
           Forall (fun p => partIsImage h p = Ok false) before /\
           partIsImage h part = Throw TypeError)
    end.
Proof.
  intros h response candidates first content parts.
  split.
  { intros cs Hcs. subst first. unfold asArray in Hcs. unfold elementZero.
    destruct candidates as [| | | | |l]; try discriminate.
    destruct (deref h l); [|discriminate]. now injection Hcs as <-. }
  unfold locateImagePart.
  destruct (directImagePart h response) as [part|e] eqn:Edirect; cbn [bind].
  - unfold directImagePart, expectedParts, getProp in Edirect.
    destruct (nullish response) eqn:Eresp; cbn [bind] in Edirect;
      [discriminate|].
    fold candidates first content parts in Edirect.
    split; [reflexivity|].
    destruct (truthy part) eqn:Etruthy; cbn [negb].
    + split; [reflexivity|].
      destruct (nullish parts).
      { injection Edirect as <-. discriminate. }
      destruct (asArray h parts) as [items|] eqn:Earr; [|discriminate].
      pose proof (arrayFind_first h items part Edirect) as Hfirst.
      rewrite Etruthy in Hfirst.
      destruct Hfirst as (before & after & Hitems & Hpart & Hbefore).
      exists items, before, after.
      repeat split; try assumption.
      now apply hasImageData_mimeType.
    + split.
      { destruct (nullish parts); [now left|].
        destruct (asArray h parts) as [items|] eqn:Earr; [|discriminate].
        pose proof (arrayFind_first h items part Edirect) as Hfirst.
        rewrite Etruthy in Hfirst. right. exists items.
        split; [reflexivity | apply Hfirst]. }
      split; [reflexivity|]. split; [apply findImagePart_preorder|].
      split.
      * intros fuel Hfuel. rewrite findImagePart_preorder.
        apply findImagePartFuel_enough; lia.
      * rewrite findImagePart_preorder. unfold firstImageNode.
        destruct (find (hasImageData h) (preorder h 9 response)) eqn:Efind;
          [|discriminate].
        intros _. apply hasImageData_mimeType.
        now apply find_some in Efind.
  - split; [reflexivity|].
    pose proof (directImagePart_raises h response e Edirect) as ->.
    split; [reflexivity|].
    unfold directImagePart, expectedParts, getProp in Edirect.
    destruct (nullish response) eqn:Eresp; cbn [bind] in Edirect;
      [now left|].
    fold candidates first content parts in Edirect.
    right.
    destruct (nullish parts) eqn:Enull; [discriminate|].
    destruct (asArray h parts) as [items|] eqn:Earr; [|now left].
    right. apply arrayFind_raises in Edirect.
    destruct Edirect as (_ & before & part & after & Hitems & Hb & Hp).
    exists items, before, part, after. repeat split; assumption.
Qed.

Lemma locateImagePart_order_witness :
  directImagePart Samples.driftedResponse (VRef 0) = Ok VUndefined /\
  locateImagePart Samples.driftedResponse (VRef 0) = Ok (VRef 4) /\
  findImagePartFuel 10 Samples.driftedResponse (VRef 0) 0 = Some (VRef 4) /\
  locateImagePart Samples.expectedResponse (VRef 0) = Ok (VRef 5) /\
  locateImagePart Samples.malformedResponse (VRef 0) = Throw TypeError.
Proof.
  pose proof (locateImagePart_order Samples.driftedResponse (VRef 0)) as Hd.
  pose proof (locateImagePart_order Samples.expectedResponse (VRef 0)) as He.
  pose proof (locateImagePart_order Samples.malformedResponse (VRef 0)) as Hm.
  cbv zeta in Hd, He, Hm.
  assert (Ed : directImagePart Samples.driftedResponse (VRef 0) = Ok VUndefined)
    by reflexivity.
  assert (Ee : directImagePart Samples.expectedResponse (VRef 0) = Ok (VRef 5))
    by reflexivity.
  assert (Em : directImagePart Samples.malformedResponse (VRef 0)
               = Throw TypeError) by reflexivity.
  rewrite Ed in Hd. rewrite Ee in He. rewrite Em in Hm.
  cbn [truthy] in Hd, He.
  destruct Hd as (_ & _ & _ & Hlocate & _ & Hfuel & _).
  destruct He as (_ & _ & Hexp & _).
  destruct Hm as (_ & Hmal & _).
  assert (Efound : findImagePart Samples.driftedResponse (VRef 0) = VRef 4)
    by reflexivity.
  split; [exact Ed|]. split; [now rewrite Hlocate, Efound|].
  split; [rewrite (Hfuel 10) by lia; now rewrite Efound|].
  split; [exact Hexp | exact Hmal].
Defined.

Example locate_expected :
  locateImagePart Samples.expectedResponse (VRef 0) = Ok (VRef 5).
Proof. reflexivity. Qed.

Example locate_drifted :
  directImagePart Samples.driftedResponse (VRef 0) = Ok VUndefined /\
  locateImagePart Samples.driftedResponse (VRef 0) = Ok (VRef 4).
Proof. split; reflexivity. Qed.

Example locate_text_only :
  locateImagePart Samples.textOnlyResponse (VRef 0) = Ok VNull.
Proof. reflexivity. Qed.

Example locate_malformed :
  locateImagePart Samples.malformedResponse (VRef 0) = Throw TypeError.
Proof. reflexivity. Qed.

Example search_nested_8_9 :
  findImagePart (Samples.nestedResponse 8) (VRef 0) = VRef 8 /\
  findImagePart (Samples.nestedResponse 9) (VRef 0) = VNull.
Proof. split; reflexivity. Qed.

(* ================================================================== *)
(** * The batch loop *)
(* ================================================================== *)

Lemma raisesErrorsOnly_Throw {A : Type} (r : result A) (e : error) :
  raisesErrorsOnly r = true -> r = Throw e -> isErrorObject e = true.
Proof. intros H ->. exact H. Qed.

Lemma existsb_pointwise {A : Type} (f g : A -> bool) (l : list A) :
  (forall x, In x l -> f x = g x) -> existsb f l = existsb g l.
Proof.
  induction l as [|x l IH]; intros H; [reflexivity|].
  cbn [existsb]. rewrite (H x (or_introl eq_refl)).
  rewrite IH; [reflexivity|]. intros y Hy. apply H. now right.
Qed.

Section Summaries.

Import Generate.

Variable h : heap.

Lemma summarisePart_raises (p : value) (e : error) :
  summarisePart h p = Throw e -> e = TypeError.
Proof.
  unfold summarisePart, getProp. destruct (nullish p); cbn [bind]; congruence.
Qed.

Lemma arrayMap_raises {A : Type} (f : nat -> value -> result A) :
  (forall idx v e, f idx v = Throw e -> e = TypeError) ->
  forall items idx e, arrayMap f idx items = Throw e -> e = TypeError.
Proof.
  intros Hf. induction items as [|item rest IH]; intros idx e;
    cbn [arrayMap]; [discriminate|].
  destruct (f idx item) as [a|e'] eqn:E; cbn [bind].
  - destruct (arrayMap f (S idx) rest) as [more|e''] eqn:E'; cbn [bind];
      [discriminate|].
    intros [= <-]. exact (IH _ _ E').
  - intros [= <-]. exact (Hf _ _ _ E).
Qed.

Lemma optionalMap_raises {A : Type} (x : value)
    (f : nat -> value -> result A) :
  (forall idx v e, f idx v = Throw e -> e = TypeError) ->
  forall e, optionalMap h x f = Throw e -> e = TypeError.
Proof.
  intros Hf e. unfold optionalMap.
  destruct (nullish x); [discriminate|].
  destruct (asArray h x) as [items|]; [|congruence].
  now apply arrayMap_raises.
Qed.

Lemma summariseCandidate_raises (idx : nat) (c : value) (e : error) :
  summariseCandidate h idx c = Throw e -> e = TypeError.
Proof.
  unfold summariseCandidate.
  destruct (optionalMap h _ _) as [ps|e'] eqn:E; cbn [bind]; [discriminate|].
  intros [= <-]. revert E. apply optionalMap_raises.
  intros _ v e. apply summarisePart_raises.
Qed.

(** Building the summary raises nothing but a [TypeError]. *)
Lemma candidateSummaries_raises (response : value) (e : error) :
  candidateSummaries h response = Throw e -> e = TypeError.
Proof.
  unfold candidateSummaries. apply optionalMap_raises.
  apply summariseCandidate_raises.
Qed.

(** The locations on the stack of [JSON.stringify] are distinct cells of
    the heap, so the walk is at most as deep as the heap is long: more fuel
    than that changes nothing. *)
Lemma circularFuel_step (fuel : nat) :
  forall (stack : list loc) (v : value),
    NoDup stack ->
    (forall l, In l stack -> l < List.length h) ->
    List.length h < fuel + List.length stack ->
    circularFuel h (S fuel) stack v = circularFuel h fuel stack v.
Proof.
  induction fuel as [|fuel IH]; intros stack v Hnodup Hbound Hlen.
  - exfalso.
    assert (Hincl : incl stack (seq 0 (List.length h))).
    { intros l Hl. apply in_seq. specialize (Hbound l Hl). lia. }
    pose proof (NoDup_incl_length Hnodup Hincl) as Hle.
    rewrite length_seq in Hle. simpl in Hlen. lia.
  - destruct v as [| | | | |l]; try reflexivity.
    cbn [circularFuel].
    destruct (existsb (Nat.eqb l) stack) eqn:Eon; [reflexivity|].
    destruct (Nat.lt_ge_cases l (List.length h)) as [Hl|Hl].
    + apply existsb_pointwise. intros c _. apply IH.
      * constructor; [|exact Hnodup].
        intros Hin.
        assert (existsb (Nat.eqb l) stack = true) as Hex
          by (apply existsb_exists; exists l; split;
              [exact Hin | apply Nat.eqb_refl]).
        congruence.
      * intros l' [<-|Hl']; [exact Hl | now apply Hbound].
      * cbn [List.length]. lia.
    + unfold children, deref. rewrite (nth_overflow h (CObject []) Hl).
      reflexivity.
Qed.

Lemma circularFuel_enough (v : value) (more : nat) :
  circularFuel h (S (List.length h) + more) [] v = circular h v.
Proof.
  unfold circular. induction more as [|more IH].
  - now rewrite Nat.add_0_r.
  - rewrite Nat.add_succ_r, <- IH.
    apply circularFuel_step; [constructor | intros l [] |].
    cbn [List.length]. lia.
Qed.

End Summaries.

Section Batch.

Import Generate.

Variable w : World.

Lemma directImagePart_payload (h : heap) (response part : value) :
  directImagePart h response = Ok part -> truthy part = true ->
  hasImageData h part = true.
Proof.
  unfold directImagePart. intros Hdirect Htruthy.
  destruct (expectedParts h response) as [parts|e]; simpl in Hdirect;
    [|discriminate].
  destruct (nullish parts).
  { injection Hdirect as <-. discriminate. }
  destruct (asArray h parts) as [items|]; [|discriminate].
  pose proof (arrayFind_first h items part Hdirect) as Hfirst.
  rewrite Htruthy in Hfirst. now destruct Hfirst as (_ & _ & _ & Hpart & _).
Qed.

(** What the extractor returns, when it is truthy, carries an image payload;
    its [inlineData] is truthy, so the test of line 108 is the test of
    [imagePart] alone. *)
Lemma locateImagePart_payload (h : heap) (response part : value) :
  locateImagePart h response = Ok part -> truthy part = true ->
  hasImageData h part = true.
Proof.
  unfold locateImagePart. intros Hlocate Htruthy.
  destruct (directImagePart h response) as [direct|e] eqn:Edirect;
    simpl in Hlocate; [|discriminate].
  destruct (truthy direct) eqn:Ed; simpl in Hlocate; injection Hlocate as <-.
  - now apply (directImagePart_payload h response).
  - rewrite findImagePart_preorder in *. unfold firstImageNode in *.
    destruct (find (hasImageData h) (preorder h 9 response)) eqn:Efind;
      [|discriminate].
    now apply find_some in Efind.
Qed.

Lemma hasImageData_inlineData (h : heap) (part : value) :
  hasImageData h part = true -> truthy (prop h part "inlineData") = true.
Proof.
  unfold hasImageData. intros H. now apply andb_true_iff in H.
Qed.




(** A turn of the loop ends in one of five ways.  A detached chain is
    started for the decoded image; or the [catch] of line 181 logs the
    exception of the turn, an [Error] object; or the warning, the summary and
    the hint of lines 174-178 are printed; or [JSON.stringify] raises after
    the warning and the [catch] logs its [TypeError]; or, the reason caught
    being [null] or [undefined], the handler itself raises and the exception
    leaves the turn. *)
Lemma processEntry_cases (total i : nat) (e : entry) :
  let prompt := styledPrompt (basePromptOf e) in
  (exists imgBuffer,
      processEntry w total i e
      = ([openingLine total i e],
         Ok (Some {| taskIndex := i;
                     taskFilename := requestedFilenameOf e;
                     taskBuffer := imgBuffer |})) /\
      decoded w i e imgBuffer)
  \/
  (exists err,
      processEntry w total i e
      = ([openingLine total i e; Console LError (MsgGenerateError prompt err)],
         Ok None) /\
      isErrorObject err = true /\
      forall b, ~ decoded w i e b)
  \/
  (exists count keys summaries,
      processEntry w total i e
      = ([openingLine total i e;
          Console LWarn (MsgNoImage prompt count);
          Console LDebug (MsgResponseSummary keys summaries);
          Console LInfo MsgHint],
         Ok None) /\
      extractionFailed w i e = true /\
      summarySerialises w i e = true)
  \/
  (exists count,
      processEntry w total i e
      = ([openingLine total i e;
          Console LWarn (MsgNoImage prompt count);
          Console LError (MsgGenerateError prompt TypeError)],
         Ok None) /\
      extractionFailed w i e = true /\
      summarySerialises w i e = false)
  \/
  (processEntry w total i e = ([openingLine total i e], Throw TypeError) /\
   ~ politeAt w i).
Proof.
  intros prompt.
  unfold processEntry, tryBody, extractionFailed, summarySerialises, decoded.
  fold prompt.
  destruct (generateContent w i MODEL_NAME (fullPromptOf prompt))
    as [[h response]|err] eqn:Egen;
    cbn [lift bindM tryCatch emit ret fst snd app readMessage].
  2:{ destruct err; cbn [lift bindM tryCatch emit ret fst snd app readMessage].
      - right; left. exists TypeError. repeat split.
        intros b (h' & r' & p' & H & _). discriminate.
      - right; left. eexists. repeat split.
        intros b (h' & r' & p' & H & _). discriminate.
      - do 4 right. split; [reflexivity|].
        intros (Hg & _). specialize (Hg MODEL_NAME (fullPromptOf prompt)).
        rewrite Egen in Hg. discriminate. }
  destruct (locateImagePart h response) as [imagePart|err] eqn:Eloc;
    cbn [lift bindM tryCatch emit ret fst snd app readMessage].
  2:{ pose proof (locateImagePart_raises h response err Eloc) as ->.
      right; left. exists TypeError. repeat split.
      intros b (h' & r' & p' & [= <- <-] & Hl & _). congruence. }
  destruct (truthy imagePart) eqn:Etruthy.
  - rewrite (hasImageData_inlineData h imagePart
               (locateImagePart_payload h response imagePart Eloc Etruthy)).
    cbn [andb].
    destruct (Buffer_from w i h _) as [imgBuffer|err] eqn:Ebuf;
      cbn [lift bindM tryCatch emit ret fst snd app readMessage].
    + left. exists imgBuffer. split; [reflexivity|].
      now exists h, response, imagePart.
    + destruct err;
        cbn [lift bindM tryCatch emit ret fst snd app readMessage].
      * right; left. exists TypeError. repeat split.
        intros b (h' & r' & p' & [= <- <-] & Hl & _ & Hb).
        rewrite Eloc in Hl. injection Hl as <-. congruence.
      * right; left. eexists. repeat split.
        intros b (h' & r' & p' & [= <- <-] & Hl & _ & Hb).
        rewrite Eloc in Hl. injection Hl as <-. congruence.
      * do 4 right. split; [reflexivity|].
        intros (_ & Hb & _). specialize (Hb h (prop h (prop h imagePart "inlineData") "data")).
        rewrite Ebuf in Hb. discriminate.
  - cbn [andb negb].
    destruct (candidateSummaries h response) as [summaries|err] eqn:Esum;
      cbn [lift bindM tryCatch emit ret fst snd app readMessage].
    + unfold JSON_stringify.
      destruct (existsb (circular h) (summaryValues summaries));
        cbn [lift bindM tryCatch emit ret fst snd app readMessage negb].
      * do 3 right; left. eexists. repeat split.
      * right; right; left. do 3 eexists. repeat split.
    + pose proof (candidateSummaries_raises h response err Esum) as ->.
      cbn [lift bindM tryCatch emit ret fst snd app readMessage].
      right; left. exists TypeError. repeat split.
      intros b (h' & r' & p' & [= <- <-] & Hl & Ht & _).
      rewrite Eloc in Hl. injection Hl as <-. congruence.
Qed.

(** A turn opens with its own line and writes no file itself. *)
Lemma processEntry_opens (total i : nat) (e : entry) :
  exists rest r,
    processEntry w total i e = (openingLine total i e :: rest, r) /\
    filter isProcessing rest = [] /\
    filter isFileWritten rest = [].
Proof.
  destruct (processEntry_cases total i e)
    as [(b & -> & _) | [(err & -> & _) | [(c & k & sm & -> & _)
       | [(c & -> & _) | (-> & _)]]]];
    do 2 eexists; repeat split.
Qed.

(** When no collaborator raises [null] or [undefined], no exception leaves
    the turn. *)
Lemma processEntry_returns (total i : nat) (e : entry) :
  politeAt w i ->
  exists rest t,
    processEntry w total i e = (openingLine total i e :: rest, Ok t) /\
    filter isProcessing rest = [].
Proof.
  intros Hpolite.
  destruct (processEntry_cases total i e)
    as [(b & -> & _) | [(err & -> & _) | [(c & k & sm & -> & _)
       | [(c & -> & _) | (_ & Hrude)]]]];
    try (do 2 eexists; split; reflexivity).
  contradiction.
Qed.

(** The detached chain of an entry ends in one of four ways: the file is
    written and the success line printed; or the [catch] of line 155 logs the
    failure to load sharp or to build the pipeline; or the [catch] of line
    152 logs the failure of the conversion or of the write; or, the reason
    caught being [null] or [undefined], the handler itself raises and the
    chain ends by an unhandled rejection. *)
Lemma runTask_cases (t : task) :
  let i := taskIndex t in
  let filePath :=
    path_join w (OUTPUT_DIR w)
      (resolveFileName (taskFilename t) i (Date_now w i)) in
  (exists jpegBuffer,
      runTask w t = ([FileWritten filePath jpegBuffer;
                      Console LLog (MsgSaved filePath)], Ok tt) /\
      converted w i (taskBuffer t) filePath jpegBuffer)
  \/
  (exists err,
      runTask w t = ([Console LError (MsgSharpLoadError err)], Ok tt) /\
      isErrorObject err = true /\
      (import_sharp w i = Throw err \/
       sharp_pipeline w i (taskBuffer t) TARGET_WIDTH TARGET_HEIGHT LIGHT_BG 90
         = Throw err) /\
      forall j, ~ converted w i (taskBuffer t) filePath j)
  \/
  (exists err,
      runTask w t = ([Console LError (MsgConvertError err)], Ok tt) /\
      isErrorObject err = true /\
      (sharp_toBuffer w i (taskBuffer t) TARGET_WIDTH TARGET_HEIGHT LIGHT_BG 90
         = Throw err \/
       exists jpegBuffer, fs_writeFileSync w i filePath jpegBuffer = Throw err) /\
      forall j, ~ converted w i (taskBuffer t) filePath j)
  \/
  (runTask w t = ([], Throw TypeError) /\ ~ politeAt w i).
Proof.
  intros i filePath.
  unfold runTask, loadAndBuild, convertAndSave, saveJpeg, converted.
  fold i. fold filePath.
  destruct (import_sharp w i) as [[]|err] eqn:Eimport;
    cbn [lift bindM tryCatch emit ret fst snd app readMessage].
  2:{ destruct err;
        cbn [lift bindM tryCatch emit ret fst snd app readMessage].
      - right; left. exists TypeError.
        repeat split; [now left | intros j (H & _); discriminate].
      - right; left. eexists.
        repeat split; [now left | intros j (H & _); discriminate].
      - do 3 right. split; [reflexivity|].
        intros (_ & _ & H & _). rewrite Eimport in H. discriminate. }
  destruct (sharp_pipeline w i _ _ _ _ _) as [[]|err] eqn:Epipe;
    cbn [lift bindM tryCatch emit ret fst snd app readMessage].
  2:{ destruct err;
        cbn [lift bindM tryCatch emit ret fst snd app readMessage].
      - right; left. exists TypeError.
        repeat split; [now right | intros j (_ & H & _); discriminate].
      - right; left. eexists.
        repeat split; [now right | intros j (_ & H & _); discriminate].
      - do 3 right. split; [reflexivity|].
        intros (_ & _ & _ & H & _).
        specialize (H (taskBuffer t) TARGET_WIDTH TARGET_HEIGHT LIGHT_BG 90%N).
        rewrite Epipe in H. discriminate. }
  destruct (sharp_toBuffer w i _ _ _ _ _) as [jpegBuffer|err] eqn:Ejpeg;
    cbn [lift bindM tryCatch emit ret fst snd app readMessage].
  2:{ destruct err;
        cbn [lift bindM tryCatch emit ret fst snd app readMessage].
      - right; right; left. exists TypeError.
        repeat split; [now left | intros j (_ & _ & H & _); discriminate].
      - right; right; left. eexists.
        repeat split; [now left | intros j (_ & _ & H & _); discriminate].
      - do 3 right. split; [reflexivity|].
        intros (_ & _ & _ & _ & H & _).
        specialize (H (taskBuffer t) TARGET_WIDTH TARGET_HEIGHT LIGHT_BG 90%N).
        rewrite Ejpeg in H. discriminate. }
  destruct (fs_writeFileSync w i filePath jpegBuffer) as [[]|err] eqn:Ewrite;
    cbn [lift bindM tryCatch emit ret fst snd app readMessage].
  - left. exists jpegBuffer. repeat split. exact Ewrite.
  - destruct err;
      cbn [lift bindM tryCatch emit ret fst snd app readMessage].
    + right; right; left. exists TypeError.
      repeat split; [right; now exists jpegBuffer|].
      intros j (_ & _ & [= <-] & H). congruence.
    + right; right; left. eexists.
      repeat split; [right; now exists jpegBuffer|].
      intros j (_ & _ & [= <-] & H). congruence.
    + do 3 right. split; [reflexivity|].
      intros (_ & _ & _ & _ & _ & H). specialize (H filePath jpegBuffer).
      rewrite Ewrite in H. discriminate.
Qed.

(** When no collaborator raises [null] or [undefined], the detached chain
    handles every rejection. *)
Lemma runTask_returns (t : task) :
  politeAt w (taskIndex t) -> outcome (runTask w t) = Ok tt.
Proof.
  intros Hpolite.
  destruct (runTask_cases t)
    as [(j & -> & _) | [(err & -> & _) | [(err & -> & _) | (_ & Hrude)]]];
    try reflexivity.
  contradiction.
Qed.

End Batch.

Section Sequencing.

Context {E A B : Type}.

Lemma events_bindM (m : M E A) (k : A -> M E B) :
  events (bindM m k)
  = (events m ++ match outcome m with
                 | Ok a => events (k a)
                 | Throw _ => []
                 end)%list.
Proof.
  destruct m as [evs [a|e]]; cbn [bindM events outcome fst snd].
  - now destruct (k a).
  - now rewrite app_nil_r.
Qed.

Lemma outcome_bindM (m : M E A) (k : A -> M E B) :
  outcome (bindM m k)
  = match outcome m with
    | Ok a => outcome (k a)
    | Throw e => Throw e
    end.
Proof.
  destruct m as [evs [a|e]]; cbn [bindM events outcome fst snd].
  - now destruct (k a).
  - reflexivity.
Qed.

End Sequencing.

Section Loop.

Import Generate.

Variable w : World.

(** When no collaborator raises [null] or [undefined], the loop is the turns
    of all entries, one after the other. *)
Lemma loopFrom_turns (total : nat) (entries : list entry) :
  polite w ->
  forall i,
    loopFrom w total i entries
    = (turnEvents w total (combine (seq i (List.length entries)) entries),
       Ok (startedTasks w total (combine (seq i (List.length entries)) entries))).
Proof.
  intros Hpolite.
  induction entries as [|e rest IH]; intros i.
  - reflexivity.
  - cbn [loopFrom List.length seq combine turnEvents startedTasks flat_map fst snd].
    rewrite IH.
    destruct (processEntry_returns w total i e (Hpolite i)) as (evs & t & -> & _).
    cbn [bindM ret events outcome fst snd].
    rewrite app_nil_r.
    destruct t as [t|]; reflexivity.
Qed.

Lemma startedFrom_turns (total : nat) (entries : list entry) :
  polite w ->
  forall i,
    startedFrom w total i entries
    = startedTasks w total (combine (seq i (List.length entries)) entries).
Proof.
  intros Hpolite.
  induction entries as [|e rest IH]; intros i.
  - reflexivity.
  - cbn [startedFrom List.length seq combine startedTasks flat_map fst snd].
    rewrite IH.
    destruct (processEntry_returns w total i e (Hpolite i)) as (evs & t & -> & _).
    cbn [outcome snd]. destruct t as [t|]; reflexivity.
Qed.

(** Whatever the collaborators do, the loop prints nothing but what the
    turns of its entries print, and starts no other chains than theirs. *)
Lemma loopFrom_events_incl (total : nat) (entries : list entry) :
  forall i,
    incl (events (loopFrom w total i entries))
         (turnEvents w total (combine (seq i (List.length entries)) entries)).
Proof.
  induction entries as [|e rest IH]; intros i.
  - apply incl_refl.
  - cbn [loopFrom List.length seq combine turnEvents flat_map fst snd].
    rewrite events_bindM.
    apply incl_app_app; [apply incl_refl|].
    destruct (outcome (processEntry w total i e)) as [t|err];
      [|apply incl_nil_l].
    rewrite events_bindM. cbn [ret events fst].
    destruct (outcome (loopFrom w total (S i) rest));
      rewrite app_nil_r; apply IH.
Qed.

Lemma startedFrom_incl (total : nat) (entries : list entry) :
  forall i,
    incl (startedFrom w total i entries)
         (startedTasks w total (combine (seq i (List.length entries)) entries)).
Proof.
  induction entries as [|e rest IH]; intros i.
  - apply incl_refl.
  - cbn [startedFrom List.length seq combine startedTasks flat_map fst snd].
    destruct (outcome (processEntry w total i e)) as [[t|]|err].
    + cbn [consTask app]. apply incl_cons; [now left|].
      apply incl_tl. apply IH.
    + apply IH.
    + apply incl_nil_l.
Qed.

(** The chains the call returns are the chains it has started. *)
Lemma loopFrom_started (total : nat) (entries : list entry) :
  forall i ts,
    outcome (loopFrom w total i entries) = Ok ts ->
    ts = startedFrom w total i entries.
Proof.
  induction entries as [|e rest IH]; intros i ts.
  - cbn. now intros [= <-].
  - cbn [loopFrom startedFrom]. rewrite outcome_bindM.
    destruct (outcome (processEntry w total i e)) as [t|err]; [|discriminate].
    rewrite outcome_bindM.
    destruct (outcome (loopFrom w total (S i) rest)) as [ts'|err] eqn:E;
      [|discriminate].
    cbn. intros [= <-]. now rewrite (IH (S i) ts' E).
Qed.

Lemma turnEvents_openings (total : nat) (ies : list (nat * entry)) :
  filter isProcessing (turnEvents w total ies)
  = map (fun ie => openingLine total (fst ie) (snd ie)) ies.
Proof.
  induction ies as [|[i e] rest IH]; [reflexivity|].
  cbn [turnEvents flat_map map fst snd]. rewrite filter_app.
  fold (turnEvents w total rest). rewrite IH.
  destruct (processEntry_opens w total i e) as (evs & r & -> & Hevs & _).
  cbn [events fst filter isProcessing openingLine]. now rewrite Hevs.
Qed.

Lemma turnEvents_write_nothing (total : nat) (ies : list (nat * entry)) :
  filter isFileWritten (turnEvents w total ies) = [].
Proof.
  induction ies as [|[i e] rest IH]; [reflexivity|].
  cbn [turnEvents flat_map map fst snd]. rewrite filter_app.
  fold (turnEvents w total rest). rewrite IH.
  destruct (processEntry_opens w total i e) as (evs & r & -> & _ & Hevs).
  cbn [events fst filter isFileWritten openingLine]. now rewrite Hevs.
Qed.

End Loop.

(* ================================================================== *)
(** * The batch generator: the claims *)
(* ================================================================== *)

(** C4, at the input where it fails.  The call of the API for the first of
    two entries rejects with [undefined]; for the second entry everything
    would work.  The [catch] of line 181 reads [error.message], which raises
    a [TypeError] on [undefined]: the exception leaves the turn and the
    loop, [generateAndSaveImages] rejects after the opening line of the
    first entry, the second entry is never processed and the completion
    message is never printed.  In the same way a conversion that rejects
    with [null] ends the detached chain by an unhandled rejection, the
    [catch] of line 152 raising on [err.message]. *)
Theorem batch_aborts_on_nullish_reason :
  Generate.generateContent Samples.rejectionWorld 0 Generate.MODEL_NAME
    (Generate.fullPromptOf (Generate.styledPrompt "a ruler"))
  = Throw NullishReason /\
  Generate.entryEvents Samples.rejectionWorld 2 1
    (Generate.EntryString "a pencil")
  = [ Generate.openingLine 2 1 (Generate.EntryString "a pencil");
      Generate.FileWritten "/work/images/image_2_1700000000000.jpg"
        Samples.jpegBytes;
      Generate.Console LLog
        (Generate.MsgSaved "/work/images/image_2_1700000000000.jpg") ] /\
  Generate.generateAndSaveImages Samples.rejectionWorld Samples.twoEntries
  = ([ Generate.Console LLog (Generate.MsgGenerating 2);
       Generate.openingLine 2 0 Samples.rulerEntry ],
     Throw TypeError) /\
  ~ In (Generate.openingLine 2 1 (Generate.EntryString "a pencil"))
       (GenerateRun.allEvents Samples.rejectionWorld Samples.twoEntries) /\
  ~ In (Generate.Console LLog Generate.MsgFinished)
       (GenerateRun.allEvents Samples.rejectionWorld Samples.twoEntries) /\
  Generate.runTask Samples.nullConversionWorld
    {| Generate.taskIndex := 0;
       Generate.taskFilename := Some "ruler.png";
       Generate.taskBuffer := [Byte.x68; Byte.x69] |}
  = ([], Throw TypeError).
Proof.
  repeat split; try reflexivity.
  - vm_compute. intros [H|[H|[]]]; discriminate.
  - vm_compute. intros [H|[H|[]]]; discriminate.
Qed.

Section Entry.

Import Generate.

Variable w : World.


(** Lines 158-182: an answer without an image part whose summary can be
    built gives the warning, and then the summary and the hint, or, when the
    summary cannot be serialised, the [console.error] of the [catch]. *)
Lemma processEntry_no_image_summary (total i : nat) (e : entry)
    (h : heap) (response part : value) (summaries : list candidateSummary) :
  let prompt := styledPrompt (basePromptOf e) in
  generateContent w i MODEL_NAME (fullPromptOf prompt) = Ok (h, response) ->
  locateImagePart h response = Ok part ->
  truthy part = false ->
  candidateSummaries h response = Ok summaries ->
  processEntry w total i e
  = (openingLine total i e
       :: Console LWarn (MsgNoImage prompt (candidateCount h response))
       :: (if existsb (circular h) (summaryValues summaries)
           then [Console LError (MsgGenerateError prompt TypeError)]
           else [Console LDebug
                   (MsgResponseSummary (topKeys h response) summaries);
                 Console LInfo MsgHint]),
     Ok None).
Proof.
  intros prompt Hgen Hloc Hfalsy Hsum.
  unfold processEntry, tryBody. fold prompt.
  rewrite Hgen. cbn [lift bindM tryCatch emit ret fst snd app].
  rewrite Hloc. cbn [lift bindM tryCatch emit ret fst snd app].
  rewrite Hfalsy. cbn [andb]. rewrite Hsum.
  cbn [lift bindM tryCatch emit ret fst snd app].
  unfold JSON_stringify.
  destruct (existsb (circular h) (summaryValues summaries)); reflexivity.
Qed.



End Entry.




(* ================================================================== *)
(** * The credential inspector: the claim *)
(* ================================================================== *)

Section Inspector.

Import CheckCreds.

Lemma emitAll_events (evs : list event) : emitAll evs = (evs, Ok tt).
Proof.
  induction evs as [|ev rest IH]; [reflexivity|].
  cbn [emitAll]. rewrite IH. reflexivity.
Qed.

(** What the [try] of lines 11-20 does for the file [gac]: the read fails;
    or the parse fails; or the parsed value is [null], and reading its
    first field raises after the header is printed; or the header and the
    three fields are printed.  A failure is reported on one line; were the
    value caught [null] or [undefined], the handler itself would raise. *)
Lemma inspect_cases (w : World) (gac : string) :
  let run := tryCatch (readAndSummarise w gac) reportFailure in
  (exists err,
      fs_readFileSync w gac "utf8" = Throw err /\
      run = if isErrorObject err
            then ([ReadFile gac; reportLine err], Ok tt)
            else ([ReadFile gac], Throw TypeError))
  \/
  (exists raw err,
      fs_readFileSync w gac "utf8" = Ok raw /\
      JSON_parse w raw = Throw err /\
      run = if isErrorObject err
            then ([ReadFile gac; ParseJson raw; reportLine err], Ok tt)
            else ([ReadFile gac; ParseJson raw], Throw TypeError))
  \/
  (exists raw h j,
      fs_readFileSync w gac "utf8" = Ok raw /\
      JSON_parse w raw = Ok (h, j) /\
      nullish j = true /\
      run = ([ReadFile gac; ParseJson raw; headerLine; reportLine TypeError],
             Ok tt))
  \/
  (exists raw h j,
      fs_readFileSync w gac "utf8" = Ok raw /\
      JSON_parse w raw = Ok (h, j) /\
      nullish j = false /\
      run = ([ReadFile gac; ParseJson raw; headerLine;
              Console LLog [AStr "project_id:";
                            orNotFound h (prop h j "project_id")];
              Console LLog [AStr "client_email:";
                            orNotFound h (prop h j "client_email")];
              Console LLog [AStr "type:"; orNotFound h (prop h j "type")]],
             Ok tt)).
Proof.
  intros run. subst run. unfold readAndSummarise, reportFailure.
  destruct (fs_readFileSync w gac "utf8") as [raw|err] eqn:Eread;
    cbn [lift bindM tryCatch emit ret fst snd app].
  2:{ left. exists err. split; [reflexivity|]. now destruct err. }
  destruct (JSON_parse w raw) as [[h j]|err] eqn:Eparse;
    cbn [lift bindM tryCatch emit ret fst snd app].
  2:{ right; left. exists raw, err.
      repeat split; [assumption|]. now destruct err. }
  unfold getProp. destruct (nullish j) eqn:Enull;
    cbn [lift bindM tryCatch emit ret fst snd app].
  - right; right; left. exists raw, h, j.
    repeat split; first [assumption | reflexivity].
  - right; right; right. exists raw, h, j.
    repeat split; first [assumption | reflexivity].
Qed.

(** The built-ins raising [Error] objects only, the handler returns. *)
Lemma inspectFile_returns (w : World) :
  builtinsRaiseErrors w -> outcome (inspectFile w) = Ok tt.
Proof.
  intros (Hread & Hparse). unfold inspectFile.
  destruct (truthyFilename (GOOGLE_APPLICATION_CREDENTIALS (env w)))
    as [gac|]; [|reflexivity].
  destruct (inspect_cases w gac)
    as [(err & Eread & E) | [(raw & err & Eread & Eparse & E)
       | [(raw & h & j & _ & _ & _ & E) | (raw & h & j & _ & _ & _ & E)]]];
    cbv zeta in E; rewrite E; try reflexivity.
  - rewrite (raisesErrorsOnly_Throw _ err (Hread gac "utf8") Eread).
    reflexivity.
  - rewrite (raisesErrorsOnly_Throw _ err (Hparse raw) Eparse).
    reflexivity.
Qed.

(** The script is its summary, the inspection of the file, and the usage
    hint when the inspection returns. *)
Lemma main_events_parts (w : World) :
  events (main w)
  = (environmentSummary (env w) ++ events (inspectFile w)
     ++ match outcome (inspectFile w) with
        | Ok _ => usageHint
        | Throw _ => []
        end)%list.
Proof.
  unfold main. rewrite !emitAll_events.
  destruct (inspectFile w) as [evs [[]|err]];
    cbn [bindM events outcome fst snd]; [reflexivity|].
  now rewrite app_nil_r.
Qed.

Lemma main_outcome (w : World) :
  outcome (main w) = outcome (inspectFile w).
Proof.
  unfold main. rewrite !emitAll_events.
  destruct (inspectFile w) as [evs [[]|err]]; reflexivity.
Qed.

Lemma main_events_returned (w : World) :
  outcome (inspectFile w) = Ok tt ->
  events (main w)
  = (environmentSummary (env w) ++ events (inspectFile w) ++ usageHint)%list.
Proof. intros H. now rewrite main_events_parts, H. Qed.

End Inspector.

(** C9.  The environment summary is five lines: the header; the credentials
    path as it is set, or "(not set)" when the variable is unset or empty;
    the presence of the API key, "YES" when the variable is set and not
    empty and "NO" otherwise, so that a key that is set and a key that is not
    give different lines and any two keys that are set give the same; the run
    identifier as it is set, or "(not set)"; and an empty line.  What the
    script prints starts with these five lines, which hold no access to the
    credentials file: they come before any attempt to read or parse it.
    When the credentials variable names a file whose read fails, or whose
    text fails to parse, the only things done between the summary and the
    closing usage hint are the read (and the parse), and one [console.error]
    line with the message of the exception, the only error line of the run;
    the script then goes on to the usage hint and ends normally.  The
    built-ins raising [Error] objects, it ends normally in every case. *)
Theorem inspector_reports_failure :
  forall (w : CheckCreds.World),
    let e := CheckCreds.env w in
    let shown (x : option string) :=
      match x with
      | Some (String c s) => String c s
      | _ => "(not set)"
      end in
    let present (x : option string) :=
      match x with
      | Some (String _ _) => "YES"
      | _ => "NO"
      end in
    CheckCreds.environmentSummary e
    = [ CheckCreds.Console LLog
          [CheckCreds.AStr "--- Environment variables ---"];
        CheckCreds.Console LLog
          [CheckCreds.AStr "GOOGLE_APPLICATION_CREDENTIALS =";
           CheckCreds.AStr
             (shown (CheckCreds.GOOGLE_APPLICATION_CREDENTIALS e))];
        CheckCreds.Console LLog
          [CheckCreds.AStr "GEMINI_API_KEY present =";
           CheckCreds.AStr (present (CheckCreds.GEMINI_API_KEY e))];
        CheckCreds.Console LLog
          [CheckCreds.AStr "SERIAL ="; CheckCreds.AStr (shown (CheckCreds.SERIAL e))];
        CheckCreds.Console LLog [CheckCreds.AStr ""] ] /\
    (exists rest,
        events (CheckCreds.main w)
        = (CheckCreds.environmentSummary e ++ rest)%list) /\
    existsb CheckCreds.isFileAccess (CheckCreds.environmentSummary e) = false /\
    (forall gac serial key1 key2,
        JsString.truthy key1 = true -> JsString.truthy key2 = true ->
        CheckCreds.environmentSummary
          {| CheckCreds.GOOGLE_APPLICATION_CREDENTIALS := gac;
             CheckCreds.GEMINI_API_KEY := Some key1;
             CheckCreds.SERIAL := serial |}
        = CheckCreds.environmentSummary
            {| CheckCreds.GOOGLE_APPLICATION_CREDENTIALS := gac;
               CheckCreds.GEMINI_API_KEY := Some key2;
               CheckCreds.SERIAL := serial |} /\
        CheckCreds.environmentSummary
          {| CheckCreds.GOOGLE_APPLICATION_CREDENTIALS := gac;
             CheckCreds.GEMINI_API_KEY := Some key1;
             CheckCreds.SERIAL := serial |}
        <> CheckCreds.environmentSummary
             {| CheckCreds.GOOGLE_APPLICATION_CREDENTIALS := gac;
                CheckCreds.GEMINI_API_KEY := None;
                CheckCreds.SERIAL := serial |}) /\
    (forall gac err,
        truthyFilename (CheckCreds.GOOGLE_APPLICATION_CREDENTIALS e)
        = Some gac ->
        isErrorObject err = true ->
        let report :=
          CheckCreds.Console LError
            [CheckCreds.AStr
               "Could not read/parse GOOGLE_APPLICATION_CREDENTIALS file:";
             CheckCreds.AMessage err] in
        (CheckCreds.fs_readFileSync w gac "utf8" = Throw err ->
         events (CheckCreds.main w)
         = (CheckCreds.environmentSummary e
            ++ [CheckCreds.ReadFile gac; report]
            ++ CheckCreds.usageHint)%list /\
         count CheckCreds.isErrorLine (events (CheckCreds.main w)) = 1 /\
         outcome (CheckCreds.main w) = Ok tt) /\
        (forall raw,
            CheckCreds.fs_readFileSync w gac "utf8" = Ok raw ->
            CheckCreds.JSON_parse w raw = Throw err ->
            events (CheckCreds.main w)
            = (CheckCreds.environmentSummary e
               ++ [CheckCreds.ReadFile gac; CheckCreds.ParseJson raw; report]
               ++ CheckCreds.usageHint)%list /\
            count CheckCreds.isErrorLine (events (CheckCreds.main w)) = 1 /\
            outcome (CheckCreds.main w) = Ok tt)) /\
    (CheckCreds.builtinsRaiseErrors w -> outcome (CheckCreds.main w) = Ok tt).
Proof.
  intros w e shown present.
  split; [|split; [|split; [|split; [|split]]]].
  - unfold CheckCreds.environmentSummary, CheckCreds.orElse, truthyFilename.
    destruct (CheckCreds.GOOGLE_APPLICATION_CREDENTIALS e) as [[|c1 s1]|];
      destruct (CheckCreds.GEMINI_API_KEY e) as [[|c2 s2]|];
      destruct (CheckCreds.SERIAL e) as [[|c3 s3]|]; reflexivity.
  - rewrite main_events_parts. eexists. reflexivity.
  - reflexivity.
  - intros gac serial key1 key2 H1 H2.
    unfold CheckCreds.environmentSummary, truthyFilename.
    cbn [CheckCreds.GEMINI_API_KEY]. rewrite H1, H2.
    split; [reflexivity | discriminate].
  - intros gac err Hgac Herr report.
    assert (Hinspect :
      forall evs,
        CheckCreds.inspectFile w = ((evs ++ [report])%list, Ok tt) ->
        count CheckCreds.isErrorLine evs = 0 ->
        events (CheckCreds.main w)
        = (CheckCreds.environmentSummary e ++ (evs ++ [report])
           ++ CheckCreds.usageHint)%list /\
        count CheckCreds.isErrorLine (events (CheckCreds.main w)) = 1 /\
        outcome (CheckCreds.main w) = Ok tt).
    { intros evs E Hevs. rewrite main_outcome, main_events_parts, E.
      cbn [events outcome fst snd].
      split; [reflexivity|]. split; [|reflexivity].
      unfold count in *. rewrite !filter_app, !length_app, Hevs.
      reflexivity. }
    unfold CheckCreds.inspectFile in Hinspect. fold e in Hinspect.
    rewrite Hgac in Hinspect.
    unfold CheckCreds.readAndSummarise, CheckCreds.reportFailure in Hinspect.
    split.
    + intros Hread. rewrite Hread in Hinspect.
      apply (Hinspect [CheckCreds.ReadFile gac]); [|reflexivity].
      now destruct err.
    + intros raw Hread Hparse. rewrite Hread in Hinspect.
      cbn [lift bindM tryCatch emit ret fst snd app] in Hinspect.
      rewrite Hparse in Hinspect.
      apply (Hinspect [CheckCreds.ReadFile gac; CheckCreds.ParseJson raw]);
        [|reflexivity].
      now destruct err.
  - intros Hbuiltins. rewrite main_outcome. now apply inspectFile_returns.
Qed.

Lemma inspector_reports_failure_witness :
  events (CheckCreds.main Samples.missingFileWorld)
  = (CheckCreds.environmentSummary (CheckCreds.env Samples.missingFileWorld)
     ++ [CheckCreds.ReadFile "/no/such.json";
         CheckCreds.Console LError
           [CheckCreds.AStr
              "Could not read/parse GOOGLE_APPLICATION_CREDENTIALS file:";
            CheckCreds.AMessage
              (ExternalError "ENOENT: no such file or directory")]]
     ++ CheckCreds.usageHint)%list /\
  events (CheckCreds.main Samples.malformedFileWorld)
  = (CheckCreds.environmentSummary (CheckCreds.env Samples.malformedFileWorld)
     ++ [CheckCreds.ReadFile "creds.json";
         CheckCreds.ParseJson "{oops";
         CheckCreds.Console LError
           [CheckCreds.AStr
              "Could not read/parse GOOGLE_APPLICATION_CREDENTIALS file:";
            CheckCreds.AMessage
              (ExternalError "Unexpected token o in JSON at position 1")]]
     ++ CheckCreds.usageHint)%list /\
  CheckCreds.builtinsRaiseErrors Samples.malformedFileWorld /\
  outcome (CheckCreds.main Samples.malformedFileWorld) = Ok tt /\
  CheckCreds.environmentSummary (CheckCreds.env Samples.missingFileWorld)
  = [ CheckCreds.Console LLog
        [CheckCreds.AStr "--- Environment variables ---"];
      CheckCreds.Console LLog
        [CheckCreds.AStr "GOOGLE_APPLICATION_CREDENTIALS =";
         CheckCreds.AStr "/no/such.json"];
      CheckCreds.Console LLog
        [CheckCreds.AStr "GEMINI_API_KEY present ="; CheckCreds.AStr "YES"];
      CheckCreds.Console LLog
        [CheckCreds.AStr "SERIAL ="; CheckCreds.AStr "(not set)"];
      CheckCreds.Console LLog [CheckCreds.AStr ""] ].
Proof.
  destruct (inspector_reports_failure Samples.missingFileWorld)
    as (Hsummary & _ & _ & _ & Hmissing & _).
  destruct (inspector_reports_failure Samples.malformedFileWorld)
    as (_ & _ & _ & _ & Hmalformed & Hends).
  assert (Hbuiltins : CheckCreds.builtinsRaiseErrors Samples.malformedFileWorld)
    by (split; reflexivity).
  split; [|split; [|split; [|split]]].
  - apply (proj1 (Hmissing "/no/such.json"
                    (ExternalError "ENOENT: no such file or directory")
                    eq_refl eq_refl)).
    reflexivity.
  - apply (proj2 (Hmalformed "creds.json"
                    (ExternalError "Unexpected token o in JSON at position 1")
                    eq_refl eq_refl) "{oops");
      reflexivity.
  - exact Hbuiltins.
  - exact (Hends Hbuiltins).
  - exact Hsummary.
Defined.

(** * Worked examples of filename resolution *)
(* ================================================================== *)

Example resolve_every_placeholder :
  Generate.resolveFileName (Some "a_{timestamp}_b{timestamp}.PNG") 0 42
  = "a_42_b42.jpg".
Proof. vm_compute. reflexivity. Qed.

Example resolve_trailing_dot :
  Generate.resolveFileName (Some "name.") 0 42 = "name..jpg".
Proof. vm_compute. reflexivity. Qed.

Example resolve_no_extension :
  GenerateSerial.resolveFileName "run1" (Some "leer") 7 42 = "run1_leer.jpg".
Proof. vm_compute. reflexivity. Qed.

Example resolve_hidden_file :
  Generate.resolveFileName (Some ".png") 0 42 = ".jpg".
Proof. vm_compute. reflexivity. Qed.

Example resolve_generate_prompts :
  map (fun e => Generate.resolveFileName (Generate.requestedFilenameOf e) 1 5)
      Generate.IMAGE_PROMPTS
  = ["image_2_5.jpg"; "image_2_5.jpg"].
Proof. vm_compute. reflexivity. Qed.

(* ================================================================== *)
(** * More on names: the placeholder, the extension, collisions *)
(* ================================================================== *)

Section Names.

Lemma prefix_cons (a b : ascii) (p s : string) :
  String.prefix (String a p) (String b s) = Ascii.eqb a b && String.prefix p s.
Proof.
  simpl. destruct (ascii_dec a b) as [->|N].
  - now rewrite Ascii.eqb_refl.
  - apply Ascii.eqb_neq in N. now rewrite N.
Qed.

Lemma prefix_empty (p : string) : String.prefix p "" = true -> p = "".
Proof. destruct p; [reflexivity | discriminate]. Qed.

(** A pattern without the character [z] that starts [x ++ z :: y] lies
    within [x]. *)
Lemma prefix_before_separator (z : ascii) (q : string) :
  hasChar z q = false ->
  forall x y, String.prefix q (x ++ String z y) = true -> String.prefix q x = true.
Proof.
  induction q as [|c q IH]; intros Hz x y H.
  - destruct x; reflexivity.
  - simpl in Hz. apply orb_false_iff in Hz. destruct Hz as [Hc Hq].
    destruct x as [|a x].
    + simpl append in H. rewrite prefix_cons in H.
      apply andb_true_iff in H. destruct H as [H _]. congruence.
    + simpl append in H. rewrite prefix_cons in H |- *.
      apply andb_true_iff in H. destruct H as [Ha H].
      rewrite Ha. simpl. now apply (IH Hq x y).
Qed.

Lemma prefix_app_r (p a b : string) :
  String.prefix p a = true -> String.prefix p (a ++ b) = true.
Proof.
  revert a. induction p as [|c p IH]; intros a H.
  - destruct (a ++ b); reflexivity.
  - destruct a as [|x a]; [discriminate|].
    simpl append. rewrite prefix_cons in H |- *.
    apply andb_true_iff in H. destruct H as [Hc H].
    rewrite Hc. simpl. now apply IH.
Qed.

Lemma includes_cons (c : ascii) (s sub : string) :
  includes (String c s) sub = String.prefix sub (String c s) || includes s sub.
Proof. reflexivity. Qed.

(** An occurrence in a prefix is an occurrence in the whole. *)
Lemma includes_app_l (a b sub : string) :
  includes (a ++ b) sub = false -> includes a sub = false.
Proof.
  induction a as [|c a IH]; intros H.
  - destruct sub; [destruct b; discriminate | reflexivity].
  - simpl append in H. rewrite includes_cons in H |- *.
    apply orb_false_iff in H. destruct H as [Hp Hi].
    rewrite (IH Hi), orb_false_r.
    destruct (String.prefix sub (String c a)) eqn:E; [|reflexivity].
    apply (prefix_app_r _ _ b) in E. simpl append in E. congruence.
Qed.

(** Across a separator that the pattern does not hold, there is no
    occurrence but in the two parts. *)
Lemma includes_separated (z : ascii) (c : ascii) (q a b : string) :
  hasChar z (String c q) = false ->
  includes a (String c q) = false ->
  includes (String z b) (String c q) = false ->
  includes (a ++ String z b) (String c q) = false.
Proof.
  intros Hz Ha Hb. induction a as [|x a IH].
  - exact Hb.
  - simpl append. rewrite includes_cons in Ha |- *.
    apply orb_false_iff in Ha. destruct Ha as [Hp Hi].
    rewrite (IH Hi), orb_false_r.
    destruct (String.prefix (String c q) (String x (a ++ String z b))) eqn:E;
      [|reflexivity].
    change (String x (a ++ String z b)) with (String x a ++ String z b) in E.
    apply (prefix_before_separator z _ Hz) in E. congruence.
Qed.

(** ** The decimal digits of a number *)

Lemma string_of_uint_digits (d : Decimal.uint) :
  allDigits (NilEmpty.string_of_uint d) = true.
Proof. induction d; simpl; auto. Qed.

Lemma decimal_digits (n : N) : allDigits (decimal n) = true.
Proof.
  unfold decimal, NilZero.string_of_uint.
  destruct (N.to_uint n); try apply string_of_uint_digits. reflexivity.
Qed.

Lemma decimal_not_empty (n : N) : decimal n <> "".
Proof.
  unfold decimal, NilZero.string_of_uint.
  destruct (N.to_uint n); simpl; discriminate.
Qed.

Lemma to_uint_not_nil (n : N) : N.to_uint n <> Decimal.Nil.
Proof.
  destruct n as [|p]; [discriminate|]. apply DecimalPos.Unsigned.to_uint_nonnil.
Qed.

Lemma decimal_injective (n m : N) : decimal n = decimal m -> n = m.
Proof.
  unfold decimal, NilZero.string_of_uint. intros H.
  pose proof (to_uint_not_nil n) as Hn. pose proof (to_uint_not_nil m) as Hm.
  apply DecimalN.Unsigned.to_uint_inj.
  assert (E : NilEmpty.string_of_uint (N.to_uint n)
              = NilEmpty.string_of_uint (N.to_uint m)).
  { destruct (N.to_uint n); destruct (N.to_uint m); try congruence. }
  assert (E' : NilEmpty.uint_of_string (NilEmpty.string_of_uint (N.to_uint n))
               = NilEmpty.uint_of_string (NilEmpty.string_of_uint (N.to_uint m)))
    by now rewrite E.
  rewrite !NilEmpty.usu in E'. now injection E'.
Qed.

Lemma allDigits_hasChar (c : ascii) (s : string) :
  isDigit c = false -> allDigits s = true -> hasChar c s = false.
Proof.
  intros Hc. induction s as [|x s IH]; simpl; intros H; [reflexivity|].
  apply andb_true_iff in H. destruct H as [Hx Hs].
  rewrite (IH Hs), orb_false_r.
  destruct (Ascii.eqb x c) eqn:E; [|reflexivity].
  apply Ascii.eqb_eq in E. congruence.
Qed.

End Names.

Section Placeholder.

Variable rep : string.
Hypothesis rep_digits : allDigits rep = true.
Hypothesis rep_not_empty : rep <> "".

(** What the output of the replacement starts with, as far as it holds no
    digit, the input starts with. *)
Lemma replaceAll_prefix (q : string) :
  noDigits q = true ->
  forall r, String.prefix q (replaceAllFrom placeholder rep 0 r) = true ->
            String.prefix q r = true.
Proof.
  induction q as [|x q IH]; intros Hq r H.
  - destruct r; reflexivity.
  - simpl in Hq. apply andb_true_iff in Hq. destruct Hq as [Hx Hq].
    destruct r as [|c r]; [discriminate|].
    cbn [replaceAllFrom] in H.
    destruct (String.prefix placeholder (String c r)) eqn:E.
    + destruct rep as [|d rep'] eqn:Erep; [congruence|].
      simpl append in H. rewrite prefix_cons in H.
      apply andb_true_iff in H. destruct H as [H _].
      apply Ascii.eqb_eq in H. subst d.
      simpl in rep_digits. apply andb_true_iff in rep_digits.
      destruct rep_digits as [Hd _]. rewrite Hd in Hx. discriminate.
    + rewrite prefix_cons in H |- *.
      apply andb_true_iff in H. destruct H as [Hc H].
      rewrite Hc. simpl. now apply IH.
Qed.

Lemma includes_digits_app (d t : string) :
  allDigits d = true ->
  includes t placeholder = false ->
  includes (d ++ t) placeholder = false.
Proof.
  intros Hd Ht. induction d as [|c d IH]; [exact Ht|].
  simpl in Hd. apply andb_true_iff in Hd. destruct Hd as [Hc Hd].
  simpl append. rewrite includes_cons, (IH Hd), orb_false_r.
  unfold placeholder. rewrite prefix_cons.
  destruct (Ascii.eqb "{" c) eqn:E; [|reflexivity].
  apply Ascii.eqb_eq in E. subst c. discriminate.
Qed.

Lemma replaceAllFrom_no_placeholder (s : string) :
  forall skip,
    includes (replaceAllFrom placeholder rep skip s) placeholder = false.
Proof.
  induction s as [|c s IH]; intros skip; [reflexivity|].
  cbn [replaceAllFrom]. destruct skip as [|k]; [|apply IH].
  destruct (String.prefix placeholder (String c s)) eqn:E.
  - apply includes_digits_app; [exact rep_digits | apply IH].
  - rewrite includes_cons, IH, orb_false_r.
    destruct (String.prefix placeholder
                (String c (replaceAllFrom placeholder rep 0 s))) eqn:E';
      [|reflexivity].
    unfold placeholder in E, E'. rewrite prefix_cons in E, E'.
    apply andb_true_iff in E'. destruct E' as [Hc Hrest].
    apply replaceAll_prefix in Hrest; [|reflexivity].
    rewrite Hc, Hrest in E. discriminate.
Qed.

(** Without an occurrence the replacement changes nothing. *)
Lemma replaceAll_no_occurrence (s : string) :
  includes s placeholder = false -> replaceAllFrom placeholder rep 0 s = s.
Proof.
  induction s as [|c s IH]; intros H; [reflexivity|].
  rewrite includes_cons in H. apply orb_false_iff in H. destruct H as [Hp Hi].
  cbn [replaceAllFrom]. rewrite Hp, (IH Hi). reflexivity.
Qed.

Lemma includes_occurrence (a b : string) :
  includes (a ++ placeholder ++ b) placeholder = true.
Proof.
  induction a as [|c a IH].
  - pose proof (prefix_app placeholder b) as P.
    unfold placeholder in *. simpl append in *.
    rewrite includes_cons, P. reflexivity.
  - change (String c a ++ placeholder ++ b)
      with (String c (a ++ placeholder ++ b)).
    rewrite includes_cons, IH. apply orb_true_r.
Qed.

(** The leftmost occurrence is replaced and the scan goes on behind it. *)
Lemma replaceAll_leftmost (a b : string) :
  includes a placeholder = false ->
  replaceAllFrom placeholder rep 0 (a ++ placeholder ++ b)
  = a ++ rep ++ replaceAllFrom placeholder rep 0 b.
Proof.
  induction a as [|c a IH]; intros H.
  - unfold placeholder. destruct b; reflexivity.
  - rewrite includes_cons in H. apply orb_false_iff in H. destruct H as [Hp Hi].
    change (String c a ++ placeholder ++ b)
      with (String c (a ++ placeholder ++ b)).
    change (String c a ++ rep ++ replaceAllFrom placeholder rep 0 b)
      with (String c (a ++ rep ++ replaceAllFrom placeholder rep 0 b)).
    cbn [replaceAllFrom].
    destruct (String.prefix placeholder (String c (a ++ placeholder ++ b)))
      eqn:E.
    + exfalso.
      change (a ++ placeholder ++ b)
        with (a ++ String "{" ("timestamp}" ++ b)) in E.
      unfold placeholder in E, Hp. rewrite prefix_cons in E, Hp.
      apply andb_true_iff in E. destruct E as [Hc Hrest].
      apply (prefix_before_separator "{" "timestamp}" eq_refl) in Hrest.
      rewrite Hc, Hrest in Hp. discriminate.
    + now rewrite (IH Hi).
Qed.

End Placeholder.

Section NamesResolved.

Lemma stripExtension_tail (s : string) :
  exists tail,
    s = stripExtension s ++ tail /\
    (tail = "" \/ exists ext, tail = "." ++ ext /\ isExtensionTail ext = true).
Proof.
  induction s as [|c s IH].
  - exists "". split; [reflexivity | now left].
  - cbn [stripExtension].
    destruct (Ascii.eqb c "." && isExtensionTail s) eqn:E.
    + apply andb_true_iff in E. destruct E as [Hc Hs].
      apply Ascii.eqb_eq in Hc. subst c.
      exists (String "." s). split; [reflexivity|]. right. now exists s.
    + destruct IH as (tail & Hs & Htail).
      exists tail. split; [|exact Htail]. simpl. now rewrite <- Hs.
Qed.

Lemma length_app_string (a b : string) :
  String.length (a ++ b) = String.length a + String.length b.
Proof. induction a as [|c a IH]; simpl; [reflexivity | now rewrite IH]. Qed.

Lemma ensureJpgExtension_no_placeholder (name : string) :
  includes name placeholder = false ->
  includes (ensureJpgExtension name) placeholder = false.
Proof.
  intros H. unfold ensureJpgExtension.
  destruct (negb (endsWith (toLowerCase name) ".jpg")); [|exact H].
  destruct (stripExtension_tail name) as (tail & Hname & _).
  rewrite Hname in H. apply includes_app_l in H.
  apply (includes_separated "." "{" "timestamp}" _ "jpg");
    [reflexivity | exact H | reflexivity].
Qed.

Lemma substituteTimestamp_no_placeholder (requested : string) (now : N) :
  includes (substituteTimestamp requested now) placeholder = false.
Proof.
  unfold substituteTimestamp. fold placeholder.
  destruct (includes requested placeholder) eqn:E; [|exact E].
  apply replaceAllFrom_no_placeholder;
    [apply decimal_digits | apply decimal_not_empty].
Qed.

Lemma ensureJpgExtension_truthy (name : string) :
  JsString.truthy (ensureJpgExtension name) = true.
Proof.
  pose proof (ensureJpgExtension_ends name) as H.
  destruct (ensureJpgExtension name); [discriminate | reflexivity].
Qed.

Lemma append_truthy_r (a b : string) :
  JsString.truthy b = true -> JsString.truthy (a ++ b) = true.
Proof. destruct a; [auto | reflexivity]. Qed.

Lemma prependSerial_truthy (SERIAL name : string) :
  JsString.truthy name = true ->
  JsString.truthy (GenerateSerial.prependSerial SERIAL name) = true.
Proof.
  intros H. unfold GenerateSerial.prependSerial.
  destruct (_ && _); [|exact H]. destruct SERIAL; reflexivity.
Qed.

Lemma prependSerial_no_placeholder (SERIAL name : string) :
  includes SERIAL placeholder = false ->
  includes name placeholder = false ->
  includes (GenerateSerial.prependSerial SERIAL name) placeholder = false.
Proof.
  intros HS Hn. unfold GenerateSerial.prependSerial.
  destruct (_ && _); [|exact Hn].
  apply (includes_separated "_" "{" "timestamp}" SERIAL name);
    [reflexivity | exact HS |].
  unfold placeholder in Hn. rewrite includes_cons, Hn. reflexivity.
Qed.

Lemma prependSerial_idempotent (SERIAL name : string) :
  GenerateSerial.prependSerial SERIAL (GenerateSerial.prependSerial SERIAL name)
  = GenerateSerial.prependSerial SERIAL name.
Proof.
  assert (P : startsWith (SERIAL ++ "_" ++ name) (SERIAL ++ "_") = true).
  { unfold startsWith. rewrite <- app_assoc_string. apply prefix_app. }
  unfold GenerateSerial.prependSerial.
  destruct (JsString.truthy SERIAL); cbn [andb]; [|reflexivity].
  destruct (startsWith name (SERIAL ++ "_")) eqn:E; cbn [negb].
  - now rewrite E.
  - now rewrite P.
Qed.

End NamesResolved.

(** X1: every occurrence of the placeholder is replaced: neither the
    substituted template nor the name resolved from it, in either revision
    (for a run identifier that holds no placeholder itself), holds
    "{timestamp}" any more. *)
Theorem resolved_name_has_no_placeholder :
  forall (SERIAL requested : string) (i : nat) (now : N),
    JsString.truthy requested = true ->
    includes (substituteTimestamp requested now) "{timestamp}" = false /\
    includes (Generate.resolveFileName (Some requested) i now) "{timestamp}"
      = false /\
    (includes SERIAL "{timestamp}" = false ->
     includes (GenerateSerial.resolveFileName SERIAL (Some requested) i now)
       "{timestamp}" = false).
Proof.
  intros SERIAL requested i now Hreq.
  pose proof (substituteTimestamp_no_placeholder requested now) as Hsub.
  pose proof (ensureJpgExtension_no_placeholder _ Hsub) as Hfix.
  split; [exact Hsub|]. split.
  - unfold Generate.resolveFileName, truthyFilename. rewrite Hreq. exact Hfix.
  - intros HS. unfold GenerateSerial.resolveFileName, truthyFilename.
    rewrite Hreq. now apply prependSerial_no_placeholder.
Qed.

Lemma resolved_name_has_no_placeholder_witness :
  JsString.truthy "{timestamp}{timestamp}.png" = true /\
  Generate.resolveFileName (Some "{timestamp}{timestamp}.png") 0 7 = "77.jpg" /\
  includes (GenerateSerial.resolveFileName "run1"
              (Some "{timestamp}{timestamp}.png") 0 7) "{timestamp}" = false.
Proof.
  destruct (resolved_name_has_no_placeholder "run1"
              "{timestamp}{timestamp}.png" 0 7%N eq_refl) as (_ & _ & H).
  split; [reflexivity|]. split; [vm_compute; reflexivity|].
  apply H. reflexivity.
Defined.

(** X2: the substitution works from the left: a template whose part [a]
    before an occurrence holds no placeholder becomes [a], the timestamp in
    decimal, and the substituted rest; a template without placeholder is
    returned as it is. *)
Theorem substituteTimestamp_leftmost :
  forall (a b : string) (now : N),
    includes a "{timestamp}" = false ->
    substituteTimestamp (a ++ "{timestamp}" ++ b) now
    = a ++ decimal now ++ substituteTimestamp b now /\
    substituteTimestamp a now = a.
Proof.
  intros a b now Ha. split.
  - unfold substituteTimestamp at 1. fold placeholder.
    rewrite includes_occurrence. unfold replaceAll.
    rewrite (replaceAll_leftmost _ a b Ha). do 2 f_equal.
    unfold substituteTimestamp. fold placeholder.
    destruct (includes b placeholder) eqn:E; [reflexivity|].
    now apply replaceAll_no_occurrence.
  - unfold substituteTimestamp. now rewrite Ha.
Qed.

Lemma substituteTimestamp_leftmost_witness :
  includes "img-" "{timestamp}" = false /\
  substituteTimestamp ("img-" ++ "{timestamp}" ++ "-{timestamp}.png") 1700000000000
  = "img-1700000000000-1700000000000.png".
Proof.
  destruct (substituteTimestamp_leftmost "img-" "-{timestamp}.png"
              1700000000000%N eq_refl) as [H _].
  split; [reflexivity|]. rewrite H. vm_compute. reflexivity.
Defined.

(** X3: the regular expression of line 139 removes nothing but a last
    extension: what is cut off the end of the name is empty, or a dot
    followed by one or more characters none of which is a dot.  The name
    comes back unchanged exactly when it has no such extension. *)
Theorem stripExtension_removes_last_extension :
  forall s : string,
    (exists tail,
        s = stripExtension s ++ tail /\
        (tail = "" \/
         exists ext, tail = "." ++ ext /\ isExtensionTail ext = true)) /\
    (stripExtension s = s <->
     forall stem ext, s = stem ++ "." ++ ext -> isExtensionTail ext = false).
Proof.
  intros s. split; [apply stripExtension_tail|]. split.
  - intros Hsame stem ext Hs.
    destruct (isExtensionTail ext) eqn:E; [|reflexivity].
    rewrite Hs in Hsame. rewrite (stripExtension_split stem ext E) in Hsame.
    apply (f_equal String.length) in Hsame.
    rewrite length_app_string in Hsame. simpl in Hsame. lia.
  - apply stripExtension_none.
Qed.

Lemma stripExtension_removes_last_extension_witness :
  stripExtension "photo.final.png" = "photo.final" /\
  stripExtension "README" = "README" /\
  (forall stem ext, "README" = stem ++ "." ++ ext -> isExtensionTail ext = false).
Proof.
  destruct (stripExtension_removes_last_extension "README") as [_ H].
  split; [reflexivity|]. split; [reflexivity|]. apply H. reflexivity.
Defined.

Example stripExtension_samples :
  map stripExtension ["a.b.c"; "name."; ".png"; "plain"; "a.b/c"; "x..y"]
  = ["a.b"; "name."; ""; "plain"; "a"; "x."].
Proof. reflexivity. Qed.

Section ResolvedAgain.

Lemma default_tail_no_placeholder (now : N) :
  includes (decimal now ++ ".jpg") placeholder = false.
Proof. apply includes_digits_app; [apply decimal_digits | reflexivity]. Qed.

Lemma default_no_placeholder (i : nat) (now : N) :
  includes (Generate.resolveFileName None i now) placeholder = false.
Proof.
  unfold Generate.resolveFileName, truthyFilename.
  change (includes ("image_" ++ decimal (N.of_nat (i + 1)) ++ "_"
                      ++ decimal now ++ ".jpg") placeholder = false).
  cbn [append]. rewrite !includes_cons.
  cbn [String.prefix placeholder orb].
  repeat (match goal with
          | |- context [ascii_dec ?a ?b] => destruct (ascii_dec a b); [discriminate|]
          end).
  cbn [orb].
  apply includes_digits_app; [apply decimal_digits|].
  cbn [append]. rewrite includes_cons.
  unfold placeholder. rewrite prefix_cons. cbn [Ascii.eqb Bool.eqb andb orb].
  apply default_tail_no_placeholder.
Qed.

Lemma serial_default_no_placeholder (SERIAL : string) (i : nat) (now : N) :
  includes SERIAL placeholder = false ->
  includes (GenerateSerial.resolveFileName SERIAL None i now) placeholder
  = false.
Proof.
  intros HS.
  unfold GenerateSerial.resolveFileName, truthyFilename.
  change (includes ("image_" ++ decimal (N.of_nat (i + 1)) ++ "_"
                      ++ GenerateSerial.serialSegment SERIAL
                      ++ decimal now ++ ".jpg") placeholder = false).
  cbn [append]. rewrite !includes_cons.
  cbn [String.prefix placeholder orb].
  repeat (match goal with
          | |- context [ascii_dec ?a ?b] => destruct (ascii_dec a b); [discriminate|]
          end).
  cbn [orb].
  apply includes_digits_app; [apply decimal_digits|].
  cbn [append]. rewrite includes_cons.
  unfold placeholder at 1. rewrite prefix_cons.
  cbn [Ascii.eqb Bool.eqb andb orb].
  unfold GenerateSerial.serialSegment.
  destruct (JsString.truthy SERIAL); [|apply default_tail_no_placeholder].
  rewrite app_assoc_string. cbn [append].
  apply (includes_separated "_" "{" "timestamp}" SERIAL);
    [reflexivity | exact HS |].
  rewrite includes_cons.
  fold placeholder. unfold placeholder at 1. rewrite prefix_cons.
  cbn [Ascii.eqb Bool.eqb andb orb].
  apply default_tail_no_placeholder.
Qed.

Lemma resolveFileName_truthy (requested : option string) (i : nat) (now : N) :
  JsString.truthy (Generate.resolveFileName requested i now) = true.
Proof.
  unfold Generate.resolveFileName.
  destruct (truthyFilename requested);
    [apply ensureJpgExtension_truthy | reflexivity].
Qed.

Lemma serial_resolveFileName_truthy (SERIAL : string)
    (requested : option string) (i : nat) (now : N) :
  JsString.truthy (GenerateSerial.resolveFileName SERIAL requested i now)
  = true.
Proof.
  unfold GenerateSerial.resolveFileName.
  destruct (truthyFilename requested);
    [apply prependSerial_truthy, ensureJpgExtension_truthy | reflexivity].
Qed.

Lemma resolveFileName_no_placeholder (requested : option string) (i : nat)
    (now : N) :
  includes (Generate.resolveFileName requested i now) placeholder = false.
Proof.
  destruct (truthyFilename requested) as [r|] eqn:E.
  - unfold Generate.resolveFileName. rewrite E.
    apply ensureJpgExtension_no_placeholder,
      substituteTimestamp_no_placeholder.
  - replace (Generate.resolveFileName requested i now)
      with (Generate.resolveFileName None i now)
      by (unfold Generate.resolveFileName; now rewrite E).
    apply default_no_placeholder.
Qed.

Lemma serial_resolveFileName_no_placeholder (SERIAL : string)
    (requested : option string) (i : nat) (now : N) :
  includes SERIAL placeholder = false ->
  includes (GenerateSerial.resolveFileName SERIAL requested i now) placeholder
  = false.
Proof.
  intros HS. destruct (truthyFilename requested) as [r|] eqn:E.
  - unfold GenerateSerial.resolveFileName. rewrite E.
    apply prependSerial_no_placeholder; [exact HS|].
    apply ensureJpgExtension_no_placeholder,
      substituteTimestamp_no_placeholder.
  - replace (GenerateSerial.resolveFileName SERIAL requested i now)
      with (GenerateSerial.resolveFileName SERIAL None i now)
      by (unfold GenerateSerial.resolveFileName; now rewrite E).
    now apply serial_default_no_placeholder.
Qed.

Lemma resolveFileName_lower_ends (requested : option string) (i : nat)
    (now : N) :
  endsWith (toLowerCase (Generate.resolveFileName requested i now)) ".jpg"
  = true.
Proof.
  unfold Generate.resolveFileName. destruct (truthyFilename requested).
  - apply ensureJpgExtension_ends.
  - rewrite !toLowerCase_app. do 4 apply endsWith_app. apply endsWith_refl.
Qed.

Lemma serial_resolveFileName_lower_ends (SERIAL : string)
    (requested : option string) (i : nat) (now : N) :
  endsWith (toLowerCase (GenerateSerial.resolveFileName SERIAL requested i now))
           ".jpg" = true.
Proof.
  unfold GenerateSerial.resolveFileName. destruct (truthyFilename requested).
  - apply prependSerial_ends, ensureJpgExtension_ends.
  - rewrite !toLowerCase_app. do 5 apply endsWith_app. apply endsWith_refl.
Qed.

(** A name that is not empty, holds no placeholder and ends in ".jpg" goes
    through substitution and extension as it is. *)
Lemma resolved_again (name : string) (now : N) :
  includes name placeholder = false ->
  endsWith (toLowerCase name) ".jpg" = true ->
  ensureJpgExtension (substituteTimestamp name now) = name.
Proof.
  intros Hp He. unfold substituteTimestamp. fold placeholder. rewrite Hp.
  unfold ensureJpgExtension. now rewrite He.
Qed.

End ResolvedAgain.

(** X4: resolving a resolved name again.  In [generate.js] every resolved
    name, requested or default, is a fixed point of the resolver: given back
    as the template of any entry at any time, it resolves to itself.  In the
    revision with a run identifier (one that holds no placeholder) a resolved
    name goes through substitution and extension as it is, and only the
    prefix rule is applied to it: a name resolved from a requested template
    resolves to itself, and so does a default name when the run identifier is
    empty; a default name under a run identifier is in general no fixed
    point: [image_1_run1_5.jpg] under [run1] resolves to
    [run1_image_1_run1_5.jpg]. *)
Theorem resolveFileName_fixed_point :
  forall (SERIAL : string) (requested : option string) (i j : nat)
         (now later : N),
    (let name := Generate.resolveFileName requested i now in
     Generate.resolveFileName (Some name) j later = name) /\
    (includes SERIAL "{timestamp}" = false ->
     let name := GenerateSerial.resolveFileName SERIAL requested i now in
     GenerateSerial.resolveFileName SERIAL (Some name) j later
     = GenerateSerial.prependSerial SERIAL name /\
     (truthyFilename requested <> None \/ SERIAL = "" ->
      GenerateSerial.resolveFileName SERIAL (Some name) j later = name)) /\
    GenerateSerial.resolveFileName "run1" None 0 5 = "image_1_run1_5.jpg" /\
    GenerateSerial.resolveFileName "run1" (Some "image_1_run1_5.jpg") 0 5
    = "run1_image_1_run1_5.jpg".
Proof.
  intros SERIAL requested i j now later.
  split; [|split; [|split; vm_compute; reflexivity]].
  - cbv zeta. set (name := Generate.resolveFileName requested i now).
    unfold Generate.resolveFileName at 1. unfold truthyFilename.
    unfold name at 1. rewrite resolveFileName_truthy. fold name.
    apply resolved_again;
      [apply resolveFileName_no_placeholder | apply resolveFileName_lower_ends].
  - intros HS. cbv zeta.
    set (name := GenerateSerial.resolveFileName SERIAL requested i now).
    assert (E : GenerateSerial.resolveFileName SERIAL (Some name) j later
                = GenerateSerial.prependSerial SERIAL name).
    { unfold GenerateSerial.resolveFileName at 1. unfold truthyFilename.
      unfold name at 1. rewrite serial_resolveFileName_truthy. fold name.
      cbv zeta. f_equal. apply resolved_again.
      - now apply serial_resolveFileName_no_placeholder.
      - apply serial_resolveFileName_lower_ends. }
    split; [exact E|]. rewrite E. intros [Hreq| ->].
    + subst name. unfold GenerateSerial.resolveFileName.
      destruct (truthyFilename requested); [|congruence].
      apply prependSerial_idempotent.
    + reflexivity.
Qed.

Lemma resolveFileName_fixed_point_witness :
  includes "run1" "{timestamp}" = false /\
  GenerateSerial.resolveFileName "run1" (Some "ruler.{timestamp}.png") 0 5
  = "run1_ruler.5.jpg" /\
  GenerateSerial.resolveFileName "run1" (Some "run1_ruler.5.jpg") 3 9
  = "run1_ruler.5.jpg" /\
  Generate.resolveFileName (Some "image_1_5.jpg") 3 9 = "image_1_5.jpg".
Proof.
  destruct (resolveFileName_fixed_point "run1" (Some "ruler.{timestamp}.png")
              0 3 5%N 9%N) as (_ & H & _).
  destruct (resolveFileName_fixed_point "run1" None 0 3 5%N 9%N)
    as (Hdefault & _).
  destruct (H eq_refl) as (_ & Hfixed).
  cbv zeta in Hfixed, Hdefault.
  assert (E : GenerateSerial.resolveFileName "run1"
                (Some "ruler.{timestamp}.png") 0 5 = "run1_ruler.5.jpg")
    by (vm_compute; reflexivity).
  assert (D : Generate.resolveFileName None 0 5 = "image_1_5.jpg")
    by (vm_compute; reflexivity).
  rewrite E in Hfixed. rewrite D in Hdefault.
  split; [reflexivity|]. split; [exact E|].
  split; [apply Hfixed; left; discriminate | exact Hdefault].
Defined.

Section Collisions.

Lemma split_at_separator (z : ascii) (a b x y : string) :
  hasChar z a = false -> hasChar z b = false ->
  a ++ String z x = b ++ String z y -> a = b /\ x = y.
Proof.
  revert b. induction a as [|c a IH]; intros b Ha Hb H.
  - destruct b as [|d b].
    + simpl in H. injection H as H. now split.
    + simpl in H. injection H as Hd _. subst d.
      simpl in Hb. now rewrite Ascii.eqb_refl in Hb.
  - simpl in Ha. apply orb_false_iff in Ha. destruct Ha as [Hc Ha].
    destruct b as [|d b].
    + simpl in H. injection H as Hd _. subst c.
      now rewrite Ascii.eqb_refl in Hc.
    + simpl in Hb. apply orb_false_iff in Hb. destruct Hb as [_ Hb].
      simpl in H. injection H as Hd H. subst d.
      destruct (IH b Ha Hb H) as [-> ->]. now split.
Qed.

Lemma append_cancel_l (p a b : string) : p ++ a = p ++ b -> a = b.
Proof.
  induction p as [|c p IH]; simpl; intros H; [exact H|].
  injection H as H. now apply IH.
Qed.

Lemma decimal_no_char (c : ascii) (n : N) :
  isDigit c = false -> hasChar c (decimal n) = false.
Proof. intros Hc. apply allDigits_hasChar; [exact Hc | apply decimal_digits]. Qed.

Lemma default_name_injective (segment : string) (i j : nat) (now later : N) :
  "image_" ++ decimal (N.of_nat (i + 1)) ++ "_" ++ segment ++ decimal now ++ ".jpg"
  = "image_" ++ decimal (N.of_nat (j + 1)) ++ "_" ++ segment ++ decimal later
      ++ ".jpg" ->
  i = j /\ now = later.
Proof.
  intros H. apply (append_cancel_l "image_") in H.
  apply (split_at_separator "_") in H;
    [|now apply decimal_no_char | now apply decimal_no_char].
  destruct H as [Hi H]. apply decimal_injective in Hi.
  apply append_cancel_l in H.
  apply (split_at_separator ".") in H;
    [|now apply decimal_no_char | now apply decimal_no_char].
  destruct H as [Hn _]. apply decimal_injective in Hn.
  split; [lia | exact Hn].
Qed.

End Collisions.

(** X5: default names do not collide: without a filename template, two
    entries get the same name only if they have the same index and are saved
    in the same millisecond, in either revision and whatever the run
    identifier. *)
Theorem default_names_distinct :
  forall (SERIAL : string) (requested requested' : option string)
         (i j : nat) (now later : N),
    truthyFilename requested = None ->
    truthyFilename requested' = None ->
    (Generate.resolveFileName requested i now
     = Generate.resolveFileName requested' j later ->
     i = j /\ now = later) /\
    (GenerateSerial.resolveFileName SERIAL requested i now
     = GenerateSerial.resolveFileName SERIAL requested' j later ->
     i = j /\ now = later).
Proof.
  intros SERIAL requested requested' i j now later H H'.
  unfold Generate.resolveFileName, GenerateSerial.resolveFileName.
  rewrite H, H'. split.
  - apply (default_name_injective "").
  - apply (default_name_injective (GenerateSerial.serialSegment SERIAL)).
Qed.

Lemma default_names_distinct_witness :
  truthyFilename (Some "") = None /\
  (GenerateSerial.resolveFileName "run_1" (Some "") 0 12
   = GenerateSerial.resolveFileName "run_1" None 0 12 ->
   0 = 0 /\ 12%N = 12%N) /\
  Generate.resolveFileName None 0 12 <> Generate.resolveFileName None 1 12.
Proof.
  destruct (default_names_distinct "run_1" (Some "") None 0 0 12 12
              eq_refl eq_refl) as [_ H].
  destruct (default_names_distinct "run_1" None None 0 1 12 12
              eq_refl eq_refl) as [H' _].
  split; [reflexivity|]. split; [exact H|].
  intros E. destruct (H' E) as [E' _]. discriminate.
Defined.

(* ================================================================== *)
(** * More on the search and the extractor *)
(* ================================================================== *)

Section Reach.

Variable h : heap.

Lemma lookup_in_keys (props : list (string * value)) (key : string) :
  lookup props key <> VUndefined -> In key (keys props).
Proof.
  induction props as [|[k v] rest IH]; simpl; intros H; [congruence|].
  destruct (String.eqb_spec k key) as [->|N]; [now left | right; now apply IH].
Qed.

(** A property that is there is a node below the object. *)
Lemma prop_child (v c : value) (key : string) :
  prop h v key = c -> c <> VUndefined -> child h v c.
Proof.
  unfold prop, child, children. intros H Hc.
  destruct v as [| |b|n|s|l]; try congruence.
  destruct (deref h l) as [items|props]; [congruence|].
  subst c. apply in_map. now apply lookup_in_keys.
Qed.

Lemma elementZero_child (v : value) (l : loc) :
  elementZero h v = VRef l -> child h v (VRef l).
Proof.
  unfold elementZero, child, children.
  destruct v as [| |b|n|s|l']; try discriminate.
  - destruct s; discriminate.
  - destruct (deref h l') as [items|props].
    + destruct items as [|x items]; simpl; [discriminate|].
      intros ->. now left.
    + intros H. rewrite <- H. apply in_map.
      apply lookup_in_keys. rewrite H. discriminate.
Qed.

Lemma asArray_child (v c : value) (items : list value) :
  asArray h v = Some items -> In c items -> child h v c.
Proof.
  unfold asArray, child, children.
  destruct v as [| |b|n|s|l]; try discriminate.
  destruct (deref h l); [|discriminate]. now intros [= ->].
Qed.

Lemma asArray_ref (v : value) (items : list value) :
  asArray h v = Some items -> exists l, v = VRef l.
Proof.
  destruct v as [| |b|n|s|l]; try discriminate. now exists l.
Qed.

Lemma prop_ref_parent (v : value) (key : string) (l : loc) :
  prop h v key = VRef l -> exists l', v = VRef l'.
Proof.
  destruct v as [| |b|n|s|l']; try discriminate. now exists l'.
Qed.

(** The part the expected location gives lies five levels below the
    response: [candidates], its first element, [content], [parts], the
    part. *)
Lemma directImagePart_within (response part : value) :
  directImagePart h response = Ok part -> truthy part = true ->
  within h 5 response part.
Proof.
  unfold directImagePart, expectedParts, getProp.
  destruct (nullish response); simpl; [discriminate|].
  set (candidates := prop h response "candidates").
  set (first := elementZero h candidates).
  set (content := prop h first "content").
  set (parts := prop h content "parts").
  intros Hfind Htruthy.
  destruct (nullish parts).
  { injection Hfind as <-. discriminate. }
  destruct (asArray h parts) as [items|] eqn:Earr; [|discriminate].
  pose proof (arrayFind_first h items part Hfind) as Hfirst.
  rewrite Htruthy in Hfirst. destruct Hfirst as (before & after & Hitems & _).
  destruct (asArray_ref _ _ Earr) as (lp & Hparts).
  destruct (prop_ref_parent content "parts" lp Hparts) as (lc & Hcontent).
  destruct (prop_ref_parent first "content" lc Hcontent) as (lf & Hfirst).
  assert (Hcand : candidates <> VUndefined).
  { intros E. unfold first in Hfirst. rewrite E in Hfirst. discriminate. }
  apply (within_below h 4 response candidates);
    [now apply (prop_child _ _ "candidates")|].
  apply (within_below h 3 candidates first).
  { rewrite Hfirst. apply elementZero_child. exact Hfirst. }
  apply (within_below h 2 first content).
  { apply (prop_child _ _ "content"); [reflexivity|]. rewrite Hcontent.
    discriminate. }
  apply (within_below h 1 content parts).
  { apply (prop_child _ _ "parts"); [reflexivity|]. rewrite Hparts.
    discriminate. }
  apply (within_below h 0 parts part); [|constructor].
  apply (asArray_child _ _ items Earr). rewrite Hitems.
  apply in_or_app. right. now left.
Qed.

End Reach.

(** X6: the depth contract at every depth: the structural search returns
    [null] exactly when no node within eight levels of the response carries
    an image payload; what it returns otherwise carries one and lies within
    eight levels. *)
Theorem findImagePart_sound_and_complete :
  forall (h : heap) (response : value),
    (findImagePart h response = VNull <->
     forall d other, d <= 8 -> within h d response other ->
                     hasImageData h other = false) /\
    (findImagePart h response <> VNull ->
     hasImageData h (findImagePart h response) = true /\
     exists d, d <= 8 /\ within h d response (findImagePart h response)).
Proof.
  intros h response.
  assert (Hsound : findImagePart h response <> VNull ->
            hasImageData h (findImagePart h response) = true /\
            exists d, d <= 8 /\ within h d response (findImagePart h response)).
  { rewrite findImagePart_preorder. unfold firstImageNode.
    destruct (find (hasImageData h) (preorder h 9 response)) as [x|] eqn:E;
      [|congruence].
    intros _. apply find_some in E. destruct E as [Hin Hdata].
    split; [exact Hdata|].
    destruct (preorder_within _ _ _ _ Hin) as (d & Hd & Hw).
    exists d. split; [lia | exact Hw]. }
  split; [|exact Hsound]. split.
  - intros Hnull d other Hd Hw.
    destruct (hasImageData h other) eqn:E; [|reflexivity].
    destruct (findImagePart_finds_within h d response other Hd Hw E) as [H _].
    rewrite Hnull in H. discriminate.
  - apply findImagePart_misses_beyond.
Qed.

Lemma findImagePart_sound_and_complete_witness :
  findImagePart (Samples.nestedResponse 8) (VRef 0) = VRef 8 /\
  hasImageData (Samples.nestedResponse 8) (VRef 8) = true /\
  exists d, d <= 8 /\
            within (Samples.nestedResponse 8) d (VRef 0)
                   (findImagePart (Samples.nestedResponse 8) (VRef 0)).
Proof.
  destruct (findImagePart_sound_and_complete (Samples.nestedResponse 8) (VRef 0))
    as [_ H].
  assert (E : findImagePart (Samples.nestedResponse 8) (VRef 0) = VRef 8)
    by reflexivity.
  split; [exact E|]. split; [reflexivity|].
  apply H. rewrite E. discriminate.
Defined.

(** X7: when the expected-location lookup raises nothing, the extraction
    succeeds exactly when some node within eight levels of the response
    carries an image payload; the part it gives then carries one and lies
    within eight levels. *)
Theorem locateImagePart_succeeds_iff :
  forall (h : heap) (response part : value),
    locateImagePart h response = Ok part ->
    (truthy part = true <->
     exists d node, d <= 8 /\ within h d response node /\
                    hasImageData h node = true) /\
    (truthy part = true ->
     hasImageData h part = true /\
     exists d, d <= 8 /\ within h d response part).
Proof.
  intros h response part Hlocate.
  assert (Hpart : truthy part = true ->
            hasImageData h part = true /\
            exists d, d <= 8 /\ within h d response part).
  { intros Htruthy.
    split; [now apply (locateImagePart_payload h response)|].
    unfold locateImagePart in Hlocate.
    destruct (directImagePart h response) as [direct|e] eqn:Edirect;
      simpl in Hlocate; [|discriminate].
    destruct (truthy direct) eqn:Ed; simpl in Hlocate; injection Hlocate as <-.
    - exists 5. split; [lia|]. now apply directImagePart_within.
    - rewrite findImagePart_preorder in *. unfold firstImageNode in *.
      destruct (find (hasImageData h) (preorder h 9 response)) as [x|] eqn:E;
        [|discriminate].
      apply find_some in E. destruct E as [Hin _].
      destruct (preorder_within _ _ _ _ Hin) as (d & Hd & Hw).
      exists d. split; [lia | exact Hw]. }
  split; [|exact Hpart]. split.
  - intros Htruthy. destruct (Hpart Htruthy) as (Hdata & d & Hd & Hw).
    now exists d, part.
  - intros (d & node & Hd & Hw & Hdata).
    destruct (findImagePart_finds_within h d response node Hd Hw Hdata)
      as [Hfound _].
    unfold locateImagePart in Hlocate.
    destruct (directImagePart h response) as [direct|e]; simpl in Hlocate;
      [|discriminate].
    destruct (truthy direct) eqn:Ed; simpl in Hlocate; injection Hlocate as <-.
    + exact Ed.
    + now apply hasImageData_truthy in Hfound.
Qed.

Lemma locateImagePart_succeeds_iff_witness :
  locateImagePart Samples.noCandidatesResponse (VRef 0) = Ok (VRef 3) /\
  hasImageData Samples.noCandidatesResponse (VRef 3) = true /\
  exists d, d <= 8 /\ within Samples.noCandidatesResponse d (VRef 0) (VRef 3).
Proof.
  destruct (locateImagePart_succeeds_iff Samples.noCandidatesResponse
              (VRef 0) (VRef 3) eq_refl) as [_ H].
  split; [reflexivity|]. exact (H eq_refl).
Defined.

(* ================================================================== *)
(** * The two revisions of the expected-location lookup *)
(* ================================================================== *)

Section Revisions.

Variable h : heap.

Lemma strict_partIsImage (part : value) (b : bool) :
  GenerateSerialLoop.partIsImage h part = Ok b -> partIsImage h part = Ok b.
Proof.
  unfold GenerateSerialLoop.partIsImage, partIsImage, getProp.
  destruct (nullish part); cbn [bind]; [discriminate|].
  destruct (prop h part "inlineData") as [| |b'|n|s|l] eqn:E; cbn [nullish];
    try (intros H; exact H).
  - destruct (prop h (VBool b') "mimeType"); intros H;
      try discriminate; exact H.
  - destruct (prop h (VNumber n) "mimeType"); intros H;
      try discriminate; exact H.
  - destruct (prop h (VString s) "mimeType"); intros H;
      try discriminate; exact H.
  - destruct (prop h (VRef l) "mimeType"); intros H;
      try discriminate; exact H.
Qed.

Lemma strict_arrayFind (items : list value) (v : value) :
  arrayFind (GenerateSerialLoop.partIsImage h) items = Ok v ->
  arrayFind (partIsImage h) items = Ok v.
Proof.
  induction items as [|item rest IH]; simpl; [auto|].
  destruct (GenerateSerialLoop.partIsImage h item) as [found|e] eqn:E;
    simpl; [|discriminate].
  rewrite (strict_partIsImage _ _ E). simpl.
  destruct found; [auto | exact IH].
Qed.

Lemma strict_directImagePart (response v : value) :
  GenerateSerialLoop.directImagePart h response = Ok v ->
  directImagePart h response = Ok v.
Proof.
  unfold GenerateSerialLoop.directImagePart, directImagePart, expectedParts,
    getProp.
  destruct (nullish response); cbn [bind]; [discriminate|].
  set (candidates := prop h response "candidates").
  destruct (nullish candidates); [discriminate|].
  set (first := elementZero h candidates).
  destruct (nullish first) eqn:Efirst.
  - intros H. injection H as <-.
    assert (E : prop h (prop h first "content") "parts" = VUndefined).
    { destruct first; try discriminate; reflexivity. }
    rewrite E. reflexivity.
  - destruct (nullish (prop h first "content")); cbn [bind]; [discriminate|].
    destruct (nullish (prop h (prop h first "content") "parts"));
      [discriminate|].
    destruct (asArray h _); [|discriminate].
    apply strict_arrayFind.
Qed.

End Revisions.

(** X8: the lookup of [src/generate.js] extends the one of the older
    revision: whenever the older lookup returns (a part or [undefined]), the
    newer one returns the same, and a part the older revision finds is the
    part the newer extractor gives.  The newer one also returns where the
    older one raises: a response without [candidates] makes the older lookup
    throw, and the newer extractor finds the image by its search. *)
Theorem lookup_refines_older_revision :
  (forall (h : heap) (response v : value),
      GenerateSerialLoop.directImagePart h response = Ok v ->
      directImagePart h response = Ok v /\
      (truthy v = true -> locateImagePart h response = Ok v) /\
      (truthy v = false ->
       locateImagePart h response = Ok (findImagePart h response))) /\
  GenerateSerialLoop.directImagePart Samples.noCandidatesResponse (VRef 0)
    = Throw TypeError /\
  locateImagePart Samples.noCandidatesResponse (VRef 0) = Ok (VRef 3).
Proof.
  split; [|split; reflexivity].
  intros h response v H. apply strict_directImagePart in H.
  split; [exact H|]. unfold locateImagePart. rewrite H. cbn [bind].
  split; intros ->; reflexivity.
Qed.

Lemma lookup_refines_older_revision_witness :
  GenerateSerialLoop.directImagePart Samples.expectedResponse (VRef 0)
    = Ok (VRef 5) /\
  locateImagePart Samples.expectedResponse (VRef 0) = Ok (VRef 5).
Proof.
  destruct (proj1 lookup_refines_older_revision Samples.expectedResponse
              (VRef 0) (VRef 5) eq_refl) as (_ & H & _).
  split; [reflexivity | exact (H eq_refl)].
Defined.

(* ================================================================== *)
(** * The diagnostic summary *)
(* ================================================================== *)

Section Summary.

Import Generate.

Variable h : heap.

Lemma partIsImage_not_nullish (part : value) (b : bool) :
  partIsImage h part = Ok b -> nullish part = false.
Proof.
  unfold partIsImage, getProp. destruct (nullish part); [discriminate | auto].
Qed.

(** When the lookup finds nothing in an array of parts, it has looked at
    every part, and none of them is [null] or [undefined]. *)
Lemma arrayFind_nothing (items : list value) (v : value) :
  arrayFind (partIsImage h) items = Ok v -> truthy v = false ->
  Forall (fun p => nullish p = false) items.
Proof.
  induction items as [|item rest IH]; simpl; intros H Hv; [constructor|].
  destruct (partIsImage h item) as [found|e] eqn:E; simpl in H; [|discriminate].
  constructor; [now apply (partIsImage_not_nullish _ found)|].
  destruct found; [|now apply IH].
  injection H as <-. apply partIsImage_hasImageData in E.
  apply hasImageData_truthy in E. congruence.
Qed.

Lemma arrayMap_parts (items : list value) (idx : nat) :
  Forall (fun p => nullish p = false) items ->
  exists ps, arrayMap (fun _ p => summarisePart h p) idx items = Ok ps /\
             List.length ps = List.length items.
Proof.
  revert idx. induction items as [|p items IH]; intros idx Hall.
  - now exists [].
  - inversion Hall as [|? ? Hp Hrest]; subst.
    destruct (IH (S idx) Hrest) as (ps & Hps & Hlen).
    cbn [arrayMap]. unfold summarisePart at 1, getProp. rewrite Hp.
    cbn [bind]. rewrite Hps. cbn [bind].
    eexists. split; [reflexivity|]. simpl. now rewrite Hlen.
Qed.

Lemma length_substring_le (n : nat) (s : string) :
  String.length (substring 0 n s) <= n.
Proof.
  revert s. induction n as [|n IH]; intros s.
  - destruct s; simpl; lia.
  - destruct s as [|c s]; simpl; [lia|]. specialize (IH s). lia.
Qed.

Lemma summarisePart_preview (p : value) (ps : partSummary) :
  summarisePart h p = Ok ps ->
  (forall t, textPreview ps = Some t -> String.length t <= 120) /\
  (forall s, prop h (prop h p "inlineData") "data" = VString s ->
             dataLength ps = if (s =? "")%string then VNull
                             else VNumber (Z.of_nat (String.length s))).
Proof.
  unfold summarisePart, getProp. destruct (nullish p); cbn [bind]; [discriminate|].
  intros H. injection H as <-. cbn [textPreview dataLength]. split.
  - intros t. destruct (prop h p "text"); try discriminate.
    intros [= <-]. apply length_substring_le.
  - intros s ->. destruct s as [|c s]; reflexivity.
Qed.

Lemma arrayMap_forall {A : Type} (f : nat -> value -> result A)
    (P : A -> Prop) (items : list value) :
  (forall idx item a, f idx item = Ok a -> P a) ->
  forall idx l, arrayMap f idx items = Ok l -> Forall P l.
Proof.
  intros Hf. induction items as [|item rest IH]; intros idx l H.
  - injection H as <-. constructor.
  - cbn [arrayMap] in H.
    destruct (f idx item) as [a|e] eqn:E; cbn [bind] in H; [|discriminate].
    destruct (arrayMap f (S idx) rest) as [more|e] eqn:E'; cbn [bind] in H;
      [|discriminate].
    injection H as <-. constructor; [now apply (Hf idx item) | now apply (IH (S idx))].
Qed.

Lemma arrayMap_indices (items : list value) :
  forall idx l,
    arrayMap (summariseCandidate h) idx items = Ok l ->
    map candidateIndex l = seq idx (List.length items).
Proof.
  induction items as [|item rest IH]; intros idx l H.
  - injection H as <-. reflexivity.
  - cbn [arrayMap] in H.
    destruct (summariseCandidate h idx item) as [a|e] eqn:E; cbn [bind] in H;
      [|discriminate].
    destruct (arrayMap (summariseCandidate h) (S idx) rest) as [more|e] eqn:E';
      cbn [bind] in H; [|discriminate].
    injection H as <-. simpl. rewrite (IH _ _ E'). f_equal.
    unfold summariseCandidate in E.
    destruct (optionalMap h _ _); cbn [bind] in E; [|discriminate].
    now injection E as <-.
Qed.

End Summary.

Section SummaryOfResponse.

Import Generate.

Variable h : heap.

Lemma optionalMap_forall {A : Type} (f : nat -> value -> result A)
    (P : A -> Prop) (x : value) (l : list A) :
  (forall idx item a, f idx item = Ok a -> P a) ->
  optionalMap h x f = Ok l -> Forall P l.
Proof.
  intros Hf. unfold optionalMap.
  destruct (nullish x); [intros [= <-]; constructor|].
  destruct (asArray h x); [|discriminate].
  now apply arrayMap_forall.
Qed.

Lemma summariseCandidate_previews (idx : nat) (c : value) (cs : candidateSummary) :
  summariseCandidate h idx c = Ok cs -> previewsBounded cs.
Proof.
  unfold summariseCandidate, previewsBounded.
  destruct (optionalMap h _ _) as [ps|e] eqn:E; cbn [bind]; [|discriminate].
  intros [= <-]. cbn [parts].
  apply (optionalMap_forall _ _ _ _ (fun _ p ps' H =>
           proj1 (summarisePart_preview h p ps' H)) E).
Qed.

(** The lookup found nothing and raised nothing: the parts of the first
    candidate can be summarised. *)
Lemma first_candidate_summarised (response d c : value) :
  directImagePart h response = Ok d -> truthy d = false ->
  elementZero h (prop h response "candidates") = c ->
  exists cs, summariseCandidate h 0 c = Ok cs.
Proof.
  unfold directImagePart, expectedParts, getProp.
  destruct (nullish response); cbn [bind]; [discriminate|].
  intros Hd Hfalsy <-. unfold summariseCandidate.
  set (parts := prop h (prop h (elementZero h (prop h response "candidates"))
                          "content") "parts") in *.
  unfold optionalMap.
  destruct (nullish parts); [eexists; reflexivity|].
  destruct (asArray h parts) as [ps|]; [|discriminate].
  destruct (arrayMap_parts h ps 0 (arrayFind_nothing h ps d Hd Hfalsy))
    as (sums & -> & _).
  eexists. reflexivity.
Qed.

Lemma single_candidate_summary (response d : value) :
  directImagePart h response = Ok d -> truthy d = false ->
  nullish (prop h response "candidates") = true \/
  (exists items, asArray h (prop h response "candidates") = Some items /\
                 List.length items <= 1) ->
  exists summaries,
    candidateSummaries h response = Ok summaries /\
    List.length summaries <= 1.
Proof.
  intros Hd Hfalsy Hshape. unfold candidateSummaries, optionalMap.
  destruct Hshape as [Hnull | (items & Harr & Hlen)].
  - rewrite Hnull. exists []. split; [reflexivity | simpl; lia].
  - assert (Hnn : nullish (prop h response "candidates") = false).
    { destruct (asArray_ref h _ _ Harr) as (l & ->). reflexivity. }
    rewrite Hnn, Harr.
    destruct items as [|c [|c' rest]]; [| |simpl in Hlen; lia].
    + exists []. split; [reflexivity | simpl; lia].
    + assert (Hzero : elementZero h (prop h response "candidates") = c).
      { destruct (asArray_ref h _ _ Harr) as (l & E). rewrite E in *.
        unfold asArray in Harr. unfold elementZero.
        destruct (deref h l); [|discriminate]. now injection Harr as ->. }
      destruct (first_candidate_summarised response d c Hd Hfalsy Hzero)
        as (cs & Hcs).
      cbn [arrayMap]. rewrite Hcs. cbn [bind].
      exists [cs]. split; [reflexivity | simpl; lia].
Qed.

End SummaryOfResponse.

(** X9: for a response with at most one candidate ([candidates] absent,
    [null], or an array of at most one element), a failed extraction always
    builds the summary and prints the warning of line 174 right after the
    opening line: the summary of such a response cannot raise.  When no
    value of the summary is circular, the summary and the hint of lines
    175-178 follow and nothing else; when one is, [JSON.stringify] raises
    after the warning and the entry ends with the [console.error] of line
    182, two failure diagnostics in all: so for a single candidate whose
    payload has a [length] that refers back to the payload.  With two
    candidates the summary itself can raise: a second candidate whose
    [parts] is no array makes it raise, and the entry ends with the
    [console.error] of line 182 and no warning. *)
Theorem single_candidate_failure_warns :
  (forall (w : Generate.World) (total i : nat) (e : Generate.entry)
          (h : heap) (response : value),
      let prompt := Generate.styledPrompt (Generate.basePromptOf e) in
      Generate.generateContent w i Generate.MODEL_NAME
        (Generate.fullPromptOf prompt) = Ok (h, response) ->
      Generate.extractionFailed w i e = true ->
      nullish (prop h response "candidates") = true \/
      (exists items, asArray h (prop h response "candidates") = Some items /\
                     List.length items <= 1) ->
      exists summaries,
        Generate.candidateSummaries h response = Ok summaries /\
        Generate.entryEvents w total i e
        = Generate.openingLine total i e
            :: Generate.Console LWarn
                 (Generate.MsgNoImage prompt
                    (Generate.candidateCount h response))
            :: (if existsb (Generate.circular h)
                     (Generate.summaryValues summaries)
                then [ Generate.Console LError
                         (Generate.MsgGenerateError prompt TypeError) ]
                else [ Generate.Console LDebug
                         (Generate.MsgResponseSummary
                            (Generate.topKeys h response) summaries);
                       Generate.Console LInfo Generate.MsgHint ]) /\
        Generate.warnings (Generate.entryEvents w total i e) = 1) /\
  (Generate.extractionFailed Samples.circularWorld 0 Samples.rulerEntry = true /\
   Generate.entryEvents Samples.circularWorld 1 0 Samples.rulerEntry
   = [ Generate.openingLine 1 0 Samples.rulerEntry;
       Generate.Console LWarn
         (Generate.MsgNoImage (Generate.styledPrompt "a ruler") (VNumber 1));
       Generate.Console LError
         (Generate.MsgGenerateError (Generate.styledPrompt "a ruler")
            TypeError) ]) /\
  (let w := Samples.world (Ok (Samples.secondCandidateMalformed, VRef 0))
              (Ok tt) (Ok Samples.jpegBytes) (Ok tt) in
   Generate.extractionFailed w 0 Samples.rulerEntry = true /\
   Generate.entryEvents w 1 0 Samples.rulerEntry
   = [ Generate.openingLine 1 0 Samples.rulerEntry;
       Generate.Console LError
         (Generate.MsgGenerateError (Generate.styledPrompt "a ruler")
            TypeError) ]).
Proof.
  split; [|split; split; reflexivity].
  intros w total i e h response prompt Hgen Hfailed Hshape.
  unfold Generate.extractionFailed in Hfailed. fold prompt in Hfailed.
  rewrite Hgen in Hfailed.
  destruct (locateImagePart h response) as [part|err] eqn:Eloc; [|discriminate].
  apply negb_true_iff in Hfailed.
  assert (Hdirect : exists d, directImagePart h response = Ok d /\
                              truthy d = false).
  { unfold locateImagePart in Eloc.
    destruct (directImagePart h response) as [d|err]; cbn [bind] in Eloc;
      [|discriminate].
    exists d. split; [reflexivity|].
    destruct (truthy d) eqn:Ed; [|reflexivity].
    cbn [negb] in Eloc. injection Eloc as <-. congruence. }
  destruct Hdirect as (d & Hd & Hfalsy).
  destruct (single_candidate_summary h response d Hd Hfalsy Hshape)
    as (summaries & Hsum & _).
  exists summaries. split; [exact Hsum|].
  unfold Generate.entryEvents.
  rewrite (processEntry_no_image_summary w total i e h response part summaries
             Hgen Eloc Hfailed Hsum).
  cbn [events outcome fst snd]. fold prompt. rewrite app_nil_r.
  split; [reflexivity|].
  destruct (existsb (Generate.circular h) (Generate.summaryValues summaries));
    reflexivity.
Qed.

Lemma single_candidate_failure_warns_witness :
  Generate.extractionFailed Samples.textOnlyWorld 0 Samples.rulerEntry = true /\
  Generate.warnings
    (Generate.entryEvents Samples.textOnlyWorld 1 0 Samples.rulerEntry) = 1 /\
  Generate.diagnostics
    (Generate.entryEvents Samples.circularWorld 1 0 Samples.rulerEntry) = 2.
Proof.
  destruct (proj1 single_candidate_failure_warns Samples.textOnlyWorld 1 0
              Samples.rulerEntry Samples.textOnlyResponse (VRef 0)
              eq_refl eq_refl
              (or_intror (ex_intro _ [VRef 2] (conj eq_refl (le_n 1)))))
    as (summaries & _ & _ & H).
  destruct (proj1 single_candidate_failure_warns Samples.circularWorld 1 0
              Samples.rulerEntry Samples.circularResponse (VRef 0)
              eq_refl eq_refl
              (or_intror (ex_intro _ [VRef 2] (conj eq_refl (le_n 1)))))
    as (sums & Hs & Hc & _).
  split; [reflexivity|]. split; [exact H|].
  rewrite Hc. vm_compute in Hs. injection Hs as <-. reflexivity.
Defined.

(** X10: what the diagnostic lines of a failed extraction hold: one summary
    per candidate, in order and numbered from 0; no text preview longer than
    120 characters; of a payload that is a string only its length ([null]
    for the empty one), never the payload; at most 20 top-level keys; and as
    candidate count the length of the [candidates] array. *)
Theorem summary_is_bounded :
  forall (h : heap) (response : value)
         (summaries : list Generate.candidateSummary),
    Generate.candidateSummaries h response = Ok summaries ->
    (forall items,
        asArray h (prop h response "candidates") = Some items ->
        map Generate.candidateIndex summaries = seq 0 (List.length items)) /\
    (nullish (prop h response "candidates") = true -> summaries = []) /\
    Forall (fun cs =>
              Forall (fun ps => forall t, Generate.textPreview ps = Some t ->
                                          String.length t <= 120)
                     (Generate.parts cs)) summaries /\
    (forall p ps s,
        Generate.summarisePart h p = Ok ps ->
        prop h (prop h p "inlineData") "data" = VString s ->
        Generate.dataLength ps
        = if (s =? "")%string then VNull
          else VNumber (Z.of_nat (String.length s))) /\
    List.length (Generate.topKeys h response) <= 20 /\
    (forall items,
        asArray h (prop h response "candidates") = Some items ->
        Generate.candidateCount h response
        = VNumber (Z.of_nat (List.length items))).
Proof.
  intros h response summaries H. split; [|split; [|split; [|split; [|split]]]].
  - intros items Harr. unfold Generate.candidateSummaries, Generate.optionalMap in H.
    assert (Hnn : nullish (prop h response "candidates") = false).
    { destruct (asArray_ref h _ _ Harr) as (l & ->). reflexivity. }
    rewrite Hnn, Harr in H. now apply (arrayMap_indices h items 0).
  - intros Hnull. unfold Generate.candidateSummaries, Generate.optionalMap in H.
    rewrite Hnull in H. now injection H.
  - apply (optionalMap_forall h _ (previewsBounded) _ _
             (summariseCandidate_previews h) H).
  - intros p ps s Hp. now apply (proj2 (summarisePart_preview h p ps Hp)).
  - unfold Generate.topKeys.
    destruct response as [| |b|n|s|l]; try (simpl; lia);
      [|destruct (deref h l)]; apply firstn_le_length.
  - intros items Harr. unfold Generate.candidateCount.
    destruct (asArray_ref h _ _ Harr) as (l & E). rewrite E in *.
    cbn [truthy]. unfold asArray in Harr. unfold Generate.lengthOf.
    destruct (deref h l); [|discriminate]. now injection Harr as ->.
Qed.

Lemma summary_is_bounded_witness :
  exists summaries,
    Generate.candidateSummaries Samples.expectedResponse (VRef 0) = Ok summaries /\
    map Generate.candidateIndex summaries = [0] /\
    map (fun cs => map Generate.dataLength (Generate.parts cs)) summaries
    = [[VNull; VNumber 4; VNumber 4]].
Proof.
  destruct (Generate.candidateSummaries Samples.expectedResponse (VRef 0))
    as [summaries|e] eqn:E; [|discriminate].
  exists summaries.
  destruct (summary_is_bounded Samples.expectedResponse (VRef 0) summaries E)
    as (Hidx & _).
  split; [reflexivity|]. split; [exact (Hidx [VRef 2] eq_refl)|].
  vm_compute in E. injection E as <-. reflexivity.
Defined.

(* ================================================================== *)
(** * The whole run of the batch generator *)
(* ================================================================== *)

Section Run.

Import Generate.

Variable w : World.

Import GenerateRun.

Lemma settled_app (a b : list event) :
  settled (a ++ b)%list = settled a + settled b.
Proof.
  unfold settled, filesWritten, diagnostics.
  rewrite !filter_app, !length_app. lia.
Qed.

Lemma runTask_settled (t : task) :
  politeAt w (taskIndex t) -> settled (events (runTask w t)) = 1.
Proof.
  intros Hpolite.
  destruct (runTask_cases w t)
    as [(j & -> & _) | [(err & -> & _) | [(err & -> & _) | (_ & Hrude)]]];
    try reflexivity.
  contradiction.
Qed.

(** Every entry is settled once: by its file or by its diagnostic. *)
Lemma entry_settled (total i : nat) (e : entry) :
  politeAt w i -> summarySerialises w i e = true ->
  settled (events (processEntry w total i e))
  + settled (GenerateRun.runTasks w
               match outcome (processEntry w total i e) with
               | Ok (Some t) => [t]
               | _ => []
               end) = 1.
Proof.
  intros Hpolite Hser.
  destruct (processEntry_cases w total i e)
    as [(b & -> & _) | [(err & -> & _) | [(c & k & sm & -> & _)
       | [(c & _ & _ & Hs) | (_ & Hrude)]]]];
    cbn [events outcome fst snd]; try reflexivity.
  - unfold GenerateRun.runTasks. cbn [flat_map]. rewrite app_nil_r.
    rewrite runTask_settled; [reflexivity | exact Hpolite].
  - congruence.
  - contradiction.
Qed.

Lemma runTasks_app (a b : list task) :
  GenerateRun.runTasks w (a ++ b)%list
  = (GenerateRun.runTasks w a ++ GenerateRun.runTasks w b)%list.
Proof. apply flat_map_app. Qed.

Lemma loop_settled (total : nat) (ies : list (nat * entry)) :
  polite w ->
  (forall i e, In (i, e) ies -> summarySerialises w i e = true) ->
  settled (turnEvents w total ies)
  + settled (GenerateRun.runTasks w (startedTasks w total ies))
  = List.length ies.
Proof.
  intros Hpolite.
  induction ies as [|[i e] rest IH]; intros Hser; [reflexivity|].
  cbn [turnEvents startedTasks flat_map fst snd List.length].
  fold (turnEvents w total rest). fold (startedTasks w total rest).
  rewrite runTasks_app, !settled_app.
  pose proof (entry_settled total i e (Hpolite i)
                (Hser i e (or_introl eq_refl))).
  assert (IH' := IH (fun i' e' H' => Hser i' e' (or_intror H'))).
  lia.
Qed.

Lemma setUp_events : events (setUp w) = [].
Proof.
  unfold setUp. destruct (new_GoogleGenAI w) as [[]|err]; [|reflexivity].
  destruct (fs_existsSync w (OUTPUT_DIR w)); [reflexivity|].
  destruct (fs_mkdirSync w (OUTPUT_DIR w)) as [[]|err]; reflexivity.
Qed.

Lemma setUp_done :
  new_GoogleGenAI w = Ok tt ->
  fs_existsSync w (OUTPUT_DIR w) = true \/ fs_mkdirSync w (OUTPUT_DIR w) = Ok tt ->
  setUp w = ([], Ok tt).
Proof.
  intros Hclient Hdir. unfold setUp. rewrite Hclient.
  destruct Hdir as [Hexists|Hmade].
  - rewrite Hexists. reflexivity.
  - destruct (fs_existsSync w (OUTPUT_DIR w)); [|rewrite Hmade]; reflexivity.
Qed.

Lemma setUp_failed (err : error) :
  new_GoogleGenAI w = Throw err \/
  (new_GoogleGenAI w = Ok tt /\
   fs_existsSync w (OUTPUT_DIR w) = false /\
   fs_mkdirSync w (OUTPUT_DIR w) = Throw err) ->
  setUp w = ([], Throw err).
Proof.
  unfold setUp. intros [Hclient | (Hclient & Hexists & Hmade)].
  - rewrite Hclient. reflexivity.
  - rewrite Hclient, Hexists, Hmade. reflexivity.
Qed.

(** The run of a call whose start-up succeeds, no collaborator raising
    [null] or [undefined]. *)
Lemma generateAndSaveImages_started (prompts : list entry) :
  polite w ->
  new_GoogleGenAI w = Ok tt ->
  fs_existsSync w (OUTPUT_DIR w) = true \/ fs_mkdirSync w (OUTPUT_DIR w) = Ok tt ->
  generateAndSaveImages w prompts
  = ((Console LLog (MsgGenerating (List.length prompts))
        :: turnEvents w (List.length prompts) (indexed prompts)
        ++ [Console LLog MsgFinished])%list,
     Ok (startedTasks w (List.length prompts) (indexed prompts))) /\
  startedChains w prompts
  = startedTasks w (List.length prompts) (indexed prompts).
Proof.
  intros Hpolite Hclient Hdir.
  unfold generateAndSaveImages, loopAndFinish, startedChains.
  rewrite (setUp_done Hclient Hdir), (loopFrom_turns w _ _ Hpolite).
  split; [reflexivity|]. apply (startedFrom_turns w _ _ Hpolite).
Qed.

Lemma indexed_length (prompts : list entry) :
  List.length (indexed prompts) = List.length prompts.
Proof.
  unfold indexed. rewrite length_combine, length_seq. apply Nat.min_id.
Qed.

Lemma combine_seq_nth (l : list entry) :
  forall a i e,
    In (i, e) (combine (seq a (List.length l)) l) ->
    a <= i /\ nth_error l (i - a) = Some e.
Proof.
  induction l as [|x l IH]; intros a i e Hin; [contradiction|].
  simpl in Hin. destruct Hin as [[= <- <-]|Hin].
  - rewrite Nat.sub_diag. split; [lia | reflexivity].
  - destruct (IH (S a) i e Hin) as [Hle Hnth]. split; [lia|].
    replace (i - a) with (S (i - S a)) by lia. exact Hnth.
Qed.

Lemma filter_nil_not_in {A : Type} (p : A -> bool) (l : list A) (x : A) :
  filter p l = [] -> p x = true -> ~ In x l.
Proof.
  intros Hnil Hp Hin.
  assert (H : In x (filter p l)) by (apply filter_In; now split).
  rewrite Hnil in H. contradiction.
Qed.

(** The main line writes no file, whatever happens: files are written by
    the detached chains only. *)
Lemma main_line_writes_nothing (prompts : list entry)
    (filePath : string) (data : buffer) :
  ~ In (FileWritten filePath data) (events (generateAndSaveImages w prompts)).
Proof.
  unfold generateAndSaveImages, loopAndFinish.
  rewrite events_bindM, setUp_events. cbn [app].
  destruct (outcome (setUp w)); [|intros []].
  rewrite events_bindM. cbn [emit events outcome fst snd app].
  intros [Hin|Hin]; [discriminate|].
  rewrite events_bindM in Hin. apply in_app_or in Hin.
  destruct Hin as [Hin|Hin].
  - apply (loopFrom_events_incl w) in Hin.
    revert Hin. apply (filter_nil_not_in isFileWritten);
      [apply turnEvents_write_nothing | reflexivity].
  - destruct (outcome (loopFrom w (List.length prompts) 0 prompts));
      [|contradiction].
    cbn in Hin. destruct Hin as [Hin|[]]. discriminate.
Qed.

(** The file of a detached chain has the resolved name of its entry. *)
Lemma runTask_file (t : task) (filePath : string) (data : buffer) :
  In (FileWritten filePath data) (events (runTask w t)) ->
  filePath = path_join w (OUTPUT_DIR w)
               (resolveFileName (taskFilename t) (taskIndex t)
                  (Date_now w (taskIndex t))).
Proof.
  destruct (runTask_cases w t)
    as [(j & -> & _) | [(err & -> & _) | [(err & -> & _) | (-> & _)]]];
    cbn [events fst]; intros Hin;
    repeat (destruct Hin as [Hin|Hin]; [try discriminate|]);
    try contradiction.
  now injection Hin as <- _.
Qed.

(** A chain that is started belongs to an entry of the list, and carries
    its index and its filename template. *)
Lemma startedChains_entries (prompts : list entry) (t : task) :
  In t (startedChains w prompts) ->
  exists e,
    nth_error prompts (taskIndex t) = Some e /\
    taskFilename t = requestedFilenameOf e.
Proof.
  unfold startedChains. destruct (outcome (setUp w)); [|intros []].
  intros Hin. apply (startedFrom_incl w) in Hin.
  unfold startedTasks in Hin. apply in_flat_map in Hin.
  destruct Hin as ([i e] & Hie & Ht). cbn [fst snd] in Ht.
  destruct (processEntry_cases w (List.length prompts) i e)
    as [(b & Hp & _) | [(err & Hp & _) | [(c & k & sm & Hp & _)
       | [(c & Hp & _) | (Hp & _)]]]];
    rewrite Hp in Ht; cbn [outcome snd] in Ht; try contradiction.
  destruct Ht as [<-|[]]. cbn [taskIndex taskFilename].
  destruct (combine_seq_nth prompts 0 i e Hie) as [_ Hnth].
  rewrite Nat.sub_0_r in Hnth. now exists e.
Qed.

End Run.

(** X11: every entry of a run is accounted for.  Provided that no
    collaborator throws or rejects with [null] or [undefined] and that the
    response summaries of the entries can be serialised: once the client is
    built and the output directory is there, the call returns, and the
    number of files written plus the number of failure diagnostics logged,
    over the main line and all detached chains, is the number of prompt
    entries. *)
Theorem run_accounts_for_every_entry :
  forall (w : Generate.World) (prompts : list Generate.entry),
    Generate.polite w ->
    (forall i e, nth_error prompts i = Some e ->
                 Generate.summarySerialises w i e = true) ->
    Generate.new_GoogleGenAI w = Ok tt ->
    Generate.fs_existsSync w (Generate.OUTPUT_DIR w) = true \/
    Generate.fs_mkdirSync w (Generate.OUTPUT_DIR w) = Ok tt ->
    (exists ts, outcome (Generate.generateAndSaveImages w prompts) = Ok ts) /\
    Generate.filesWritten (GenerateRun.allEvents w prompts)
    + Generate.diagnostics (GenerateRun.allEvents w prompts)
    = List.length prompts.
Proof.
  intros w prompts Hpolite Hser Hclient Hdir. unfold GenerateRun.allEvents.
  destruct (generateAndSaveImages_started w prompts Hpolite Hclient Hdir)
    as (-> & ->).
  split; [eexists; reflexivity|].
  cbn [events outcome fst snd].
  assert (Hies : forall i e, In (i, e) (Generate.indexed prompts) ->
                             Generate.summarySerialises w i e = true).
  { intros i e Hin. apply Hser.
    destruct (combine_seq_nth prompts 0 i e Hin) as [_ Hnth].
    now rewrite Nat.sub_0_r in Hnth. }
  pose proof (loop_settled w (List.length prompts) (Generate.indexed prompts)
                Hpolite Hies) as H.
  rewrite indexed_length in H.
  change (Generate.Console LLog (Generate.MsgGenerating (List.length prompts))
            :: Generate.turnEvents w (List.length prompts)
                 (Generate.indexed prompts)
            ++ [Generate.Console LLog Generate.MsgFinished])%list
    with ([Generate.Console LLog (Generate.MsgGenerating (List.length prompts))]
            ++ Generate.turnEvents w (List.length prompts)
                 (Generate.indexed prompts)
            ++ [Generate.Console LLog Generate.MsgFinished])%list.
  unfold GenerateRun.settled, Generate.filesWritten, Generate.diagnostics in *.
  rewrite !filter_app, !length_app in *. simpl. lia.
Qed.

Lemma run_accounts_for_every_entry_witness :
  Generate.polite Samples.happyWorld /\
  Generate.polite Samples.corruptImageWorld /\
  Generate.filesWritten
    (GenerateRun.allEvents Samples.happyWorld Samples.twoEntries) = 2 /\
  Generate.diagnostics
    (GenerateRun.allEvents Samples.corruptImageWorld Samples.twoEntries) = 2.
Proof.
  assert (Phappy : Generate.polite Samples.happyWorld)
    by (intros i; repeat split).
  assert (Pcorrupt : Generate.polite Samples.corruptImageWorld)
    by (intros i; repeat split).
  assert (Shappy : forall i e,
             nth_error Samples.twoEntries i = Some e ->
             Generate.summarySerialises Samples.happyWorld i e = true)
    by (intros i e _; reflexivity).
  assert (Scorrupt : forall i e,
             nth_error Samples.twoEntries i = Some e ->
             Generate.summarySerialises Samples.corruptImageWorld i e = true)
    by (intros i e _; reflexivity).
  destruct (run_accounts_for_every_entry Samples.happyWorld Samples.twoEntries
              Phappy Shappy eq_refl (or_introl eq_refl)) as (_ & Hhappy).
  destruct (run_accounts_for_every_entry Samples.corruptImageWorld
              Samples.twoEntries Pcorrupt Scorrupt eq_refl (or_introl eq_refl))
    as (_ & Hcorrupt).
  assert (D : Generate.diagnostics
                (GenerateRun.allEvents Samples.happyWorld Samples.twoEntries)
              = 0) by reflexivity.
  assert (F : Generate.filesWritten
                (GenerateRun.allEvents Samples.corruptImageWorld
                   Samples.twoEntries) = 0) by reflexivity.
  rewrite D, Nat.add_0_r in Hhappy. rewrite F in Hcorrupt.
  split; [exact Phappy|]. split; [exact Pcorrupt|].
  split; [exact Hhappy | exact Hcorrupt].
Defined.

(** A summary that cannot be serialised is counted twice: the warning of
    line 174 and the [console.error] of line 182. *)
Example run_with_circular_summary :
  Generate.summarySerialises Samples.circularWorld 0 Samples.rulerEntry
  = false /\
  Generate.diagnostics
    (GenerateRun.allEvents Samples.circularWorld [Samples.rulerEntry]) = 2.
Proof. split; reflexivity. Qed.

(** X12: a start-up failure stops the run before its first line: when the
    client cannot be built, or the output directory is missing and cannot be
    made, the function rejects with that exception, prints nothing, starts no
    detached chain and writes no file. *)
Theorem setup_failure_aborts :
  forall (w : Generate.World) (prompts : list Generate.entry) (err : error),
    Generate.new_GoogleGenAI w = Throw err \/
    (Generate.new_GoogleGenAI w = Ok tt /\
     Generate.fs_existsSync w (Generate.OUTPUT_DIR w) = false /\
     Generate.fs_mkdirSync w (Generate.OUTPUT_DIR w) = Throw err) ->
    Generate.generateAndSaveImages w prompts = ([], Throw err) /\
    GenerateRun.allEvents w prompts = [].
Proof.
  intros w prompts err H.
  pose proof (setUp_failed w err H) as Hsetup.
  assert (E : Generate.generateAndSaveImages w prompts = ([], Throw err)).
  { unfold Generate.generateAndSaveImages. now rewrite Hsetup. }
  split; [exact E|].
  unfold GenerateRun.allEvents, Generate.startedChains.
  rewrite E, Hsetup. reflexivity.
Qed.

Lemma setup_failure_aborts_witness :
  Generate.fs_mkdirSync Samples.readOnlyWorld
    (Generate.OUTPUT_DIR Samples.readOnlyWorld)
  = Throw (ExternalError "EACCES: permission denied, mkdir") /\
  GenerateRun.allEvents Samples.readOnlyWorld Generate.IMAGE_PROMPTS = [].
Proof.
  split; [reflexivity|].
  apply (setup_failure_aborts Samples.readOnlyWorld Generate.IMAGE_PROMPTS
           (ExternalError "EACCES: permission denied, mkdir")).
  right. repeat split.
Defined.

(** X13: a run writes no other files than the resolved names of its
    entries: every file written, by the main line or a detached chain, is
    [path.join(OUTPUT_DIR, name)] where [name] is the resolved name of an
    entry of the prompt list at its index, and that name ends in ".jpg" when
    letter case is ignored. *)
Theorem run_writes_resolved_names :
  forall (w : Generate.World) (prompts : list Generate.entry)
         (filePath : string) (data : buffer),
    In (Generate.FileWritten filePath data) (GenerateRun.allEvents w prompts) ->
    exists i e,
      nth_error prompts i = Some e /\
      let name :=
        Generate.resolveFileName (Generate.requestedFilenameOf e) i
          (Generate.Date_now w i) in
      filePath = Generate.path_join w (Generate.OUTPUT_DIR w) name /\
      endsWith (toLowerCase name) ".jpg" = true.
Proof.
  intros w prompts filePath data Hin.
  unfold GenerateRun.allEvents in Hin. apply in_app_or in Hin.
  destruct Hin as [Hmain|Htask].
  - destruct (main_line_writes_nothing w prompts filePath data Hmain).
  - unfold GenerateRun.runTasks in Htask. apply in_flat_map in Htask.
    destruct Htask as (t & Ht & Hfile).
    destruct (startedChains_entries w prompts t Ht) as (e & Hnth & Hname).
    apply runTask_file in Hfile. rewrite Hname in Hfile.
    exists (Generate.taskIndex t), e. split; [exact Hnth|]. cbv zeta.
    split; [exact Hfile | apply resolveFileName_lower_ends].
Qed.

Lemma run_writes_resolved_names_witness :
  In (Generate.FileWritten "/work/images/ruler.jpg" Samples.jpegBytes)
     (GenerateRun.allEvents Samples.happyWorld [Samples.rulerEntry]) /\
  exists i e,
    nth_error [Samples.rulerEntry] i = Some e /\
    "/work/images/ruler.jpg"
    = Generate.path_join Samples.happyWorld
        (Generate.OUTPUT_DIR Samples.happyWorld)
        (Generate.resolveFileName (Generate.requestedFilenameOf e) i
           (Generate.Date_now Samples.happyWorld i)).
Proof.
  assert (Hin : In (Generate.FileWritten "/work/images/ruler.jpg"
                      Samples.jpegBytes)
                   (GenerateRun.allEvents Samples.happyWorld
                      [Samples.rulerEntry])).
  { vm_compute. do 3 right. left. reflexivity. }
  split; [exact Hin|].
  destruct (run_writes_resolved_names Samples.happyWorld [Samples.rulerEntry]
              _ _ Hin) as (i & e & Hnth & Hpath & _).
  now exists i, e.
Defined.

(** X19: as long as no collaborator throws or rejects with [null] or
    [undefined], no failure of an entry stops the batch.  Whatever else the
    API, the extraction, the decoding, sharp and the file system do, the loop
    and what follows it (lines 50-185) return normally; the events of the
    main line are the events of the turns of all entries, in the order of the
    prompt list, followed by the completion message; every entry opens its
    turn with its own line, once and in order; no turn ends by an exception
    and no detached post-processing chain ends by an unhandled rejection.
    When the client is built and the output directory exists or can be made,
    the whole function is the start-up line followed by that loop. *)
Theorem batch_isolates_errors :
  forall (w : Generate.World) (prompts : list Generate.entry),
    Generate.polite w ->
    let total := List.length prompts in
    let ies := Generate.indexed prompts in
    Generate.loopAndFinish w prompts
    = ((Generate.turnEvents w total ies
        ++ [Generate.Console LLog Generate.MsgFinished])%list,
       Ok (Generate.startedTasks w total ies)) /\
    filter Generate.isProcessing (events (Generate.loopAndFinish w prompts))
    = map (fun ie => Generate.openingLine total (fst ie) (snd ie)) ies /\
    List.length ies = total /\
    (forall i e, exists t, outcome (Generate.processEntry w total i e) = Ok t) /\
    (forall t, outcome (Generate.runTask w t) = Ok tt) /\
    (Generate.new_GoogleGenAI w = Ok tt ->
     Generate.fs_existsSync w (Generate.OUTPUT_DIR w) = true \/
     Generate.fs_mkdirSync w (Generate.OUTPUT_DIR w) = Ok tt ->
     Generate.generateAndSaveImages w prompts
     = (Generate.Console LLog (Generate.MsgGenerating total)
          :: events (Generate.loopAndFinish w prompts),
        Ok (Generate.startedTasks w total ies))).
Proof.
  intros w prompts Hpolite total ies.
  assert (Hloop : Generate.loopAndFinish w prompts
                  = ((Generate.turnEvents w total ies
                      ++ [Generate.Console LLog Generate.MsgFinished])%list,
                     Ok (Generate.startedTasks w total ies))).
  { unfold Generate.loopAndFinish.
    rewrite (loopFrom_turns w _ _ Hpolite). reflexivity. }
  split; [exact Hloop|]. split; [|split; [|split; [|split]]].
  - rewrite Hloop. cbn [events fst]. rewrite filter_app.
    rewrite turnEvents_openings. cbn. apply app_nil_r.
  - unfold ies, Generate.indexed, total.
    rewrite length_combine, length_seq. apply Nat.min_id.
  - intros i e.
    destruct (processEntry_returns w total i e (Hpolite i))
      as (evs & t & -> & _).
    now exists t.
  - intros t. apply runTask_returns, Hpolite.
  - intros Hclient Hdir.
    destruct (generateAndSaveImages_started w prompts Hpolite Hclient Hdir)
      as (E & _).
    rewrite E, Hloop. reflexivity.
Qed.

(** Three entries: the API is down for each of them, and the batch still
    runs through and prints the completion message last. *)
Lemma batch_isolates_errors_witness :
  Generate.polite Samples.offlineWorld /\
  Generate.new_GoogleGenAI Samples.offlineWorld = Ok tt /\
  events (Generate.generateAndSaveImages Samples.offlineWorld
            [Generate.EntryObject "a" None; Generate.EntryString "b";
             Generate.EntryObject "c" (Some "c.png")])
  = [ Generate.Console LLog (Generate.MsgGenerating 3);
      Generate.Console LLog (Generate.MsgProcessing 1 3 (Some "a"));
      Generate.Console LError
        (Generate.MsgGenerateError
           (Generate.styledPrompt "a") (ExternalError "fetch failed"));
      Generate.Console LLog (Generate.MsgProcessing 2 3 None);
      Generate.Console LError
        (Generate.MsgGenerateError
           (Generate.styledPrompt "b") (ExternalError "fetch failed"));
      Generate.Console LLog (Generate.MsgProcessing 3 3 (Some "c"));
      Generate.Console LError
        (Generate.MsgGenerateError
           (Generate.styledPrompt "c") (ExternalError "fetch failed"));
      Generate.Console LLog Generate.MsgFinished ].
Proof.
  assert (Hpolite : Generate.polite Samples.offlineWorld)
    by (intros i; repeat split).
  destruct (batch_isolates_errors Samples.offlineWorld
              [Generate.EntryObject "a" None; Generate.EntryString "b";
               Generate.EntryObject "c" (Some "c.png")] Hpolite)
    as (_ & _ & _ & _ & _ & Hall).
  split; [exact Hpolite|]. split; [reflexivity|].
  rewrite (Hall eq_refl (or_introl eq_refl)). vm_compute. reflexivity.
Defined.

(* ================================================================== *)
(** * The revision with a run identifier: the loop *)
(* ================================================================== *)

Section SerialRun.

Import GenerateSerialLoop.

Variable w : World.

Lemma serial_partIsImage_raises (h : heap) (part : value) (e : error) :
  partIsImage h part = Throw e -> e = TypeError.
Proof.
  unfold partIsImage, getProp.
  destruct (nullish part); cbn [bind]; [congruence|].
  destruct (nullish _); [discriminate|].
  destruct (prop h (prop h part "inlineData") "mimeType"); congruence.
Qed.

Lemma serial_arrayFind_raises (h : heap) (items : list value) (e : error) :
  arrayFind (partIsImage h) items = Throw e -> e = TypeError.
Proof.
  induction items as [|item rest IH]; cbn [arrayFind]; [discriminate|].
  destruct (partIsImage h item) as [[|]|e'] eqn:E; cbn [bind].
  - discriminate.
  - exact IH.
  - intros [= <-]. exact (serial_partIsImage_raises h item e' E).
Qed.

(** The lookup of lines 74-76 raises nothing but a [TypeError]. *)
Lemma serial_directImagePart_raises (h : heap) (response : value) (e : error) :
  directImagePart h response = Throw e -> e = TypeError.
Proof.
  unfold directImagePart, getProp.
  destruct (nullish response); cbn [bind]; [congruence|].
  destruct (nullish (prop h response "candidates")); [congruence|].
  destruct (nullish (elementZero h _)); [discriminate|].
  destruct (nullish (prop h _ "content")); cbn [bind]; [congruence|].
  destruct (nullish _); [congruence|].
  destruct (asArray h _) as [items|]; [|congruence].
  apply serial_arrayFind_raises.
Qed.

(** A turn of the loop: a detached chain is started; or the [catch] of line
    129 logs the exception of the turn, an [Error] object; or the warning of
    line 126 is printed; or, the reason caught being [null] or [undefined],
    the handler itself raises and the exception leaves the turn. *)
Lemma serial_processEntry_cases (total i : nat) (e : Generate.entry) :
  let prompt := styledPrompt (Generate.basePromptOf e) in
  (exists t,
      processEntry w total i e = ([openingLine total i e], Ok (Some t)) /\
      taskIndex t = i /\
      taskFilename t = Generate.requestedFilenameOf e)
  \/
  (exists err,
      processEntry w total i e
      = ([openingLine total i e; Console LError (MsgGenerateError prompt err)],
         Ok None) /\
      isErrorObject err = true)
  \/
  processEntry w total i e
  = ([openingLine total i e; Console LWarn (MsgNoImage prompt)], Ok None)
  \/
  (processEntry w total i e = ([openingLine total i e], Throw TypeError) /\
   ~ politeAt w i).
Proof.
  intros prompt. unfold processEntry, tryBody. fold prompt.
  destruct (generateContent w i MODEL_NAME prompt) as [[h response]|err] eqn:Egen;
    cbn [lift bindM tryCatch emit ret fst snd app readMessage].
  2:{ destruct err;
        cbn [lift bindM tryCatch emit ret fst snd app readMessage].
      - right; left. exists TypeError. now split.
      - right; left. eexists. now split.
      - do 3 right. split; [reflexivity|].
        intros (Hg & _). specialize (Hg MODEL_NAME prompt).
        rewrite Egen in Hg. discriminate. }
  destruct (directImagePart h response) as [imagePart|err] eqn:Edirect;
    cbn [lift bindM tryCatch emit ret fst snd app readMessage].
  2:{ pose proof (serial_directImagePart_raises h response err Edirect) as ->.
      right; left. exists TypeError. now split. }
  destruct (truthy imagePart && truthy (prop h imagePart "inlineData")).
  - destruct (Buffer_from w i h _) as [imgBuffer|err] eqn:Ebuf;
      cbn [lift bindM tryCatch emit ret fst snd app readMessage].
    + left. eexists. repeat split.
    + destruct err;
        cbn [lift bindM tryCatch emit ret fst snd app readMessage].
      * right; left. exists TypeError. now split.
      * right; left. eexists. now split.
      * do 3 right. split; [reflexivity|].
        intros (_ & Hb & _).
        specialize (Hb h (prop h (prop h imagePart "inlineData") "data")).
        rewrite Ebuf in Hb. discriminate.
  - right; right; left. reflexivity.
Qed.

Lemma serial_processEntry_opens (total i : nat) (e : Generate.entry) :
  exists rest r,
    processEntry w total i e = (openingLine total i e :: rest, r) /\
    filter isFileWritten rest = [].
Proof.
  destruct (serial_processEntry_cases total i e)
    as [(t & -> & _) | [(err & -> & _) | [-> | (-> & _)]]];
    do 2 eexists; split; reflexivity.
Qed.

Lemma serial_processEntry_returns (total i : nat) (e : Generate.entry) :
  politeAt w i ->
  exists evs t, processEntry w total i e = (evs, Ok t).
Proof.
  intros Hpolite.
  destruct (serial_processEntry_cases total i e)
    as [(t & -> & _) | [(err & -> & _) | [-> | (_ & Hrude)]]];
    try (do 2 eexists; reflexivity).
  contradiction.
Qed.

(** The detached chain of an entry: the file is written; or one of the two
    [catch] handlers logs the failure; or, the reason caught being [null]
    or [undefined], the handler itself raises and the chain ends by an
    unhandled rejection. *)
Lemma serial_runTask_cases (t : task) :
  let filePath := path_join w (OUTPUT_DIR w) (resolvedName w t) in
  (exists jpegBuffer,
      runTask w t = ([FileWritten filePath jpegBuffer;
                      Console LLog (MsgSaved filePath)], Ok tt))
  \/
  (exists err,
      runTask w t = ([Console LError (MsgSharpLoadError err)], Ok tt) /\
      isErrorObject err = true)
  \/
  (exists err,
      runTask w t = ([Console LError (MsgConvertError err)], Ok tt) /\
      isErrorObject err = true)
  \/
  (runTask w t = ([], Throw TypeError) /\ ~ politeAt w (taskIndex t)).
Proof.
  intros filePath. unfold runTask, loadAndBuild, convertAndSave, saveJpeg.
  unfold resolvedName in filePath. fold filePath.
  destruct (import_sharp w (taskIndex t)) as [[]|err] eqn:Eimport;
    cbn [lift bindM tryCatch emit ret fst snd app readMessage].
  2:{ destruct err;
        cbn [lift bindM tryCatch emit ret fst snd app readMessage].
      - right; left. exists TypeError. now split.
      - right; left. eexists. now split.
      - do 3 right. split; [reflexivity|].
        intros (_ & _ & H & _). rewrite Eimport in H. discriminate. }
  destruct (sharp_jpeg w (taskIndex t) _ _) as [[]|err] eqn:Ejpeg;
    cbn [lift bindM tryCatch emit ret fst snd app readMessage].
  2:{ destruct err;
        cbn [lift bindM tryCatch emit ret fst snd app readMessage].
      - right; left. exists TypeError. now split.
      - right; left. eexists. now split.
      - do 3 right. split; [reflexivity|].
        intros (_ & _ & _ & H & _). specialize (H (taskBuffer t) 90%N).
        rewrite Ejpeg in H. discriminate. }
  destruct (sharp_toBuffer w (taskIndex t) _ _) as [jpegBuffer|err] eqn:Ebuf;
    cbn [lift bindM tryCatch emit ret fst snd app readMessage].
  2:{ destruct err;
        cbn [lift bindM tryCatch emit ret fst snd app readMessage].
      - right; right; left. exists TypeError. now split.
      - right; right; left. eexists. now split.
      - do 3 right. split; [reflexivity|].
        intros (_ & _ & _ & _ & H & _). specialize (H (taskBuffer t) 90%N).
        rewrite Ebuf in H. discriminate. }
  destruct (fs_writeFileSync w (taskIndex t) filePath jpegBuffer)
    as [[]|err] eqn:Ewrite;
    cbn [lift bindM tryCatch emit ret fst snd app readMessage].
  - left. now exists jpegBuffer.
  - destruct err;
      cbn [lift bindM tryCatch emit ret fst snd app readMessage].
    + right; right; left. exists TypeError. now split.
    + right; right; left. eexists. now split.
    + do 3 right. split; [reflexivity|].
      intros (_ & _ & _ & _ & _ & H). specialize (H filePath jpegBuffer).
      rewrite Ewrite in H. discriminate.
Qed.

Lemma serial_loopFrom_turns (total : nat) (entries : list Generate.entry) :
  polite w ->
  forall i,
    loopFrom w total i entries
    = (turnEvents w total (combine (seq i (List.length entries)) entries),
       Ok (startedTasks w total (combine (seq i (List.length entries)) entries))).
Proof.
  intros Hpolite.
  induction entries as [|e rest IH]; intros i; [reflexivity|].
  cbn [loopFrom List.length seq combine]. rewrite IH.
  unfold turnEvents, startedTasks. cbn [flat_map fst snd].
  destruct (serial_processEntry_returns total i e (Hpolite i))
    as (evs & t & ->).
  cbn [bindM ret events outcome fst snd consTask app].
  rewrite ?app_nil_r. destruct t; reflexivity.
Qed.

Lemma serial_startedFrom_turns (total : nat) (entries : list Generate.entry) :
  polite w ->
  forall i,
    startedFrom w total i entries
    = startedTasks w total (combine (seq i (List.length entries)) entries).
Proof.
  intros Hpolite.
  induction entries as [|e rest IH]; intros i; [reflexivity|].
  cbn [startedFrom List.length seq combine]. rewrite IH.
  unfold startedTasks. cbn [flat_map fst snd].
  destruct (serial_processEntry_returns total i e (Hpolite i))
    as (evs & t & ->).
  cbn [outcome snd]. destruct t; reflexivity.
Qed.

Lemma serial_loopFrom_events_incl (total : nat)
    (entries : list Generate.entry) :
  forall i,
    incl (events (loopFrom w total i entries))
         (turnEvents w total (combine (seq i (List.length entries)) entries)).
Proof.
  induction entries as [|e rest IH]; intros i.
  - apply incl_refl.
  - cbn [loopFrom List.length seq combine].
    unfold turnEvents. cbn [flat_map fst snd].
    fold (turnEvents w total (combine (seq (S i) (List.length rest)) rest)).
    rewrite events_bindM.
    apply incl_app_app; [apply incl_refl|].
    destruct (outcome (processEntry w total i e)) as [t|err];
      [|apply incl_nil_l].
    rewrite events_bindM. cbn [ret events fst].
    destruct (outcome (loopFrom w total (S i) rest));
      rewrite app_nil_r; apply IH.
Qed.

Lemma serial_startedFrom_incl (total : nat) (entries : list Generate.entry) :
  forall i,
    incl (startedFrom w total i entries)
         (startedTasks w total (combine (seq i (List.length entries)) entries)).
Proof.
  induction entries as [|e rest IH]; intros i.
  - apply incl_refl.
  - cbn [startedFrom List.length seq combine].
    unfold startedTasks. cbn [flat_map fst snd].
    fold (startedTasks w total (combine (seq (S i) (List.length rest)) rest)).
    destruct (outcome (processEntry w total i e)) as [[t|]|err].
    + cbn [consTask app]. apply incl_cons; [now left|].
      apply incl_tl. apply IH.
    + apply IH.
    + apply incl_nil_l.
Qed.

Lemma serial_turnEvents_write_nothing (total : nat)
    (ies : list (nat * Generate.entry)) :
  filter isFileWritten (turnEvents w total ies) = [].
Proof.
  induction ies as [|[i e] rest IH]; [reflexivity|].
  unfold turnEvents. cbn [flat_map fst snd]. rewrite filter_app.
  fold (turnEvents w total rest). rewrite IH.
  destruct (serial_processEntry_opens total i e) as (evs & r & -> & Hevs).
  cbn [events fst filter isFileWritten openingLine]. now rewrite Hevs.
Qed.

Lemma serial_settled_app (a b : list event) :
  settled (a ++ b)%list = settled a + settled b.
Proof.
  unfold settled, filesWritten, diagnostics.
  rewrite !filter_app, !length_app. lia.
Qed.

Lemma serial_loop_settled (total : nat) (ies : list (nat * Generate.entry)) :
  polite w ->
  settled (turnEvents w total ies)
  + settled (runTasks w (startedTasks w total ies))
  = List.length ies.
Proof.
  intros Hpolite.
  induction ies as [|[i e] rest IH]; [reflexivity|].
  unfold turnEvents, startedTasks. cbn [flat_map fst snd List.length].
  fold (turnEvents w total rest). fold (startedTasks w total rest).
  unfold runTasks. rewrite flat_map_app.
  fold (runTasks w (startedTasks w total rest)).
  rewrite !serial_settled_app.
  assert (Hone :
    settled (events (processEntry w total i e))
    + settled (flat_map (fun t => events (runTask w t))
                 match outcome (processEntry w total i e) with
                 | Ok (Some t) => [t]
                 | _ => []
                 end) = 1).
  { destruct (serial_processEntry_cases total i e)
      as [(t & -> & _) | [(err & -> & _) | [-> | (_ & Hrude)]]];
      cbn [events outcome fst snd flat_map]; try reflexivity.
    - rewrite app_nil_r.
      destruct (serial_runTask_cases t)
        as [(j & ->) | [(err & -> & _) | [(err & -> & _) | (_ & Hrude)]]];
        try reflexivity.
      destruct (Hrude (Hpolite _)).
    - destruct (Hrude (Hpolite _)). }
  lia.
Qed.

Lemma moduleInit_returns : exists evs, moduleInit w = (evs, Ok tt).
Proof.
  unfold moduleInit. destruct (truthyFilename (env_GEMINI_API_KEY w));
    eexists; reflexivity.
Qed.

Lemma serial_setUp_events : events (setUp w) = [].
Proof.
  unfold setUp. destruct (new_GoogleGenAI w) as [[]|err]; [|reflexivity].
  destruct (fs_existsSync w (OUTPUT_DIR w)); [reflexivity|].
  destruct (fs_mkdirSync w (OUTPUT_DIR w)) as [[]|err]; reflexivity.
Qed.

Lemma serial_setUp_done :
  new_GoogleGenAI w = Ok tt ->
  fs_existsSync w (OUTPUT_DIR w) = true \/ fs_mkdirSync w (OUTPUT_DIR w) = Ok tt ->
  setUp w = ([], Ok tt).
Proof.
  intros Hclient Hdir. unfold setUp. rewrite Hclient.
  destruct Hdir as [Hexists|Hmade].
  - rewrite Hexists. reflexivity.
  - destruct (fs_existsSync w (OUTPUT_DIR w)); [|rewrite Hmade]; reflexivity.
Qed.

(** The main line of a run whose start-up succeeds, no collaborator raising
    [null] or [undefined]. *)
Lemma serial_main_started (prompts : list Generate.entry) :
  polite w ->
  new_GoogleGenAI w = Ok tt ->
  fs_existsSync w (OUTPUT_DIR w) = true \/ fs_mkdirSync w (OUTPUT_DIR w) = Ok tt ->
  main w prompts
  = ((events (moduleInit w)
      ++ Console LLog (MsgGenerating (List.length prompts))
         :: turnEvents w (List.length prompts)
              (combine (seq 0 (List.length prompts)) prompts)
      ++ [Console LLog MsgFinished])%list,
     Ok (startedTasks w (List.length prompts)
           (combine (seq 0 (List.length prompts)) prompts))) /\
  startedChains w prompts
  = startedTasks w (List.length prompts)
      (combine (seq 0 (List.length prompts)) prompts).
Proof.
  intros Hpolite Hclient Hdir.
  unfold main, generateAndSaveImages, startedChains.
  rewrite (serial_setUp_done Hclient Hdir), (serial_loopFrom_turns _ _ Hpolite).
  destruct moduleInit_returns as (evs & ->).
  split; [|apply (serial_startedFrom_turns _ _ Hpolite)].
  cbn [negb lift ret emit bindM events outcome fst snd app].
  rewrite ?app_nil_r. reflexivity.
Qed.

Lemma moduleInit_settled : settled (events (moduleInit w)) = 0.
Proof.
  unfold moduleInit. destruct (truthyFilename (env_GEMINI_API_KEY w));
    reflexivity.
Qed.

Lemma serial_run_settled (prompts : list Generate.entry) :
  polite w ->
  new_GoogleGenAI w = Ok tt ->
  fs_existsSync w (OUTPUT_DIR w) = true \/ fs_mkdirSync w (OUTPUT_DIR w) = Ok tt ->
  settled (allEvents w prompts) = List.length prompts.
Proof.
  intros Hpolite Hclient Hdir. unfold allEvents.
  destruct (serial_main_started prompts Hpolite Hclient Hdir) as (-> & ->).
  cbn [events outcome fst snd].
  pose proof (serial_loop_settled (List.length prompts)
                (combine (seq 0 (List.length prompts)) prompts) Hpolite) as H.
  rewrite length_combine, length_seq, Nat.min_id in H.
  change (Console LLog (MsgGenerating (List.length prompts)) :: ?x)
    with ([Console LLog (MsgGenerating (List.length prompts))] ++ x)%list.
  rewrite !serial_settled_app, moduleInit_settled.
  change (settled [Console LLog (MsgGenerating (List.length prompts))]) with 0.
  change (settled [Console LLog MsgFinished]) with 0.
  lia.
Qed.

End SerialRun.

Section SerialNames.

Import GenerateSerialLoop.

Variable w : World.

Lemma moduleInit_writes_nothing (filePath : string) (data : buffer) :
  ~ In (FileWritten filePath data) (events (moduleInit w)).
Proof.
  unfold moduleInit. destruct (truthyFilename (env_GEMINI_API_KEY w));
    cbn; intros Hin;
    repeat (destruct Hin as [Hin|Hin]; [discriminate|]); contradiction.
Qed.

(** The main line writes no file, whatever happens. *)
Lemma serial_main_line_writes_nothing (prompts : list Generate.entry)
    (filePath : string) (data : buffer) :
  ~ In (FileWritten filePath data) (events (main w prompts)).
Proof.
  unfold main, generateAndSaveImages.
  rewrite events_bindM. intros Hin. apply in_app_or in Hin.
  destruct Hin as [Hin|Hin];
    [exact (moduleInit_writes_nothing filePath data Hin)|].
  destruct (outcome (moduleInit w)); [|contradiction].
  rewrite events_bindM, serial_setUp_events in Hin. cbn [app] in Hin.
  destruct (outcome (setUp w)); [|contradiction].
  rewrite events_bindM in Hin. cbn [emit events outcome fst snd app] in Hin.
  destruct Hin as [Hin|Hin]; [discriminate|].
  rewrite events_bindM in Hin. apply in_app_or in Hin.
  destruct Hin as [Hin|Hin].
  - apply (serial_loopFrom_events_incl w) in Hin.
    revert Hin. apply (filter_nil_not_in isFileWritten);
      [apply serial_turnEvents_write_nothing | reflexivity].
  - destruct (outcome (loopFrom w (List.length prompts) 0 prompts));
      [|contradiction].
    cbn in Hin. destruct Hin as [Hin|[]]. discriminate.
Qed.

Lemma serial_runTask_file (t : task) (filePath : string) (data : buffer) :
  In (FileWritten filePath data) (events (runTask w t)) ->
  filePath = path_join w (OUTPUT_DIR w) (resolvedName w t).
Proof.
  destruct (serial_runTask_cases w t)
    as [(j & ->) | [(err & -> & _) | [(err & -> & _) | (-> & _)]]];
    cbn [events fst]; intros Hin;
    repeat (destruct Hin as [Hin|Hin]; [try discriminate|]);
    try contradiction.
  now injection Hin as <- _.
Qed.

(** A chain that is started belongs to an entry of the list, and carries
    its index and its filename template. *)
Lemma serial_startedChains_entries (prompts : list Generate.entry) (t : task) :
  In t (startedChains w prompts) ->
  exists e,
    nth_error prompts (taskIndex t) = Some e /\
    taskFilename t = Generate.requestedFilenameOf e.
Proof.
  unfold startedChains. destruct (outcome (setUp w)); [|intros []].
  intros Hin. apply (serial_startedFrom_incl w) in Hin.
  unfold startedTasks in Hin. apply in_flat_map in Hin.
  destruct Hin as ([i e] & Hie & Ht). cbn [fst snd] in Ht.
  destruct (serial_processEntry_cases w (List.length prompts) i e)
    as [(t' & Hp & Hidx & Hname) | [(err & Hp & _) | [Hp | (Hp & _)]]];
    rewrite Hp in Ht; cbn [outcome snd] in Ht; try contradiction.
  destruct Ht as [<-|[]].
  destruct (combine_seq_nth prompts 0 i e Hie) as [_ Hnth].
  rewrite Nat.sub_0_r in Hnth. rewrite Hidx. now exists e.
Qed.

End SerialNames.

Lemma prependSerial_starts (SERIAL name : string) :
  JsString.truthy SERIAL = true ->
  startsWith (GenerateSerial.prependSerial SERIAL name) (SERIAL ++ "_") = true.
Proof.
  intros HS. unfold GenerateSerial.prependSerial. rewrite HS. cbn [andb].
  destruct (startsWith name (SERIAL ++ "_")) eqn:E; cbn [negb]; [exact E|].
  unfold startsWith. rewrite <- app_assoc_string. apply prefix_app.
Qed.

(** X14: the revision with a run identifier accounts for every entry too.
    Provided that no collaborator throws or rejects with [null] or
    [undefined]: once the client is built and the output directory is there,
    the run returns normally, and the number of files written plus the
    number of failure diagnostics logged, over the main line and all
    detached chains, is the number of prompt entries. *)
Theorem serial_run_accounts_for_every_entry :
  forall (w : GenerateSerialLoop.World) (prompts : list Generate.entry),
    GenerateSerialLoop.polite w ->
    GenerateSerialLoop.new_GoogleGenAI w = Ok tt ->
    GenerateSerialLoop.fs_existsSync w (GenerateSerialLoop.OUTPUT_DIR w) = true \/
    GenerateSerialLoop.fs_mkdirSync w (GenerateSerialLoop.OUTPUT_DIR w) = Ok tt ->
    (exists ts, outcome (GenerateSerialLoop.main w prompts) = Ok ts) /\
    GenerateSerialLoop.filesWritten (GenerateSerialLoop.allEvents w prompts)
    + GenerateSerialLoop.diagnostics (GenerateSerialLoop.allEvents w prompts)
    = List.length prompts.
Proof.
  intros w prompts Hpolite Hclient Hdir. split.
  - destruct (serial_main_started w prompts Hpolite Hclient Hdir) as (-> & _).
    eexists. reflexivity.
  - apply (serial_run_settled w prompts Hpolite Hclient Hdir).
Qed.

Lemma serial_run_accounts_for_every_entry_witness :
  GenerateSerialLoop.polite
    (Samples.serialWorld (Ok (Samples.expectedResponse, VRef 0)) (Ok tt)) /\
  GenerateSerialLoop.allEvents
    (Samples.serialWorld (Ok (Samples.expectedResponse, VRef 0)) (Ok tt))
    [Samples.rulerEntry]
  = [ GenerateSerialLoop.Console LLog GenerateSerialLoop.MsgKeyFound;
      GenerateSerialLoop.SetGoogleApiKey "secret-key";
      GenerateSerialLoop.Console LLog (GenerateSerialLoop.MsgGenerating 1);
      GenerateSerialLoop.openingLine 1 0 Samples.rulerEntry;
      GenerateSerialLoop.Console LLog GenerateSerialLoop.MsgFinished;
      GenerateSerialLoop.FileWritten "/work/images/run1_ruler.jpg"
        Samples.jpegBytes;
      GenerateSerialLoop.Console LLog
        (GenerateSerialLoop.MsgSaved "/work/images/run1_ruler.jpg") ] /\
  GenerateSerialLoop.filesWritten
    (GenerateSerialLoop.allEvents
       (Samples.serialWorld (Ok (Samples.expectedResponse, VRef 0)) (Ok tt))
       [Samples.rulerEntry])
  + GenerateSerialLoop.diagnostics
      (GenerateSerialLoop.allEvents
         (Samples.serialWorld (Ok (Samples.expectedResponse, VRef 0)) (Ok tt))
         [Samples.rulerEntry])
  = 1.
Proof.
  assert (Hpolite : GenerateSerialLoop.polite
                      (Samples.serialWorld
                         (Ok (Samples.expectedResponse, VRef 0)) (Ok tt)))
    by (intros i; repeat split).
  split; [exact Hpolite|]. split; [vm_compute; reflexivity|].
  apply (proj2 (serial_run_accounts_for_every_entry
                  (Samples.serialWorld (Ok (Samples.expectedResponse, VRef 0))
                     (Ok tt))
                  [Samples.rulerEntry] Hpolite eq_refl (or_introl eq_refl))).
Defined.

(** In the revision with a run identifier too, a call of the API that
    rejects with [undefined] ends the run in the first turn. *)
Example serial_run_aborts_on_nullish_reason :
  GenerateSerialLoop.main (Samples.serialWorld (Throw NullishReason) (Ok tt))
    Samples.twoEntries
  = ([ GenerateSerialLoop.Console LLog GenerateSerialLoop.MsgKeyFound;
       GenerateSerialLoop.SetGoogleApiKey "secret-key";
       GenerateSerialLoop.Console LLog (GenerateSerialLoop.MsgGenerating 2);
       GenerateSerialLoop.openingLine 2 0 Samples.rulerEntry ],
     Throw TypeError).
Proof. reflexivity. Qed.

(** X15: the revision with a run identifier writes no other files than the
    resolved names of its entries: every file written is
    [path.join(OUTPUT_DIR, name)] for the resolved name of an entry at its
    index under the run identifier of the environment; the name ends in
    ".jpg" when letter case is ignored, and, when a run identifier is set and
    the entry has a filename template, starts with the run identifier and an
    underscore. *)
Theorem serial_run_writes_resolved_names :
  forall (w : GenerateSerialLoop.World) (prompts : list Generate.entry)
         (filePath : string) (data : buffer),
    In (GenerateSerialLoop.FileWritten filePath data)
       (GenerateSerialLoop.allEvents w prompts) ->
    exists i e,
      nth_error prompts i = Some e /\
      let SERIAL := GenerateSerialLoop.SERIAL w in
      let name :=
        GenerateSerial.resolveFileName SERIAL (Generate.requestedFilenameOf e) i
          (GenerateSerialLoop.Date_now w i) in
      filePath
      = GenerateSerialLoop.path_join w (GenerateSerialLoop.OUTPUT_DIR w) name /\
      endsWith (toLowerCase name) ".jpg" = true /\
      (JsString.truthy SERIAL = true ->
       truthyFilename (Generate.requestedFilenameOf e) <> None ->
       startsWith name (SERIAL ++ "_") = true).
Proof.
  intros w prompts filePath data Hin.
  unfold GenerateSerialLoop.allEvents in Hin. apply in_app_or in Hin.
  destruct Hin as [Hmain|Htask].
  { destruct (serial_main_line_writes_nothing w prompts filePath data Hmain). }
  unfold GenerateSerialLoop.runTasks in Htask. apply in_flat_map in Htask.
  destruct Htask as (t & Ht & Hfile).
  destruct (serial_startedChains_entries w prompts t Ht) as (e & Hnth & Hname).
  apply serial_runTask_file in Hfile.
  unfold GenerateSerialLoop.resolvedName in Hfile. rewrite Hname in Hfile.
  exists (GenerateSerialLoop.taskIndex t), e. split; [exact Hnth|]. cbv zeta.
  split; [exact Hfile|]. split; [apply serial_resolveFileName_lower_ends|].
  intros HS Htemplate. unfold GenerateSerial.resolveFileName.
  destruct (truthyFilename (Generate.requestedFilenameOf e)); [|congruence].
  now apply prependSerial_starts.
Qed.

Lemma serial_run_writes_resolved_names_witness :
  In (GenerateSerialLoop.FileWritten "/work/images/run1_ruler.jpg"
        Samples.jpegBytes)
     (GenerateSerialLoop.allEvents
        (Samples.serialWorld (Ok (Samples.expectedResponse, VRef 0)) (Ok tt))
        [Samples.rulerEntry]) /\
  exists i e,
    nth_error [Samples.rulerEntry] i = Some e /\
    "/work/images/run1_ruler.jpg"
    = "/work/images/"
        ++ GenerateSerial.resolveFileName "run1"
             (Generate.requestedFilenameOf e) i 1700000000000.
Proof.
  set (w := Samples.serialWorld (Ok (Samples.expectedResponse, VRef 0)) (Ok tt)).
  assert (Hin : In (GenerateSerialLoop.FileWritten
                      "/work/images/run1_ruler.jpg" Samples.jpegBytes)
                   (GenerateSerialLoop.allEvents w [Samples.rulerEntry])).
  { vm_compute. do 5 right. left. reflexivity. }
  split; [exact Hin|].
  destruct (serial_run_writes_resolved_names w [Samples.rulerEntry] _ _ Hin)
    as (i & e & Hnth & Hpath & _).
  exists i, e. split; [exact Hnth | exact Hpath].
Defined.

(* ================================================================== *)
(** * More on the credential inspector *)
(* ================================================================== *)

Section InspectorRun.

Import CheckCreds.

Variable w : World.

Lemma count_app {A : Type} (p : A -> bool) (a b : list A) :
  count p (a ++ b)%list = count p a + count p b.
Proof. unfold count. now rewrite filter_app, length_app. Qed.

Lemma summary_counts :
  count isRead (environmentSummary (env w)) = 0 /\
  count isParse (environmentSummary (env w)) = 0 /\
  count isErrorLine (environmentSummary (env w)) = 0 /\
  count isFileAccess (environmentSummary (env w)) = 0.
Proof. repeat split. Qed.

Lemma inspectFile_without_variable :
  truthyFilename (GOOGLE_APPLICATION_CREDENTIALS (env w)) = None ->
  inspectFile w = ([noFileLine], Ok tt).
Proof. intros H. unfold inspectFile. now rewrite H. Qed.

(** What follows the inspection of the file, the usage hint or nothing,
    holds no access to the file and no error line. *)
Lemma closing_counts :
  let closing := match outcome (inspectFile w) with
                 | Ok _ => usageHint
                 | Throw _ => []
                 end in
  count isRead closing = 0 /\
  count isParse closing = 0 /\
  count isErrorLine closing = 0 /\
  (forall ev, In ev closing -> isFileAccess ev = false).
Proof.
  cbv zeta. destruct (outcome (inspectFile w)).
  - repeat split. intros ev Hin. cbn in Hin.
    repeat (destruct Hin as [<-|Hin]; [reflexivity|]). contradiction.
  - repeat split. intros ev [].
Qed.

End InspectorRun.

(** X16: without a credentials variable (unset, or set to the empty
    string) the inspector touches no file: it prints the environment summary,
    the line that no file is set and the usage hint, reads and parses
    nothing, and prints no error line. *)
Theorem inspector_without_variable :
  forall w : CheckCreds.World,
    truthyFilename (CheckCreds.GOOGLE_APPLICATION_CREDENTIALS (CheckCreds.env w))
    = None ->
    events (CheckCreds.main w)
    = (CheckCreds.environmentSummary (CheckCreds.env w)
       ++ [noFileLine] ++ CheckCreds.usageHint)%list /\
    count CheckCreds.isFileAccess (events (CheckCreds.main w)) = 0 /\
    count CheckCreds.isErrorLine (events (CheckCreds.main w)) = 0.
Proof.
  intros w H.
  assert (E : events (CheckCreds.main w)
              = (CheckCreds.environmentSummary (CheckCreds.env w)
                 ++ [noFileLine] ++ CheckCreds.usageHint)%list).
  { rewrite main_events_parts. now rewrite (inspectFile_without_variable w H). }
  split; [exact E|]. rewrite E. split; reflexivity.
Qed.

Lemma inspector_without_variable_witness :
  count CheckCreds.isFileAccess
    (events (CheckCreds.main
               (Samples.withoutCredentials Samples.missingFileWorld))) = 0 /\
  List.length
    (events (CheckCreds.main
               (Samples.withoutCredentials Samples.missingFileWorld))) = 11.
Proof.
  destruct (inspector_without_variable
              (Samples.withoutCredentials Samples.missingFileWorld) eq_refl)
    as (E & Hfile & _).
  split; [exact Hfile|]. rewrite E. reflexivity.
Defined.

(** X17: in every world the inspector reads at most one file, the one the
    credentials variable names, parses at most one text, the one that read
    returned, and prints at most one error line. *)
Theorem inspector_reads_at_most_once :
  forall w : CheckCreds.World,
    count isRead (events (CheckCreds.main w)) <= 1 /\
    count isParse (events (CheckCreds.main w)) <= 1 /\
    count CheckCreds.isErrorLine (events (CheckCreds.main w)) <= 1 /\
    (forall path,
        In (CheckCreds.ReadFile path) (events (CheckCreds.main w)) ->
        truthyFilename
          (CheckCreds.GOOGLE_APPLICATION_CREDENTIALS (CheckCreds.env w))
        = Some path) /\
    (forall raw,
        In (CheckCreds.ParseJson raw) (events (CheckCreds.main w)) ->
        exists gac,
          truthyFilename
            (CheckCreds.GOOGLE_APPLICATION_CREDENTIALS (CheckCreds.env w))
          = Some gac /\
          CheckCreds.fs_readFileSync w gac "utf8" = Ok raw).
Proof.
  intros w. rewrite main_events_parts.
  pose proof (closing_counts w) as Hclosing. cbv zeta in Hclosing.
  set (closing := match outcome (CheckCreds.inspectFile w) with
                  | Ok _ => CheckCreds.usageHint
                  | Throw _ => []
                  end) in *.
  destruct Hclosing as (Cread & Cparse & Cerror & Caccess).
  assert (Hin : forall ev,
             In ev (CheckCreds.environmentSummary (CheckCreds.env w)
                    ++ events (CheckCreds.inspectFile w) ++ closing)%list ->
             CheckCreds.isFileAccess ev = true ->
             In ev (events (CheckCreds.inspectFile w))).
  { intros ev H Hacc. apply in_app_or in H. destruct H as [H|H].
    - cbn in H. repeat (destruct H as [<-|H]; [discriminate|]). contradiction.
    - apply in_app_or in H. destruct H as [H|H]; [exact H|].
      rewrite (Caccess ev H) in Hacc. discriminate. }
  rewrite !count_app, Cread, Cparse, Cerror.
  destruct (summary_counts w) as (-> & -> & -> & _).
  clearbody closing.
  unfold CheckCreds.inspectFile in *.
  destruct (truthyFilename
              (CheckCreds.GOOGLE_APPLICATION_CREDENTIALS (CheckCreds.env w)))
    as [gac|] eqn:Egac.
  - destruct (inspect_cases w gac)
      as [(err & Hread & E) | [(raw & err & Hread & Hparse & E)
         | [(raw & h & j & Hread & Hparse & Hnull & E)
           | (raw & h & j & Hread & Hparse & Hnull & E)]]];
      cbv zeta in E; rewrite E in *; try destruct (isErrorObject err);
      cbn [events fst] in *;
      (split; [cbn; lia|]); (split; [cbn; lia|]); (split; [cbn; lia|]);
      (split;
       [ intros path H; specialize (Hin _ H eq_refl); cbn in Hin;
         repeat (destruct Hin as [Hin|Hin]; [try discriminate|]);
         try contradiction; now injection Hin as <-
       | intros raw' H; specialize (Hin _ H eq_refl); cbn in Hin;
         repeat (destruct Hin as [Hin|Hin]; [try discriminate|]);
         try contradiction; injection Hin as <-; now exists gac ]).
  - cbn [events fst] in *.
    (split; [cbn; lia|]); (split; [cbn; lia|]); (split; [cbn; lia|]).
    split; intros x H; specialize (Hin _ H eq_refl); cbn in Hin;
      destruct Hin as [Hin|[]]; discriminate.
Qed.

Lemma inspector_reads_at_most_once_witness :
  In (CheckCreds.ReadFile "sa.json")
     (events (CheckCreds.main Samples.serviceAccountWorld)) /\
  truthyFilename
    (CheckCreds.GOOGLE_APPLICATION_CREDENTIALS
       (CheckCreds.env Samples.serviceAccountWorld)) = Some "sa.json" /\
  count isRead (events (CheckCreds.main Samples.serviceAccountWorld)) = 1.
Proof.
  assert (Hin : In (CheckCreds.ReadFile "sa.json")
                   (events (CheckCreds.main Samples.serviceAccountWorld))).
  { vm_compute. do 5 right. left. reflexivity. }
  destruct (inspector_reads_at_most_once Samples.serviceAccountWorld)
    as (_ & _ & _ & Hread & _).
  split; [exact Hin|]. split; [exact (Hread _ Hin) | reflexivity].
Defined.

(** X18: what the inspector prints for a file that is read and parsed: the
    header, and then, when the parsed value is [null], the one error line
    (reading its first field raises, and the file is reported as unreadable
    although it parsed); otherwise the three fields with no error line, each
    field with its value when that is truthy and "(not found)" when it is
    absent, empty or otherwise falsy, and all three "(not found)" when the
    parsed value is no object. *)
Theorem inspector_parsed_file :
  forall (w : CheckCreds.World) (gac raw : string) (h : heap) (j : value),
    truthyFilename (CheckCreds.GOOGLE_APPLICATION_CREDENTIALS (CheckCreds.env w))
    = Some gac ->
    CheckCreds.fs_readFileSync w gac "utf8" = Ok raw ->
    CheckCreds.JSON_parse w raw = Ok (h, j) ->
    let field name key :=
      CheckCreds.Console LLog
        [CheckCreds.AStr name;
         if truthy (prop h j key) then CheckCreds.AValue h (prop h j key)
         else CheckCreds.AStr "(not found)"] in
    let missing name :=
      CheckCreds.Console LLog
        [CheckCreds.AStr name; CheckCreds.AStr "(not found)"] in
    (nullish j = true ->
     events (CheckCreds.main w)
     = (CheckCreds.environmentSummary (CheckCreds.env w)
        ++ [CheckCreds.ReadFile gac; CheckCreds.ParseJson raw; headerLine;
            reportLine TypeError]
        ++ CheckCreds.usageHint)%list) /\
    (nullish j = false ->
     events (CheckCreds.main w)
     = (CheckCreds.environmentSummary (CheckCreds.env w)
        ++ [CheckCreds.ReadFile gac; CheckCreds.ParseJson raw; headerLine;
            field "project_id:" "project_id";
            field "client_email:" "client_email";
            field "type:" "type"]
        ++ CheckCreds.usageHint)%list /\
     count CheckCreds.isErrorLine (events (CheckCreds.main w)) = 0) /\
    (nullish j = false -> isPlainObject h j = false ->
     events (CheckCreds.main w)
     = (CheckCreds.environmentSummary (CheckCreds.env w)
        ++ [CheckCreds.ReadFile gac; CheckCreds.ParseJson raw; headerLine;
            missing "project_id:"; missing "client_email:"; missing "type:"]
        ++ CheckCreds.usageHint)%list).
Proof.
  intros w gac raw h j Hgac Hread Hparse field missing.
  assert (Hok : nullish j = false ->
     events (CheckCreds.main w)
     = (CheckCreds.environmentSummary (CheckCreds.env w)
        ++ [CheckCreds.ReadFile gac; CheckCreds.ParseJson raw; headerLine;
            field "project_id:" "project_id";
            field "client_email:" "client_email";
            field "type:" "type"]
        ++ CheckCreds.usageHint)%list).
  { intros Hnull. rewrite main_events_parts. unfold CheckCreds.inspectFile.
    rewrite Hgac. unfold CheckCreds.readAndSummarise, getProp.
    rewrite Hread. cbn [lift bindM tryCatch emit ret fst snd app].
    rewrite Hparse. cbn [lift bindM tryCatch emit ret fst snd app].
    rewrite Hnull. reflexivity. }
  split; [|split].
  - intros Hnull. rewrite main_events_parts. unfold CheckCreds.inspectFile.
    rewrite Hgac. unfold CheckCreds.readAndSummarise, getProp.
    rewrite Hread. cbn [lift bindM tryCatch emit ret fst snd app].
    rewrite Hparse. cbn [lift bindM tryCatch emit ret fst snd app].
    rewrite Hnull. reflexivity.
  - intros Hnull. split; [now apply Hok|].
    rewrite (Hok Hnull). rewrite !count_app.
    destruct (summary_counts w) as (_ & _ & -> & _). reflexivity.
  - intros Hnull Hobj. rewrite (Hok Hnull).
    assert (Hprop : forall key, prop h j key = VUndefined).
    { intros key. unfold prop. unfold isPlainObject in Hobj.
      destruct j as [| |b|n|s|l]; try reflexivity.
      destruct (deref h l); [reflexivity | discriminate]. }
    subst field missing. cbv beta. now rewrite !Hprop.
Qed.

Lemma inspector_parsed_file_witness :
  events (CheckCreds.main Samples.nullFileWorld)
  = (CheckCreds.environmentSummary (CheckCreds.env Samples.nullFileWorld)
     ++ [CheckCreds.ReadFile "null.json"; CheckCreds.ParseJson "null";
         headerLine; reportLine TypeError]
     ++ CheckCreds.usageHint)%list /\
  count CheckCreds.isErrorLine
    (events (CheckCreds.main Samples.serviceAccountWorld)) = 0.
Proof.
  destruct (inspector_parsed_file Samples.nullFileWorld "null.json" "null"
              [] VNull eq_refl eq_refl eq_refl) as (Hnull & _).
  destruct (inspector_parsed_file Samples.serviceAccountWorld "sa.json" "{...}"
              _ (VRef 0) eq_refl eq_refl eq_refl) as (_ & Hok & _).
  split; [exact (Hnull eq_refl) | exact (proj2 (Hok eq_refl))].
Defined.

Example inspector_service_account :
  events (CheckCreds.inspectFile Samples.serviceAccountWorld)
  = [ CheckCreds.ReadFile "sa.json"; CheckCreds.ParseJson "{...}"; headerLine;
      CheckCreds.Console LLog
        [CheckCreds.AStr "project_id:";
         CheckCreds.AValue
           [CObject [("type", VString "service_account");
                     ("project_id", VString "demo");
                     ("client_email", VString "")]]
           (VString "demo")];
      CheckCreds.Console LLog
        [CheckCreds.AStr "client_email:"; CheckCreds.AStr "(not found)"];
      CheckCreds.Console LLog
        [CheckCreds.AStr "type:";
         CheckCreds.AValue
           [CObject [("type", VString "service_account");
                     ("project_id", VString "demo");
                     ("client_email", VString "")]]
           (VString "service_account")] ].
Proof. reflexivity. Qed.
